(** * Garden: build tasks, module resolution, keyed sets and the runtime context

    A shallow embedding of
    - [garden-service/src/tasks/build.ts]   ([BuildTask], [getBuildTasks]),
    - [garden-service/src/resolve-module.ts] ([resolveModuleConfig]),
    - [core/src/util/keyed-set.ts]           ([KeyedSet]),
    - [garden-service/src/plugins/terraform/terraform.ts],
      [garden-service/src/plugins/hadolint/hadolint.ts] and the
      [conftest-kubernetes] plugin (their handlers),
    - [core/src/commands/dev.tsx] ([reload]) and the [task-result] command,
    and of the runtime-context assembler, whose implementation is not part of
    the sources at hand and is modelled from the specification. What the code
    takes from JavaScript itself ([JSON], numbers, the properties of plain
    objects, [Map]) is embedded with it.

    Asynchronous code is embedded as sequential code in a state-and-error
    monad: every [await] is a call whose outcome is either a value or a
    thrown exception, and which may change the world outside the engine (the
    build directory, the backend). *)

From Stdlib Require Import String Ascii List Bool Arith ZArith Lia Sorted.
From Stdlib Require Import DecimalFacts DecimalPos DecimalZ.
From Stdlib Require DecimalNat DecimalN.
From stdpp Require Import base option gmap strings.
Import ListNotations.
Local Open Scope string_scope.
Local Open Scope list_scope.

(** ** Exceptions *)

(** The error classes of [exceptions.ts] that the embedded code names, and one
    class for everything a collaborator may throw besides. *)
Inductive ErrorClass :=
| ConfigurationError
| PluginError
| ForeignError.

Record Exn := mkExn { err_class : ErrorClass; err_message : string }.

(** ** The effect monad *)

Module Eff.

(** What the code under study does to its collaborators is recorded as a
    trace of events of type [E]; [W] is the state of the world the
    collaborators act on. *)
Record State (W E : Type) := mkState { world : W; trace : list E }.
Arguments mkState {W E}.
Arguments world {W E}.
Arguments trace {W E}.

Definition Outcome (A : Type) : Type := Exn + A.

(** A collaborator: a fallible, world-changing operation. *)
Definition Ext (W A : Type) : Type := W -> Outcome A * W.

Definition M (W E A : Type) : Type := State W E -> Outcome A * State W E.

Definition ret {W E A} (a : A) : M W E A := fun s => (inr a, s).

Definition throw {W E A} (e : Exn) : M W E A := fun s => (inl e, s).

Definition bind {W E A B} (m : M W E A) (k : A -> M W E B) : M W E B :=
  fun s =>
    match m s with
    | (inr a, s') => k a s'
    | (inl e, s') => (inl e, s')
    end.

(** [try { m } catch (err) { h err }] *)
Definition try_catch {W E A} (m : M W E A) (h : Exn -> M W E A) : M W E A :=
  fun s =>
    match m s with
    | (inr a, s') => (inr a, s')
    | (inl e, s') => h e s'
    end.

(** Record an event. *)
Definition emit {W E} (ev : E) : M W E unit :=
  fun s => (inr tt, mkState (world s) (trace s ++ [ev])).

(** Call a collaborator and record the call, together with its outcome. *)
Definition call {W E A} (ev : Outcome A -> E) (f : Ext W A) : M W E A :=
  fun s =>
    let '(r, w') := f (world s) in
    (r, mkState w' (trace s ++ [ev r])).

(** Run a computation from a world, with an empty trace. *)
Definition run {W E A} (m : M W E A) (w : W) : Outcome A * State W E :=
  m (mkState w []).

End Eff.

Declare Scope eff_scope.
Delimit Scope eff_scope with eff.
Notation "x <- m ;; k" := (Eff.bind m (fun x => k))
  (at level 100, m at next level, right associativity) : eff_scope.
Notation "m ;;; k" := (Eff.bind m (fun _ => k))
  (at level 100, right associativity) : eff_scope.

(** ** [tasks/build.ts] *)

Record ModuleVersion := mkModuleVersion {
  versionString : string;
  files : list string
}.

Record BuildCopySpec := mkBuildCopySpec {
  source : string;
  target : string
}.

(** A resolved build dependency; [copy] may be missing on a config that has
    not been through the schema, which is why the code tests [d.copy &&]. *)
Record BuildDependencyConfig := mkBuildDependencyConfig {
  dep_name : string;
  dep_copy : option (list BuildCopySpec)
}.

Record BuildConfig := mkBuildConfig {
  dependencies : list BuildDependencyConfig
}.

Record Module := mkModule {
  module_name : string;
  module_plugin : option string;
  module_type : string;
  module_version : ModuleVersion;
  module_build : BuildConfig
}.

Record BuildStatus := mkBuildStatus { ready : bool }.

(** [BuildResult] of [types/plugin/module/build]: every field is optional. *)
Record BuildResult := mkBuildResult {
  fresh : option bool;
  buildLog : option string;
  fetched : option bool;
  result_version : option string
}.

(** The object literal [{ fresh: false }]. *)
Definition fresh_false : BuildResult := mkBuildResult (Some false) None None None.

Inductive LogState :=
| GettingBuildStatus (v : string)
| BuildingVersion (v : string).

(** What [process] and [getBuildTasks] do to the outside, in order. The
    backend's actions carry the outcome they had. *)
Inductive Event :=
| EvGetActionRouter
| EvGetConfigGraph
| EvGraphGetDependencies (kind name : string) (recursive : bool)
| EvLogInfo (section : string) (nfiles : nat)
| EvLogSetState (st : LogState)
| EvLogSetSuccess
| EvLogSetError
| EvSyncFromSrc (m : Module)
| EvSyncDependencyProducts (m : Module)
| EvGetBuildStatus (m : Module) (r : Eff.Outcome BuildStatus)
| EvBuild (m : Module) (r : Eff.Outcome BuildResult)
| EvGetModuleActionHandler (actionType moduleType : string) (r : Eff.Outcome unit).

Section BuildTasks.

(** The world outside the engine. *)
Context {W : Type}.

(** [getModuleKey] of [types/module]: the name of a module, qualified by
    the plugin it comes from. *)
Variable getModuleKey : string -> option string -> string.

Record DependencyRelations := mkDependencyRelations {
  rel_build : list Module;
  rel_service : list string;
  rel_task : list string;
  rel_test : list string
}.

Record ConfigGraph := mkConfigGraph {
  getGraphDependencies : string -> string -> bool -> Eff.Ext W DependencyRelations
}.

Record ActionRouter := mkActionRouter {
  getBuildStatus : Module -> Eff.Ext W BuildStatus;
  build : Module -> Eff.Ext W BuildResult;
  getModuleActionHandler : string -> string -> Eff.Ext W unit
}.

Record BuildDir := mkBuildDir {
  syncFromSrc : Module -> Eff.Ext W unit;
  syncDependencyProducts : Module -> ConfigGraph -> Eff.Ext W unit
}.

Record Garden := mkGarden {
  getActionRouter : Eff.Ext W ActionRouter;
  getConfigGraph : Eff.Ext W ConfigGraph;
  buildDir : BuildDir
}.

Record BuildTaskParams := mkBuildTaskParams {
  p_garden : Garden;
  p_module : Module;
  p_force : bool;
  p_fromWatch : option bool;
  p_hotReloadServiceNames : option (list string)
}.

Record BuildTask := mkBuildTask {
  garden : Garden;
  force : bool;
  version : ModuleVersion;
  module : Module;
  fromWatch : bool;
  hotReloadServiceNames : list string
}.

(** [constructor({ garden, log, module, force, fromWatch = false,
    hotReloadServiceNames = [] })] *)
Definition newBuildTask (p : BuildTaskParams) : BuildTask :=
  {| garden := p_garden p;
     force := p_force p;
     version := module_version (p_module p);
     module := p_module p;
     fromWatch := default false (p_fromWatch p);
     hotReloadServiceNames := default [] (p_hotReloadServiceNames p) |}.

Definition getName (t : BuildTask) : string :=
  getModuleKey (module_name (module t)) (module_plugin (module t)).

Local Open Scope eff_scope.

Definition getDependencies (t : BuildTask) : Eff.M W Event (list BuildTask) :=
  dg <- Eff.call (fun _ => EvGetConfigGraph) (getConfigGraph (garden t)) ;;
  rels <- Eff.call (fun _ => EvGraphGetDependencies "build" (getName t) false)
                   (getGraphDependencies dg "build" (getName t) false) ;;
  let deps := rel_build rels in
  Eff.ret (map (fun m : Module =>
                  newBuildTask
                    {| p_garden := garden t;
                       p_module := m;
                       p_force := force t;
                       p_fromWatch := Some (fromWatch t);
                       p_hotReloadServiceNames := Some (hotReloadServiceNames t) |})
               deps).

Definition process (t : BuildTask) : Eff.M W Event BuildResult :=
  let module := module t in
  actions <- Eff.call (fun _ => EvGetActionRouter) (getActionRouter (garden t)) ;;
  Eff.emit (EvLogInfo (getName t) (length (files (module_version module)))) ;;;
  let logSuccess := Eff.emit EvLogSetSuccess in
  graph <- Eff.call (fun _ => EvGetConfigGraph) (getConfigGraph (garden t)) ;;
  Eff.call (fun _ => EvSyncFromSrc module) (syncFromSrc (buildDir (garden t)) module) ;;;
  Eff.call (fun _ => EvSyncDependencyProducts module)
           (syncDependencyProducts (buildDir (garden t)) module graph) ;;;
  let doBuild : Eff.M W Event BuildResult :=
    Eff.emit (EvLogSetState (BuildingVersion (versionString (module_version module)))) ;;;
    result <- Eff.try_catch
                (Eff.call (EvBuild module) (build actions module))
                (fun err => Eff.emit EvLogSetError ;;; Eff.throw err) ;;
    logSuccess ;;;
    Eff.ret result in
  if negb (force t) then
    Eff.emit (EvLogSetState (GettingBuildStatus (versionString (module_version module)))) ;;;
    status <- Eff.call (EvGetBuildStatus module) (getBuildStatus actions module) ;;
    if ready status then
      logSuccess ;;;
      Eff.ret fresh_false
    else doBuild
  else doBuild.

(** [some(module.build.dependencies, (d) => d.copy && d.copy.length > 0)] *)
Definition hasCopy (d : BuildDependencyConfig) : bool :=
  match dep_copy d with
  | Some c => (0 <? length c)%nat
  | None => false
  end.

Definition getBuildTasks (params : BuildTaskParams) : Eff.M W Event (list BuildTask) :=
  let garden := p_garden params in
  let module := p_module params in
  let needsBuild := existsb hasCopy (dependencies (module_build module)) in
  needsBuild <-
    (if negb needsBuild then
       actions <- Eff.call (fun _ => EvGetActionRouter) (getActionRouter garden) ;;
       Eff.try_catch
         (Eff.call (EvGetModuleActionHandler "build" (module_type module))
                   (getModuleActionHandler actions "build" (module_type module)) ;;;
          Eff.ret true)
         (fun _ => Eff.ret needsBuild)
     else Eff.ret needsBuild) ;;
  let buildTask := newBuildTask params in
  if (needsBuild : bool) then Eff.ret [buildTask]
  else getDependencies buildTask.

End BuildTasks.

(** *** A concrete backend

    A small project in the shape of the example scenario: module [web]
    depends on the build of module [lib] and copies [dist] of [lib] to its own
    [vendor/lib]. The world is the build directory together with the versions
    the backend has built. *)

Record DemoWorld := mkDemoWorld {
  build_dir : list (string * string);
  built : list string
}.

Definition demo_getModuleKey (name : string) (plugin : option string) : string :=
  match plugin with
  | Some p => p +:+ "--" +:+ name
  | None => name
  end.

Definition lib_module : Module :=
  {| module_name := "lib"; module_plugin := None; module_type := "container";
     module_version := mkModuleVersion "v-lib-1" ["lib/index.ts"];
     module_build := mkBuildConfig [] |}.

Definition web_module : Module :=
  {| module_name := "web"; module_plugin := None; module_type := "container";
     module_version := mkModuleVersion "v-web-1" ["web/index.ts"; "web/app.ts"];
     module_build :=
       mkBuildConfig [mkBuildDependencyConfig "lib" (Some [mkBuildCopySpec "dist" "vendor/lib"])] |}.

(** A module of a type nobody builds, depending on [lib] without copying. *)
Definition meta_module : Module :=
  {| module_name := "meta"; module_plugin := None; module_type := "exec";
     module_version := mkModuleVersion "v-meta-1" [];
     module_build := mkBuildConfig [mkBuildDependencyConfig "lib" (Some [])] |}.

(** A module whose build the backend fails, after it has written to the
    build directory. *)
Definition broken_module : Module :=
  {| module_name := "broken"; module_plugin := None; module_type := "failing";
     module_version := mkModuleVersion "v-broken-1" ["broken/Dockerfile"];
     module_build := mkBuildConfig [] |}.

Definition demo_modules : list Module := [lib_module; web_module; meta_module; broken_module].

Definition demo_graph : @ConfigGraph DemoWorld :=
  {| getGraphDependencies := fun kind name recursive w =>
       match find (fun m => String.eqb (module_name m) name) demo_modules with
       | Some m =>
           let names := map dep_name (dependencies (module_build m)) in
           (inr {| rel_build :=
                     filter (fun d => existsb (String.eqb (module_name d)) names) demo_modules;
                   rel_service := []; rel_task := []; rel_test := [] |}, w)
       | None => (inl (mkExn ForeignError ("Could not find module " +:+ name)), w)
       end |}.

Definition demo_actions : @ActionRouter DemoWorld :=
  {| getBuildStatus := fun m w =>
       (inr (mkBuildStatus (existsb (String.eqb (versionString (module_version m))) (built w))), w);
     build := fun m w =>
       if String.eqb (module_type m) "failing" then
         (inl (mkExn ForeignError "build failed"),
          mkDemoWorld ((module_name m +:+ "/.partial", "") :: build_dir w) (built w))
       else
         (inr (mkBuildResult (Some true) (Some "ok") None None),
          mkDemoWorld (build_dir w) (versionString (module_version m) :: built w));
     getModuleActionHandler := fun actionType moduleType w =>
       if String.eqb moduleType "exec" then
         (inl (mkExn ForeignError ("No " +:+ actionType +:+ " handler for " +:+ moduleType)), w)
       else (inr tt, w) |}.

Definition demo_buildDir : @BuildDir DemoWorld :=
  {| syncFromSrc := fun m w =>
       (inr tt,
        mkDemoWorld (map (fun f => (f, versionString (module_version m)))
                         (files (module_version m)) ++ build_dir w)
                    (built w));
     syncDependencyProducts := fun m g w =>
       (inr tt,
        mkDemoWorld (flat_map (fun d =>
                                 map (fun c => (module_name m +:+ "/" +:+ target c,
                                                dep_name d +:+ "/" +:+ source c))
                                     (default [] (dep_copy d)))
                              (dependencies (module_build m)) ++ build_dir w)
                    (built w)) |}.

Definition demo_garden : @Garden DemoWorld :=
  {| getActionRouter := fun w => (inr demo_actions, w);
     getConfigGraph := fun w => (inr demo_graph, w);
     buildDir := demo_buildDir |}.

Definition demo_task (m : Module) (f : bool) : @BuildTask DemoWorld :=
  newBuildTask {| p_garden := demo_garden; p_module := m; p_force := f;
                  p_fromWatch := None; p_hotReloadServiceNames := None |}.

(** The world after a first, complete run: both versions are built. *)
Definition demo_built_world : DemoWorld :=
  mkDemoWorld [("web/vendor/lib", "lib/dist")] ["v-web-1"; "v-lib-1"].

(** The backend actions among the events. *)
Definition is_backend_action (ev : Event) : bool :=
  match ev with
  | EvGetBuildStatus _ _ | EvBuild _ _ | EvGetModuleActionHandler _ _ _ => true
  | _ => false
  end.

(** ** JavaScript values *)

(** JavaScript numbers: the doubles. A finite number other than zero is
    given by the decimal that [Number::toString] writes for it: its sign, the
    digits [s] of the shortest decimal that denotes the number (the first and
    the last of them are not [0]) and the place [n] of the decimal point, for
    the value 0.s times 10^n. These are the [s] and the [n] of the algorithm
    in the language specification, whose [k] is the length of [s]. *)
Module Number.

Inductive digit := d0 | d1 | d2 | d3 | d4 | d5 | d6 | d7 | d8 | d9.

Inductive t :=
| NaN
| Infinity (negative : bool)
| Zero (negative : bool)
| Finite (negative : bool) (s : list digit) (n : Z).

Definition is_d0 (d : digit) : bool :=
  match d with
  | d0 => true
  | _ => false
  end.

(** Digits without the zeros at their head, and without those at their
    end. *)
Fixpoint drop_zeros (ds : list digit) : list digit :=
  match ds with
  | d0 :: ds' => drop_zeros ds'
  | _ => ds
  end.

Definition strip_zeros (ds : list digit) : list digit := rev (drop_zeros (rev ds)).

(** The number 0.ds times 10^n, for any digits [ds]. *)
Definition of_digits (negative : bool) (ds : list digit) (n : Z) : t :=
  match drop_zeros ds with
  | [] => Zero negative
  | d :: ds' =>
      Finite negative (strip_zeros (d :: ds'))
             (n - Z.of_nat (length ds - length (d :: ds')))
  end.

(** The digits of a finite number start and end with a digit other than
    [0]. *)
Definition well_formed (x : t) : bool :=
  match x with
  | Finite _ [] _ => false
  | Finite _ (d :: s) _ => negb (is_d0 d) && negb (is_d0 (List.last s d))
  | _ => true
  end.

Definition is_finite (x : t) : bool :=
  match x with
  | NaN | Infinity _ => false
  | _ => true
  end.

Fixpoint digits_of_uint (d : Decimal.uint) : list digit :=
  match d with
  | Decimal.Nil => []
  | Decimal.D0 d => d0 :: digits_of_uint d
  | Decimal.D1 d => d1 :: digits_of_uint d
  | Decimal.D2 d => d2 :: digits_of_uint d
  | Decimal.D3 d => d3 :: digits_of_uint d
  | Decimal.D4 d => d4 :: digits_of_uint d
  | Decimal.D5 d => d5 :: digits_of_uint d
  | Decimal.D6 d => d6 :: digits_of_uint d
  | Decimal.D7 d => d7 :: digits_of_uint d
  | Decimal.D8 d => d8 :: digits_of_uint d
  | Decimal.D9 d => d9 :: digits_of_uint d
  end.

(** The integers among the numbers. *)
Definition of_Z (z : Z) : t :=
  match Z.to_int z with
  | Decimal.Pos d =>
      of_digits false (digits_of_uint d) (Z.of_nat (length (digits_of_uint d)))
  | Decimal.Neg d =>
      of_digits true (digits_of_uint d) (Z.of_nat (length (digits_of_uint d)))
  end.

Definition digit_value (d : digit) : Z :=
  match d with
  | d0 => 0 | d1 => 1 | d2 => 2 | d3 => 3 | d4 => 4
  | d5 => 5 | d6 => 6 | d7 => 7 | d8 => 8 | d9 => 9
  end.

Definition to_Z (x : t) : option Z :=
  match x with
  | Zero _ => Some 0%Z
  | Finite negative s n =>
      if (Z.of_nat (length s) <=? n)%Z then
        let m := (fold_left (fun acc d => 10 * acc + digit_value d) s 0
                  * 10 ^ (n - Z.of_nat (length s)))%Z in
        Some (if negative then (- m)%Z else m)
      else None
  | _ => None
  end.

End Number.

(** JavaScript values as far as module configurations and dependency outputs
    hold them: [null], booleans, numbers, strings, arrays, and objects as the
    lists of their own properties in enumeration order. *)
Unset Elimination Schemes.
Inductive json :=
| JNull
| JBool (b : bool)
| JNum (x : Number.t)
| JStr (s : string)
| JArr (l : list json)
| JObj (l : list (string * json)).
Set Elimination Schemes.

(** Induction over values, through the lists of arrays and objects. *)
Fixpoint json_ind' (P : json -> Prop)
  (HNull : P JNull) (HBool : forall b, P (JBool b)) (HNum : forall x, P (JNum x))
  (HStr : forall s, P (JStr s))
  (HArr : forall l, List.Forall P l -> P (JArr l))
  (HObj : forall l, List.Forall (fun kv => P (snd kv)) l -> P (JObj l))
  (v : json) {struct v} : P v :=
  match v with
  | JNull => HNull
  | JBool b => HBool b
  | JNum x => HNum x
  | JStr s => HStr s
  | JArr l =>
      HArr l ((fix all (l : list json) : List.Forall P l :=
                 match l with
                 | [] => @List.Forall_nil _ P
                 | x :: l' =>
                     @List.Forall_cons _ P x l'
                       (json_ind' P HNull HBool HNum HStr HArr HObj x) (all l')
                 end) l)
  | JObj l =>
      HObj l ((fix all (l : list (string * json)) : List.Forall (fun kv => P (snd kv)) l :=
                 match l with
                 | [] => @List.Forall_nil _ (fun kv => P (snd kv))
                 | kv :: l' =>
                     @List.Forall_cons _ (fun kv => P (snd kv)) kv l'
                       (json_ind' P HNull HBool HNum HStr HArr HObj (snd kv)) (all l')
                 end) l)
  end.

(** ** [resolve-module.ts] *)

(** A build dependency as a configuration file may declare it: by name only,
    or in full. *)
Inductive BuildDependencyDecl :=
| DepByName (s : string)
| DepConfig (d : BuildDependencyConfig).

Record DeclaredBuildConfig := mkDeclaredBuildConfig {
  declared_dependencies : option (list BuildDependencyDecl)
}.

(** Service, task and test configurations: the code only renames them. *)
Record EntityConfig := mkEntityConfig {
  entity_name : string;
  entity_spec : json
}.

Record ModuleConfig := mkModuleConfig {
  cfg_type : string;
  cfg_name : string;
  cfg_path : string;
  cfg_configPath : option string;
  cfg_plugin : option string;
  cfg_repositoryUrl : option string;
  cfg_spec : json;
  cfg_outputs : json;
  cfg_build : option DeclaredBuildConfig;
  cfg_serviceConfigs : list EntityConfig;
  cfg_taskConfigs : list EntityConfig;
  cfg_testConfigs : list EntityConfig
}.

Definition set_spec (c : ModuleConfig) (v : json) : ModuleConfig :=
  mkModuleConfig (cfg_type c) (cfg_name c) (cfg_path c) (cfg_configPath c) (cfg_plugin c)
                 (cfg_repositoryUrl c) v (cfg_outputs c) (cfg_build c)
                 (cfg_serviceConfigs c) (cfg_taskConfigs c) (cfg_testConfigs c).

Definition set_outputs (c : ModuleConfig) (v : json) : ModuleConfig :=
  mkModuleConfig (cfg_type c) (cfg_name c) (cfg_path c) (cfg_configPath c) (cfg_plugin c)
                 (cfg_repositoryUrl c) (cfg_spec c) v (cfg_build c)
                 (cfg_serviceConfigs c) (cfg_taskConfigs c) (cfg_testConfigs c).

Definition set_path (c : ModuleConfig) (v : string) : ModuleConfig :=
  mkModuleConfig (cfg_type c) (cfg_name c) v (cfg_configPath c) (cfg_plugin c)
                 (cfg_repositoryUrl c) (cfg_spec c) (cfg_outputs c) (cfg_build c)
                 (cfg_serviceConfigs c) (cfg_taskConfigs c) (cfg_testConfigs c).

Definition set_name (c : ModuleConfig) (v : string) : ModuleConfig :=
  mkModuleConfig (cfg_type c) v (cfg_path c) (cfg_configPath c) (cfg_plugin c)
                 (cfg_repositoryUrl c) (cfg_spec c) (cfg_outputs c) (cfg_build c)
                 (cfg_serviceConfigs c) (cfg_taskConfigs c) (cfg_testConfigs c).

Definition set_build (c : ModuleConfig) (v : option DeclaredBuildConfig) : ModuleConfig :=
  mkModuleConfig (cfg_type c) (cfg_name c) (cfg_path c) (cfg_configPath c) (cfg_plugin c)
                 (cfg_repositoryUrl c) (cfg_spec c) (cfg_outputs c) v
                 (cfg_serviceConfigs c) (cfg_taskConfigs c) (cfg_testConfigs c).

Definition set_entityConfigs (c : ModuleConfig) (sv ta te : list EntityConfig) : ModuleConfig :=
  mkModuleConfig (cfg_type c) (cfg_name c) (cfg_path c) (cfg_configPath c) (cfg_plugin c)
                 (cfg_repositoryUrl c) (cfg_spec c) (cfg_outputs c) (cfg_build c) sv ta te.

(** A string in a condition: [undefined] and the empty string are falsy. *)
Definition truthy (s : option string) : option string :=
  match s with
  | Some "" => None
  | _ => s
  end.

(** A plain object used as a table from names to values. What
    [table[key]] finds is an own property of the table or else, as the
    prototype of a plain object is [Object.prototype], one of the members
    every object inherits: the functions [constructor], [toString], ... and
    [__proto__], the prototype itself. *)
Inductive Property (A : Type) :=
| Own (a : A)
| Inherited (name : string).
Arguments Own {A}.
Arguments Inherited {A}.

Definition object_prototype : list string :=
  ["constructor"; "__defineGetter__"; "__defineSetter__"; "hasOwnProperty";
   "__lookupGetter__"; "__lookupSetter__"; "isPrototypeOf"; "propertyIsEnumerable";
   "toString"; "valueOf"; "__proto__"; "toLocaleString"].

Definition get_property {A} (table : gmap string A) (key : string) : option (Property A) :=
  match table !! key with
  | Some a => Some (Own a)
  | None =>
      if existsb (String.eqb key) object_prototype then Some (Inherited key) else None
  end.

(** [value.field] of what was found in a table: the inherited members are
    functions and the prototype, none of which has a property of the names
    read here, so the answer for them is [undefined]. *)
Definition property_field {A B} (field : A -> option B) (value : Property A) : option B :=
  match value with
  | Own a => field a
  | Inherited _ => None
  end.

(** The error monad of code whose collaborators are only asked for values. *)
Module Err.

Definition ret {A} (a : A) : Eff.Outcome A := inr a.

Definition bind {A B} (m : Eff.Outcome A) (k : A -> Eff.Outcome B) : Eff.Outcome B :=
  match m with
  | inr a => k a
  | inl e => inl e
  end.

End Err.

Declare Scope err_scope.
Delimit Scope err_scope with err.
Notation "x <- m ;; k" := (Err.bind m (fun x => k))
  (at level 100, m at next level, right associativity) : err_scope.

Section ResolveModule.

(** Joi schemas, the template context, and the helpers that
    [resolve-module.ts] imports. *)
Variable Schema : Type.
Variable ConfigContext : Type.
Variable getModuleKey : string -> option string -> string.
Variable relative : string -> string -> string.
Variable schema_unknown : Schema -> bool -> Schema.
Variable moduleConfigSchema : Schema.

Record ModuleTypeDefinition := mkModuleTypeDefinition {
  mtd_name : string;
  mtd_schema : option Schema;
  mtd_moduleOutputsSchema : option Schema
}.

Record ValidateParams (T : Type) := mkValidateParams {
  v_config : T;
  v_schema : Schema;
  v_configType : option string;
  v_name : option string;
  v_path : string;
  v_projectRoot : string;
  v_ErrorClass : option ErrorClass
}.
Arguments mkValidateParams {T}.
Arguments v_config {T}.

Record ModuleConfigResolveOpts := mkResolveOpts {
  opts_allowPartial : bool;
  opts_configContext : option ConfigContext
}.

Variable validateWithPath : forall T : Type, ValidateParams T -> Eff.Outcome T.
Variable resolveTemplateStrings :
  ModuleConfig -> ConfigContext -> ModuleConfigResolveOpts -> Eff.Outcome ModuleConfig.
Variable getModuleTypeBases :
  option (Property ModuleTypeDefinition) -> gmap string ModuleTypeDefinition ->
  Eff.Outcome (list ModuleTypeDefinition).

Record ConfigureRouter := mkConfigureRouter {
  configureModule : ModuleConfig -> Eff.Outcome ModuleConfig
}.

Record ResolveGarden := mkResolveGarden {
  projectRoot : string;
  getModuleConfigContext : Eff.Outcome ConfigContext;
  getModuleTypeDefinitions : Eff.Outcome (gmap string ModuleTypeDefinition);
  loadExtSourcePath : string -> string -> string -> Eff.Outcome string;
  getConfigureRouter : Eff.Outcome ConfigureRouter
}.

(** [cloneDeep] of a value is the value. *)
Definition cloneDeep (c : ModuleConfig) : ModuleConfig := c.

Local Open Scope err_scope.

(** The message of the error for an unknown module type, as [deline] lays
    the template out: on one line, the two sentences a space apart. *)
Definition unrecognizedModuleType (type configPath : string) : string :=
  "Unrecognized module type '" +:+ type +:+ "' (defined at " +:+ configPath +:+ "). "
  +:+ "Are you missing a provider configuration?".

(** The body of [for (const base of bases)]. *)
Fixpoint validateAgainstBases (garden : ResolveGarden) (bases : list ModuleTypeDefinition)
         (config : ModuleConfig) : Eff.Outcome ModuleConfig :=
  match bases with
  | [] => Err.ret config
  | base :: rest =>
      config <-
        match mtd_schema base with
        | Some schema =>
            spec <- validateWithPath json
                      (mkValidateParams (cfg_spec config) (schema_unknown schema true)
                         (Some ("configuration for module '" +:+ cfg_name config
                                +:+ "' (base schema from '" +:+ mtd_name base +:+ "' plugin)"))
                         None (projectRoot garden) (projectRoot garden)
                         (Some ConfigurationError)) ;;
            Err.ret (set_spec config spec)
        | None => Err.ret config
        end ;;
      config <-
        match mtd_moduleOutputsSchema base with
        | Some schema =>
            outputs <- validateWithPath json
                         (mkValidateParams (cfg_outputs config) (schema_unknown schema true)
                            (Some ("outputs for module '" +:+ cfg_name config
                                   +:+ "' (base schema from '" +:+ mtd_name base +:+ "' plugin)"))
                            None (projectRoot garden) (projectRoot garden)
                            (Some PluginError)) ;;
            Err.ret (set_outputs config outputs)
        | None => Err.ret config
        end ;;
      validateAgainstBases garden rest config
  end.

Definition qualify (plugin : option string) (c : EntityConfig) : EntityConfig :=
  mkEntityConfig (getModuleKey (entity_name c) plugin) (entity_spec c).

Definition resolveModuleConfig (garden : ResolveGarden) (config : ModuleConfig)
           (opts : ModuleConfigResolveOpts) : Eff.Outcome ModuleConfig :=
  configContext <-
    match opts_configContext opts with
    | Some ctx => Err.ret ctx
    | None => getModuleConfigContext garden
    end ;;
  let opts := mkResolveOpts (opts_allowPartial opts) (Some configContext) in
  config <- resolveTemplateStrings (cloneDeep config) configContext opts ;;
  moduleTypeDefinitions <- getModuleTypeDefinitions garden ;;
  match get_property moduleTypeDefinitions (cfg_type config) with
  | None =>
      let configPath :=
        relative (projectRoot garden)
                 (default (cfg_path config) (truthy (cfg_configPath config))) in
      inl (mkExn ConfigurationError (unrecognizedModuleType (cfg_type config) configPath))
  | Some description =>
      (* Validate the module-type specific spec *)
      config <-
        match property_field mtd_schema description with
        | Some schema =>
            spec <- validateWithPath json
                      (mkValidateParams (cfg_spec config) schema None
                         (Some (cfg_name config)) (cfg_path config) (projectRoot garden)
                         None) ;;
            Err.ret (set_spec config spec)
        | None => Err.ret config
        end ;;
      (* dependencies by name only are a shorthand *)
      let config :=
        match cfg_build config with
        | Some b =>
            match declared_dependencies b with
            | Some deps =>
                set_build config
                  (Some (mkDeclaredBuildConfig
                     (Some (map (fun dep =>
                                   match dep with
                                   | DepByName dep =>
                                       DepConfig (mkBuildDependencyConfig dep (Some []))
                                   | DepConfig _ => dep
                                   end) deps))))
            | None => config
            end
        | None => config
        end in
      (* Validate the base config schema *)
      config <- validateWithPath ModuleConfig
                  (mkValidateParams config moduleConfigSchema (Some "module")
                     (Some (cfg_name config)) (cfg_path config) (projectRoot garden) None) ;;
      config <-
        match truthy (cfg_repositoryUrl config) with
        | Some repositoryUrl =>
            path <- loadExtSourcePath garden (cfg_name config) repositoryUrl "module" ;;
            Err.ret (set_path config path)
        | None => Err.ret config
        end ;;
      actions <- getConfigureRouter garden ;;
      configureResult <- configureModule actions config ;;
      let config := configureResult in
      (* Validate the module outputs against the outputs schema *)
      config <-
        match property_field mtd_moduleOutputsSchema description with
        | Some schema =>
            outputs <- validateWithPath json
                         (mkValidateParams (cfg_outputs config) schema
                            (Some "outputs for module") (Some (cfg_name config))
                            (cfg_path config) (projectRoot garden) (Some PluginError)) ;;
            Err.ret (set_outputs config outputs)
        | None => Err.ret config
        end ;;
      (* Validate the configure handler output against the module type's bases *)
      bases <- getModuleTypeBases (get_property moduleTypeDefinitions (cfg_type config))
                                  moduleTypeDefinitions ;;
      config <- validateAgainstBases garden bases config ;;
      let config := set_name config (getModuleKey (cfg_name config) (cfg_plugin config)) in
      let config :=
        match truthy (cfg_plugin config) with
        | Some _ =>
            set_entityConfigs config
              (map (qualify (cfg_plugin config)) (cfg_serviceConfigs config))
              (map (qualify (cfg_plugin config)) (cfg_taskConfigs config))
              (map (qualify (cfg_plugin config)) (cfg_testConfigs config))
        | None => config
        end in
      Err.ret config
  end.

End ResolveModule.

(** ** [util/keyed-set.ts] *)

(** The built-in [Map<string, V>]: its entries in insertion order. Setting a
    key that is present keeps the place of the key. *)
Module JsMap.
Section JsMap.
Context {V : Type}.

Definition t : Type := list (string * V).

Definition empty : t := [].

Fixpoint has (k : string) (m : t) : bool :=
  match m with
  | [] => false
  | (k', _) :: m' => if String.eqb k' k then true else has k m'
  end.

Fixpoint set (k : string) (v : V) (m : t) : t :=
  match m with
  | [] => [(k, v)]
  | (k', v') :: m' =>
      if String.eqb k' k then (k', v) :: m' else (k', v') :: set k v m'
  end.

Fixpoint delete (k : string) (m : t) : t :=
  match m with
  | [] => []
  | (k', v') :: m' =>
      if String.eqb k' k then m' else (k', v') :: delete k m'
  end.

Fixpoint get (k : string) (m : t) : option V :=
  match m with
  | [] => None
  | (k', v') :: m' => if String.eqb k' k then Some v' else get k m'
  end.

Definition keys (m : t) : list string := map fst m.

Definition values (m : t) : list V := map snd m.

Definition size (m : t) : nat := length m.

End JsMap.
Arguments t : clear implicits.
End JsMap.

Module KeyedSet.
Section KeyedSet.
Context {V : Type}.
Variable keyFn : V -> string.

Record t := mk { map : JsMap.t V }.

(** [new KeyedSet(keyFn)] *)
Definition new : t := mk JsMap.empty.

(** [add] returns the set itself, after the update. *)
Definition add (entry : V) (this : t) : t :=
  mk (JsMap.set (keyFn entry) entry (map this)).

(** [delete] returns what [Map.delete] returns (was the key present?),
    and the set after the update. *)
Definition delete (entry : V) (this : t) : bool * t :=
  (JsMap.has (keyFn entry) (map this), mk (JsMap.delete (keyFn entry) (map this))).

Definition has (entry : V) (this : t) : bool :=
  JsMap.has (keyFn entry) (map this).

Definition hasKey (key : string) (this : t) : bool :=
  JsMap.has key (map this).

Definition entries (this : t) : list V := JsMap.values (map this).

Definition size (this : t) : nat := JsMap.size (map this).

Definition clear (this : t) : t := mk JsMap.empty.

(** The life of one set: the calls that change it, oldest first. *)
Inductive Op :=
| Add (entry : V)
| Delete (entry : V)
| Clear.

Definition apply (this : t) (op : Op) : t :=
  match op with
  | Add entry => add entry this
  | Delete entry => (delete entry this).2
  | Clear => clear this
  end.

Definition after (ops : list Op) : t := fold_left apply ops new.

(** For the comparison with the code: who is a member after [ops], and
    since which call. A key is stamped with the position of the call that
    made it a member; adding under a key that is a member keeps the
    stamp and changes the value. *)
Definition stamp (st : nat * (string -> option (nat * V))) (op : Op)
  : nat * (string -> option (nat * V)) :=
  let '(i, members) := st in
  (S i,
   match op with
   | Add entry =>
       fun k =>
         if String.eqb (keyFn entry) k then
           match members k with
           | Some (j, _) => Some (j, entry)
           | None => Some (i, entry)
           end
         else members k
   | Delete entry =>
       fun k => if String.eqb (keyFn entry) k then None else members k
   | Clear => fun _ => None
   end).

Definition members_from (st : nat * (string -> option (nat * V))) (ops : list Op)
  : string -> option (nat * V) :=
  (fold_left stamp ops st).2.

Definition members (ops : list Op) : string -> option (nat * V) :=
  members_from (0, fun _ => None) ops.

(** The key [a] was stamped before the key [b]. *)
Definition before (mem : string -> option (nat * V)) (a b : string) : Prop :=
  match mem a, mem b with
  | Some (i, _), Some (j, _) => i < j
  | _, _ => False
  end.

(** [a] became a member before [b] did. *)
Definition inserted_before (ops : list Op) (a b : V) : Prop :=
  before (members ops) (keyFn a) (keyFn b).

(** The map of the code against the stamped members: same values under the
    same keys, every member filed under its own key, and the keys of the map
    in the order of their stamps, all of them below the next stamp [n]. *)
Record represents (n : nat) (mem : string -> option (nat * V)) (m : JsMap.t V) : Prop :=
  mkRepresents {
    rep_get : forall k, JsMap.get k m = snd <$> mem k;
    rep_key : forall k i v, mem k = Some (i, v) -> i < n /\ keyFn v = k;
    rep_sorted : StronglySorted (before mem) (JsMap.keys m)
  }.

End KeyedSet.
Arguments t : clear implicits.
Arguments Op : clear implicits.
End KeyedSet.

(** *** A concrete project for [resolveModuleConfig]

    Collaborators that accept everything: validation and the configure
    handler return what they are given, templates resolve to themselves. *)

Definition demo_relative (from to : string) : string :=
  if String.prefix (from +:+ "/") to
  then String.substring (S (String.length from)) (String.length to - S (String.length from)) to
  else to.

Definition demo_validateWithPath (T : Type) (p : ValidateParams unit T) : Eff.Outcome T :=
  inr (v_config unit T p).

Definition demo_resolveTemplateStrings (c : ModuleConfig) (ctx : unit)
           (opts : ModuleConfigResolveOpts unit) : Eff.Outcome ModuleConfig :=
  inr c.

Definition demo_getModuleTypeBases (d : option (Property (ModuleTypeDefinition unit)))
           (defs : gmap string (ModuleTypeDefinition unit))
  : Eff.Outcome (list (ModuleTypeDefinition unit)) :=
  inr [].

Definition demo_resolveGarden : ResolveGarden unit unit :=
  {| projectRoot := "/project";
     getModuleConfigContext := inr tt;
     getModuleTypeDefinitions :=
       inr {[ "container" := mkModuleTypeDefinition unit "container" None None ]};
     loadExtSourcePath := fun name url sourceType => inr ("/project/.garden/sources/" +:+ name);
     getConfigureRouter := inr (mkConfigureRouter (fun c => inr c)) |}.

Definition demo_resolveModuleConfig :=
  resolveModuleConfig unit unit demo_getModuleKey demo_relative (fun s _ => s) tt
                      demo_validateWithPath demo_resolveTemplateStrings demo_getModuleTypeBases
                      demo_resolveGarden.

Definition web_config (type : string) : ModuleConfig :=
  {| cfg_type := type; cfg_name := "web"; cfg_path := "/project/web";
     cfg_configPath := Some "/project/web/garden.yml";
     cfg_plugin := None; cfg_repositoryUrl := None;
     cfg_spec := JObj []; cfg_outputs := JObj [];
     cfg_build :=
       Some (mkDeclaredBuildConfig
               (Some [DepByName "lib";
                      DepConfig (mkBuildDependencyConfig "assets"
                                   (Some [mkBuildCopySpec "dist" "vendor/assets"]))]));
     cfg_serviceConfigs := []; cfg_taskConfigs := []; cfg_testConfigs := [] |}.

(** ** [JSON.stringify] and [JSON.parse]

    The two built-ins that carry the dependency list through the
    environment, on JavaScript values of type [json] and texts as lists of
    characters. [stringify] writes the compact form (no indentation);
    [parse] reads the JSON grammar. A number that is read keeps the decimal
    it was written with, where JavaScript takes the double nearest to it:
    the two agree on every text that [stringify] writes. *)

Module JSON.

Definition chars (s : string) : list ascii := list_ascii_of_string s.

Definition dquote : ascii := "034"%char.
Definition bslash : ascii := "092"%char.

Definition hex_char (n : nat) : ascii :=
  nth n (chars "0123456789abcdef") "0"%char.

Definition hex_value (c : ascii) : option nat :=
  let n := nat_of_ascii c in
  if (48 <=? n)%nat && (n <=? 57)%nat then Some (n - 48)
  else if (97 <=? n)%nat && (n <=? 102)%nat then Some (n - 87)
  else if (65 <=? n)%nat && (n <=? 70)%nat then Some (n - 55)
  else None.

(** [QuoteJSONString], one character at a time. *)
Definition escape_char (c : ascii) : list ascii :=
  if Ascii.eqb c dquote then [bslash; dquote]
  else if Ascii.eqb c bslash then [bslash; bslash]
  else if Ascii.eqb c "008"%char then [bslash; "b"%char]
  else if Ascii.eqb c "012"%char then [bslash; "f"%char]
  else if Ascii.eqb c "010"%char then [bslash; "n"%char]
  else if Ascii.eqb c "013"%char then [bslash; "r"%char]
  else if Ascii.eqb c "009"%char then [bslash; "t"%char]
  else if (nat_of_ascii c <? 32)%nat then
    [bslash; "u"%char; "0"%char; "0"%char;
     hex_char (nat_of_ascii c / 16); hex_char (nat_of_ascii c mod 16)]
  else [c].

Definition quote (s : string) : list ascii :=
  dquote :: flat_map escape_char (chars s) ++ [dquote].

Fixpoint uint_chars (d : Decimal.uint) : list ascii :=
  match d with
  | Decimal.Nil => []
  | Decimal.D0 d => "0"%char :: uint_chars d
  | Decimal.D1 d => "1"%char :: uint_chars d
  | Decimal.D2 d => "2"%char :: uint_chars d
  | Decimal.D3 d => "3"%char :: uint_chars d
  | Decimal.D4 d => "4"%char :: uint_chars d
  | Decimal.D5 d => "5"%char :: uint_chars d
  | Decimal.D6 d => "6"%char :: uint_chars d
  | Decimal.D7 d => "7"%char :: uint_chars d
  | Decimal.D8 d => "8"%char :: uint_chars d
  | Decimal.D9 d => "9"%char :: uint_chars d
  end.

Definition digit_char (d : Number.digit) : ascii :=
  match d with
  | Number.d0 => "0" | Number.d1 => "1" | Number.d2 => "2" | Number.d3 => "3"
  | Number.d4 => "4" | Number.d5 => "5" | Number.d6 => "6" | Number.d7 => "7"
  | Number.d8 => "8" | Number.d9 => "9"
  end%char.

(** The exponent of the scientific form: its sign, always written, and its
    decimal digits. *)
Definition exponent_chars (e : Z) : list ascii :=
  (if (e <? 0)%Z then "-"%char else "+"%char) :: uint_chars (N.to_uint (Z.abs_N e)).

(** [Number::toString] on a finite number other than zero, after its sign.
    With [k] digits and the decimal point at [n]: the digits and [n - k]
    zeros when [k <= n <= 21]; the digits with the point inside when
    [0 < n <= 21]; [0.], [-n] zeros and the digits when [-6 < n <= 0]; and
    otherwise the scientific form with the exponent [n - 1]. *)
Definition finite_chars (s : list Number.digit) (n : Z) : list ascii :=
  let k := Z.of_nat (length s) in
  let digits := map digit_char s in
  if (k <=? n)%Z && (n <=? 21)%Z then
    digits ++ repeat "0"%char (Z.to_nat (n - k))
  else if (0 <? n)%Z && (n <=? 21)%Z then
    firstn (Z.to_nat n) digits ++ "."%char :: skipn (Z.to_nat n) digits
  else if (-6 <? n)%Z && (n <=? 0)%Z then
    "0"%char :: "."%char :: repeat "0"%char (Z.to_nat (- n)) ++ digits
  else
    match digits with
    | [] => []
    | [c] => c :: "e"%char :: exponent_chars (n - 1)
    | c :: t => c :: "."%char :: t ++ "e"%char :: exponent_chars (n - 1)
    end.

Definition number_chars (x : Number.t) : list ascii :=
  match x with
  | Number.NaN => chars "NaN"
  | Number.Infinity negative => if negative then chars "-Infinity" else chars "Infinity"
  | Number.Zero _ => chars "0"
  | Number.Finite negative s n =>
      if negative then "-"%char :: finite_chars s n else finite_chars s n
  end.

Fixpoint join_comma (l : list (list ascii)) : list ascii :=
  match l with
  | [] => []
  | [x] => x
  | x :: l' => x ++ ","%char :: join_comma l'
  end.

Fixpoint stringify_chars (v : json) : list ascii :=
  match v with
  | JNull => chars "null"
  | JBool true => chars "true"
  | JBool false => chars "false"
  | JNum x => if Number.is_finite x then number_chars x else chars "null"
  | JStr s => quote s
  | JArr l => "["%char :: join_comma (map stringify_chars l) ++ ["]"%char]
  | JObj l =>
      "{"%char
        :: join_comma (map (fun kv => quote (fst kv) ++ ":"%char :: stringify_chars (snd kv)) l)
        ++ ["}"%char]
  end.

Definition stringify (v : json) : string := string_of_list_ascii (stringify_chars v).

Definition is_ws (c : ascii) : bool :=
  Ascii.eqb c " "%char || Ascii.eqb c "009"%char
  || Ascii.eqb c "010"%char || Ascii.eqb c "013"%char.

Fixpoint skip_ws (s : list ascii) : list ascii :=
  match s with
  | c :: r => if is_ws c then skip_ws r else s
  | [] => []
  end.

(** The rest of [s] after the literal [lit]. *)
Fixpoint expect (lit s : list ascii) : option (list ascii) :=
  match lit, s with
  | [], _ => Some s
  | a :: lit', b :: s' => if Ascii.eqb a b then expect lit' s' else None
  | _ :: _, [] => None
  end.

Definition simple_escape (e : ascii) : option ascii :=
  if Ascii.eqb e dquote then Some dquote
  else if Ascii.eqb e bslash then Some bslash
  else if Ascii.eqb e "/"%char then Some "/"%char
  else if Ascii.eqb e "b"%char then Some "008"%char
  else if Ascii.eqb e "f"%char then Some "012"%char
  else if Ascii.eqb e "n"%char then Some "010"%char
  else if Ascii.eqb e "r"%char then Some "013"%char
  else if Ascii.eqb e "t"%char then Some "009"%char
  else None.

Definition hex4 (a b c d : ascii) : option nat :=
  match hex_value a, hex_value b, hex_value c, hex_value d with
  | Some x, Some y, Some z, Some w => Some (((x * 16 + y) * 16 + z) * 16 + w)
  | _, _, _, _ => None
  end.

Definition prepend (c : ascii) (r : option (string * list ascii)) : option (string * list ascii) :=
  match r with
  | Some (str, rest) => Some (String c str, rest)
  | None => None
  end.

(** A string, after its opening quote, up to and including the closing one.
    Characters are the code units below 256: an escape that names a higher
    one is outside this model. *)
Fixpoint parse_string_body (s : list ascii) : option (string * list ascii) :=
  match s with
  | [] => None
  | c :: r =>
      if Ascii.eqb c dquote then Some (EmptyString, r)
      else if Ascii.eqb c bslash then
        match r with
        | [] => None
        | e :: r' =>
            if Ascii.eqb e "u"%char then
              match r' with
              | h1 :: h2 :: h3 :: h4 :: r'' =>
                  match hex4 h1 h2 h3 h4 with
                  | Some n =>
                      if (n <? 256)%nat
                      then prepend (ascii_of_nat n) (parse_string_body r'')
                      else None
                  | None => None
                  end
              | _ => None
              end
            else
              match simple_escape e with
              | Some c' => prepend c' (parse_string_body r')
              | None => None
              end
        end
      else if (nat_of_ascii c <? 32)%nat then None
      else prepend c (parse_string_body r)
  end.

Definition digit_of (c : ascii) : option (Decimal.uint -> Decimal.uint) :=
  if Ascii.eqb c "0"%char then Some Decimal.D0
  else if Ascii.eqb c "1"%char then Some Decimal.D1
  else if Ascii.eqb c "2"%char then Some Decimal.D2
  else if Ascii.eqb c "3"%char then Some Decimal.D3
  else if Ascii.eqb c "4"%char then Some Decimal.D4
  else if Ascii.eqb c "5"%char then Some Decimal.D5
  else if Ascii.eqb c "6"%char then Some Decimal.D6
  else if Ascii.eqb c "7"%char then Some Decimal.D7
  else if Ascii.eqb c "8"%char then Some Decimal.D8
  else if Ascii.eqb c "9"%char then Some Decimal.D9
  else None.

(** The longest run of digits at the head of [s]. *)
Fixpoint read_uint (s : list ascii) : Decimal.uint * list ascii :=
  match s with
  | [] => (Decimal.Nil, [])
  | c :: r =>
      match digit_of c with
      | Some D => let '(d, rest) := read_uint r in (D d, rest)
      | None => (Decimal.Nil, s)
      end
  end.

(** The grammar of the integer part: [0], or a digit that is not [0]
    followed by any digits. *)
Definition int_digits (d : Decimal.uint) : bool :=
  match d with
  | Decimal.Nil => false
  | Decimal.D0 Decimal.Nil => true
  | Decimal.D0 _ => false
  | _ => true
  end.

Definition char_digit (c : ascii) : option Number.digit :=
  if Ascii.eqb c "0"%char then Some Number.d0
  else if Ascii.eqb c "1"%char then Some Number.d1
  else if Ascii.eqb c "2"%char then Some Number.d2
  else if Ascii.eqb c "3"%char then Some Number.d3
  else if Ascii.eqb c "4"%char then Some Number.d4
  else if Ascii.eqb c "5"%char then Some Number.d5
  else if Ascii.eqb c "6"%char then Some Number.d6
  else if Ascii.eqb c "7"%char then Some Number.d7
  else if Ascii.eqb c "8"%char then Some Number.d8
  else if Ascii.eqb c "9"%char then Some Number.d9
  else None.

Fixpoint read_digits (s : list ascii) : list Number.digit * list ascii :=
  match s with
  | [] => ([], [])
  | c :: r =>
      match char_digit c with
      | Some d => let '(ds, rest) := read_digits r in (d :: ds, rest)
      | None => ([], s)
      end
  end.

(** The integer part: [0], or digits that do not start with [0]. *)
Definition int_part (ds : list Number.digit) : bool :=
  match ds with
  | [] => false
  | [Number.d0] => true
  | Number.d0 :: _ => false
  | _ => true
  end.

(** The fraction, if there is one: a point and at least one digit. *)
Definition read_fraction (s : list ascii) : option (list Number.digit * list ascii) :=
  match s with
  | c :: r =>
      if Ascii.eqb c "."%char then
        match read_digits r with
        | ([], _) => None
        | (ds, rest) => Some (ds, rest)
        end
      else Some ([], s)
  | [] => Some ([], [])
  end.

Definition read_exponent_digits (negative : bool) (s : list ascii) : option (Z * list ascii) :=
  match read_uint s with
  | (Decimal.Nil, _) => None
  | (d, rest) =>
      let e := Z.of_N (N.of_uint d) in
      Some (if negative then (- e)%Z else e, rest)
  end.

(** The exponent, if there is one: [e] or [E], a sign or none, and at least
    one digit. *)
Definition read_exponent (s : list ascii) : option (Z * list ascii) :=
  match s with
  | c :: r =>
      if Ascii.eqb c "e"%char || Ascii.eqb c "E"%char then
        match r with
        | c' :: r' =>
            if Ascii.eqb c' "+"%char then read_exponent_digits false r'
            else if Ascii.eqb c' "-"%char then read_exponent_digits true r'
            else read_exponent_digits false r
        | [] => None
        end
      else Some (0%Z, s)
  | [] => Some (0%Z, [])
  end.

(** A number, after its sign: the digits of the integer part and of the
    fraction, with the decimal point moved by the exponent. *)
Definition parse_number (negative : bool) (s : list ascii) : option (json * list ascii) :=
  let '(int, r1) := read_digits s in
  if int_part int then
    match read_fraction r1 with
    | Some (frac, r2) =>
        match read_exponent r2 with
        | Some (e, r3) =>
            Some (JNum (Number.of_digits negative (int ++ frac)
                                         (Z.of_nat (length int) + e)), r3)
        | None => None
        end
    | None => None
    end
  else None.

(** The property names that are array indices: the decimal representations
    of the integers below 2^32 - 1. An object enumerates them first, in
    ascending order, and its other properties after them in the order in
    which they were added. *)
Definition array_index (key : string) : option N :=
  match read_uint (chars key) with
  | (d, []) =>
      if int_digits d && (N.of_uint d <? 4294967295)%N then Some (N.of_uint d) else None
  | (_, _ :: _) => None
  end.

Fixpoint insert_index {V} (i : N) (k : string) (v : V) (m : list (string * V))
  : list (string * V) :=
  match m with
  | [] => [(k, v)]
  | (k', v') :: m' =>
      match array_index k' with
      | Some j => if (i <? j)%N then (k, v) :: m else (k', v') :: insert_index i k v m'
      | None => (k, v) :: m
      end
  end.

(** Setting a property: the value of a property that is there is replaced
    where the property stands; a new one takes its place in the
    enumeration order. *)
Definition object_set {V} (k : string) (v : V) (m : list (string * V)) : list (string * V) :=
  if JsMap.has k m then JsMap.set k v m
  else
    match array_index k with
    | Some i => insert_index i k v m
    | None => m ++ [(k, v)]
    end.

(** Recursive descent; [fuel] bounds the nesting of calls. A property that
    occurs twice in an object text is set twice, as [JSON.parse] does. *)
Fixpoint parse_value (fuel : nat) (s : list ascii) {struct fuel} : option (json * list ascii) :=
  match fuel with
  | O => None
  | S fuel =>
      match skip_ws s with
      | [] => None
      | c :: r =>
          if Ascii.eqb c "n"%char then
            match expect (chars "ull") r with Some r' => Some (JNull, r') | None => None end
          else if Ascii.eqb c "t"%char then
            match expect (chars "rue") r with Some r' => Some (JBool true, r') | None => None end
          else if Ascii.eqb c "f"%char then
            match expect (chars "alse") r with Some r' => Some (JBool false, r') | None => None end
          else if Ascii.eqb c dquote then
            match parse_string_body r with
            | Some (str, r') => Some (JStr str, r')
            | None => None
            end
          else if Ascii.eqb c "["%char then
            match skip_ws r with
            | [] => None
            | c' :: r' =>
                if Ascii.eqb c' "]"%char then Some (JArr [], r')
                else parse_elements fuel (c' :: r') []
            end
          else if Ascii.eqb c "{"%char then
            match skip_ws r with
            | [] => None
            | c' :: r' =>
                if Ascii.eqb c' "}"%char then Some (JObj [], r')
                else parse_members fuel (c' :: r') []
            end
          else if Ascii.eqb c "-"%char then parse_number true r
          else parse_number false (c :: r)
      end
  end
with parse_elements (fuel : nat) (s : list ascii) (acc : list json) {struct fuel}
  : option (json * list ascii) :=
  match fuel with
  | O => None
  | S fuel =>
      match parse_value fuel s with
      | None => None
      | Some (v, r) =>
          match skip_ws r with
          | [] => None
          | c :: r' =>
              if Ascii.eqb c ","%char then parse_elements fuel r' (acc ++ [v])
              else if Ascii.eqb c "]"%char then Some (JArr (acc ++ [v]), r')
              else None
          end
      end
  end
with parse_members (fuel : nat) (s : list ascii) (acc : list (string * json)) {struct fuel}
  : option (json * list ascii) :=
  match fuel with
  | O => None
  | S fuel =>
      match skip_ws s with
      | [] => None
      | q :: r =>
          if Ascii.eqb q dquote then
            match parse_string_body r with
            | None => None
            | Some (key, r1) =>
                match skip_ws r1 with
                | [] => None
                | c1 :: r2 =>
                    if Ascii.eqb c1 ":"%char then
                      match parse_value fuel r2 with
                      | None => None
                      | Some (v, r3) =>
                          let acc := object_set key v acc in
                          match skip_ws r3 with
                          | [] => None
                          | c3 :: r4 =>
                              if Ascii.eqb c3 ","%char then parse_members fuel r4 acc
                              else if Ascii.eqb c3 "}"%char then Some (JObj acc, r4)
                              else None
                          end
                      end
                    else None
                end
            end
          else None
      end
  end.

(** [JSON.parse(text)]: one value, with nothing but white space after it;
    [None] stands for the [SyntaxError]. *)
Definition parse (text : string) : option json :=
  let s := chars text in
  match parse_value (2 * length s) s with
  | Some (v, r) =>
      match skip_ws r with
      | [] => Some v
      | _ :: _ => None
      end
  | None => None
  end.

(** The order in which an object enumerates its properties: the array
    indices first, ascending, then the other names. *)
Fixpoint js_ordered (keys : list string) : Prop :=
  match keys with
  | [] => True
  | k :: ks =>
      match array_index k with
      | Some i =>
          List.Forall (fun k' => match array_index k' with
                                 | Some j => (i < j)%N
                                 | None => True
                                 end) ks
      | None => List.Forall (fun k' => array_index k' = None) ks
      end /\ js_ordered ks
  end.

(** The values that exist in JavaScript: the digits of a number are those
    of its shortest decimal, no object has two properties of the same name,
    and the properties of an object stand in enumeration order. *)
Fixpoint js_value (v : json) : Prop :=
  match v with
  | JNum x => Number.well_formed x = true
  | JArr l => fold_right (fun x acc => js_value x /\ acc) True l
  | JObj l =>
      List.NoDup (map fst l) /\ js_ordered (map fst l)
      /\ fold_right (fun kv acc => js_value (snd kv) /\ acc) True l
  | _ => True
  end.

(** What is left of a value in a JSON text: [NaN] and the infinite numbers
    are written [null], and the negative zero is written as the positive
    one. *)
Fixpoint image (v : json) : json :=
  match v with
  | JNum x =>
      match x with
      | Number.NaN | Number.Infinity _ => JNull
      | Number.Zero _ => JNum (Number.Zero false)
      | Number.Finite _ _ _ => v
      end
  | JArr l => JArr (map image l)
  | JObj l => JObj (map (fun kv => (fst kv, image (snd kv))) l)
  | _ => v
  end.

(** The values that a JSON text carries as they are. *)
Fixpoint carried (v : json) : bool :=
  match v with
  | JNum x =>
      match x with
      | Number.NaN | Number.Infinity _ | Number.Zero true => false
      | _ => true
      end
  | JArr l => forallb carried l
  | JObj l => forallb (fun kv => carried (snd kv)) l
  | _ => true
  end.

(** The calls that reading a value back takes, at most. *)
Fixpoint need (v : json) : nat :=
  match v with
  | JArr l => S (fold_right (fun x acc => S (need x + acc)) O l)
  | JObj l => S (fold_right (fun kv acc => S (need (snd kv) + acc)) O l)
  | _ => 1
  end.

(** For the proof that texts read back: what may follow a run of digits
    and what may follow a number, what a value starts with, the text of one
    property, and the statement itself. *)
Definition no_digit_ahead (rest : list ascii) : Prop :=
  match rest with
  | [] => True
  | c :: _ => digit_of c = None
  end.

Definition digits_end (rest : list ascii) : Prop :=
  match rest with
  | [] => True
  | c :: _ => char_digit c = None
  end.

(** The digits of a shortest decimal: the first and the last are not
    [0]. *)
Definition shortest (s : list Number.digit) : Prop :=
  exists d s',
    s = d :: s' /\ Number.is_d0 d = false /\ Number.is_d0 (List.last s' d) = false.

Definition number_ends (rest : list ascii) : Prop :=
  match rest with
  | [] => True
  | c :: _ =>
      char_digit c = None /\ Ascii.eqb c "."%char = false
      /\ Ascii.eqb c "e"%char = false /\ Ascii.eqb c "E"%char = false
  end.

Definition value_start (c : ascii) : bool :=
  Ascii.eqb c "n"%char || Ascii.eqb c "t"%char || Ascii.eqb c "f"%char
  || Ascii.eqb c dquote || Ascii.eqb c "["%char || Ascii.eqb c "{"%char
  || Ascii.eqb c "-"%char
  || match char_digit c with Some _ => true | None => false end.

Definition member_chars (kv : string * json) : list ascii :=
  quote (fst kv) ++ ":"%char :: stringify_chars (snd kv).

Definition reads_back (v : json) : Prop :=
  js_value v ->
  forall fuel rest,
    need v <= fuel -> number_ends rest ->
    parse_value fuel (stringify_chars v ++ rest) = Some (image v, rest).

End JSON.

(** ** The runtime context

    [runtime-context.ts] is not among the sources; only its unit test is.
    The assembler is written down from section 4.5 of the specification, with
    the names of the variables that the unit test reads. *)

Inductive DependencyType :=
| BuildDependency
| ServiceDependency
| TaskDependency
| TestDependency.

Definition type_name (t : DependencyType) : string :=
  match t with
  | BuildDependency => "build"
  | ServiceDependency => "service"
  | TaskDependency => "task"
  | TestDependency => "test"
  end.

Definition PrimitiveMap : Type := list (string * json).

Record RuntimeDependency := mkRuntimeDependency {
  rd_moduleName : string;
  rd_name : string;
  rd_outputs : PrimitiveMap;
  rd_type : DependencyType;
  rd_version : string
}.

Record RuntimeContext := mkRuntimeContext {
  envVars : gmap string json;
  rc_dependencies : list RuntimeDependency
}.

(** A module after configuration: with its outputs. *)
Record ConfiguredModule := mkConfiguredModule {
  cm_module : Module;
  cm_outputs : PrimitiveMap
}.

Record Service := mkService {
  service_name : string;
  service_module : ConfiguredModule
}.

Record Task := mkTask {
  task_name : string;
  task_module : ConfiguredModule
}.

Record Test := mkTest {
  test_name : string;
  test_module : ConfiguredModule
}.

Record DependencyEntities := mkDependencyEntities {
  dep_build : list ConfiguredModule;
  dep_service : list Service;
  dep_task : list Task;
  dep_test : list Test
}.

Record RuntimeContextParams := mkRuntimeContextParams {
  rcp_module : Module;
  rcp_variables : PrimitiveMap;
  rcp_dependencies : DependencyEntities;
  rcp_serviceStatuses : gmap string PrimitiveMap;
  rcp_taskResults : gmap string PrimitiveMap
}.

(** The number of dependency entities that are passed in. *)
Definition entity_count (deps : DependencyEntities) : nat :=
  length (dep_build deps) + length (dep_service deps)
  + length (dep_task deps) + length (dep_test deps).

(** Name mangling: upper case, and [_] for what is neither letter nor
    digit. *)
Definition mangle_char (c : ascii) : ascii :=
  let n := nat_of_ascii c in
  if (97 <=? n)%nat && (n <=? 122)%nat then ascii_of_nat (n - 32)
  else if ((65 <=? n)%nat && (n <=? 90)%nat) || ((48 <=? n)%nat && (n <=? 57)%nat) then c
  else "_"%char.

Fixpoint getEnvVarName (s : string) : string :=
  match s with
  | EmptyString => EmptyString
  | String c s' => String (mangle_char c) (getEnvVarName s')
  end.

Definition add_outputs (prefix : string) (outputs : PrimitiveMap) (env : gmap string json)
  : gmap string json :=
  fold_left (fun env kv => <[prefix +:+ getEnvVarName (fst kv) := snd kv]> env) outputs env.

(** Every entity once: the first of those that are the same entity. *)
Fixpoint unique {A} (same : A -> A -> bool) (l : list A) : list A :=
  match l with
  | [] => []
  | x :: l' => x :: List.filter (fun y => negb (same x y)) (unique same l')
  end.

Definition module_name_of (m : ConfiguredModule) : string := module_name (cm_module m).

Definition same_module_entity (m m' : ConfiguredModule) : bool :=
  String.eqb (module_name_of m) (module_name_of m').

Definition same_service (s s' : Service) : bool :=
  String.eqb (service_name s) (service_name s')
  && same_module_entity (service_module s) (service_module s').

Definition same_task (t t' : Task) : bool :=
  String.eqb (task_name t) (task_name t')
  && same_module_entity (task_module t) (task_module t').

Definition same_test (t t' : Test) : bool :=
  String.eqb (test_name t) (test_name t')
  && same_module_entity (test_module t) (test_module t').

(** The dependency list as the JavaScript value it is: an array of objects
    with the properties [moduleName], [name], [outputs], [type], [version]. *)
Definition dependency_value (d : RuntimeDependency) : json :=
  JObj [("moduleName", JStr (rd_moduleName d));
        ("name", JStr (rd_name d));
        ("outputs", JObj (rd_outputs d));
        ("type", JStr (type_name (rd_type d)));
        ("version", JStr (rd_version d))].

Definition dependencies_value (deps : list RuntimeDependency) : json :=
  JArr (map dependency_value deps).

(** A JavaScript value read as a dependency list: an array of objects that
    have the five properties of a dependency, in any order, and no
    other. *)
Definition dependency_type (name : string) : option DependencyType :=
  if String.eqb name "build" then Some BuildDependency
  else if String.eqb name "service" then Some ServiceDependency
  else if String.eqb name "task" then Some TaskDependency
  else if String.eqb name "test" then Some TestDependency
  else None.

Definition as_dependency (v : json) : option RuntimeDependency :=
  match v with
  | JObj properties =>
      match JsMap.get "moduleName" properties, JsMap.get "name" properties,
            JsMap.get "outputs" properties, JsMap.get "type" properties,
            JsMap.get "version" properties with
      | Some (JStr moduleName), Some (JStr name), Some (JObj outputs),
        Some (JStr type), Some (JStr version) =>
          match dependency_type type with
          | Some type =>
              if (length properties =? 5)%nat
              then Some (mkRuntimeDependency moduleName name outputs type version)
              else None
          | None => None
          end
      | _, _, _, _, _ => None
      end
  | _ => None
  end.

Definition as_dependencies (v : json) : option (list RuntimeDependency) :=
  match v with
  | JArr items => mapM as_dependency items
  | _ => None
  end.

Definition module_version_string (m : ConfiguredModule) : string :=
  versionString (module_version (cm_module m)).

(** Modelled from the spec: [prepareRuntimeContext] of [runtime-context.ts],
    which is missing from the sources. Section 4.5: one variable for the
    version of the module; one per project variable; one per output of every
    dependency module (the unit test expects them for the modules of service
    and of task dependencies as well as for build dependencies); one per
    runtime output of every service dependency, from the status of the
    service; one per output of every task dependency, from its last result;
    one holding the serialized dependency list; and the dependency list
    itself, one entry per unique entity passed in: the builds, the services,
    the tasks, the tests. The specification names no source of outputs for a
    test: its entry has none. *)
Definition prepareRuntimeContext (p : RuntimeContextParams) : RuntimeContext :=
  let deps := rcp_dependencies p in
  let builds := unique same_module_entity (dep_build deps) in
  let services := unique same_service (dep_service deps) in
  let tasks := unique same_task (dep_task deps) in
  let tests := unique same_test (dep_test deps) in
  let env : gmap string json :=
    {[ "GARDEN_VERSION" := JStr (versionString (module_version (rcp_module p))) ]} in
  let env := add_outputs "GARDEN_VARIABLES_" (rcp_variables p) env in
  let env :=
    fold_left (fun env m =>
                 add_outputs ("GARDEN_MODULE_" +:+ getEnvVarName (module_name_of m)
                              +:+ "__OUTPUT_") (cm_outputs m) env)
              (builds ++ map service_module services ++ map task_module tasks) env in
  let service_outputs (s : Service) : PrimitiveMap :=
    default [] (rcp_serviceStatuses p !! service_name s) in
  let task_outputs (t : Task) : PrimitiveMap :=
    default [] (rcp_taskResults p !! task_name t) in
  let env :=
    fold_left (fun env s =>
                 add_outputs ("GARDEN_SERVICE_" +:+ getEnvVarName (service_name s)
                              +:+ "__OUTPUT_") (service_outputs s) env)
              services env in
  let env :=
    fold_left (fun env t =>
                 add_outputs ("GARDEN_TASK_" +:+ getEnvVarName (task_name t)
                              +:+ "__OUTPUT_") (task_outputs t) env)
              tasks env in
  let dependencies :=
    map (fun m => mkRuntimeDependency (module_name_of m) (module_name_of m)
                    (cm_outputs m) BuildDependency (module_version_string m))
        builds
    ++ map (fun s => mkRuntimeDependency (module_name_of (service_module s))
                       (service_name s) (service_outputs s) ServiceDependency
                       (module_version_string (service_module s)))
           services
    ++ map (fun t => mkRuntimeDependency (module_name_of (task_module t))
                       (task_name t) (task_outputs t) TaskDependency
                       (module_version_string (task_module t)))
           tasks
    ++ map (fun t => mkRuntimeDependency (module_name_of (test_module t))
                       (test_name t) [] TestDependency
                       (module_version_string (test_module t)))
           tests in
  let env := <["GARDEN_DEPENDENCIES" := JStr (JSON.stringify (dependencies_value dependencies))]> env in
  {| envVars := env; rc_dependencies := dependencies |}.

(** *** The project of the unit test *)

Definition module_a : Module :=
  mkModule "module-a" None "test" (mkModuleVersion "v-module-a" ["a.txt"]) (mkBuildConfig []).

Definition module_b : ConfiguredModule :=
  mkConfiguredModule
    (mkModule "module-b" None "test" (mkModuleVersion "v-module-b" ["b.txt"]) (mkBuildConfig []))
    [("my-output", JStr "meep")].

Definition module_c : ConfiguredModule :=
  mkConfiguredModule
    (mkModule "module-c" None "test" (mkModuleVersion "v-module-c" ["c.txt"]) (mkBuildConfig []))
    [("module-output-c", JStr "moop")].

(** The service reports a port, a load of 0.25 and the count 1e21 among its
    outputs, under names of which two are array indices. *)
Definition test_params : RuntimeContextParams :=
  {| rcp_module := module_a;
     rcp_variables := [("my-var", JStr "foo")];
     rcp_dependencies :=
       mkDependencyEntities [module_b] [mkService "service-b" module_b]
                            [mkTask "task-c" module_c] [mkTest "unit" module_c];
     rcp_serviceStatuses :=
       {[ "service-b" := [("0", JBool true);
                          ("7", JNull);
                          ("my-output", JStr "moop");
                          ("port", JNum (Number.of_Z 8080));
                          ("load", JNum (Number.Finite false [Number.d2; Number.d5] 0));
                          ("count", JNum (Number.Finite false [Number.d1] 22))] ]};
     rcp_taskResults := {[ "task-c" := [("log", JStr "C:\logs\task-c.log")] ]} |}.

(** The same project when the service reports a ratio that is not a
    number. *)
Definition nan_params : RuntimeContextParams :=
  {| rcp_module := module_a;
     rcp_variables := [];
     rcp_dependencies := mkDependencyEntities [] [mkService "service-b" module_b] [] [];
     rcp_serviceStatuses := {[ "service-b" := [("ratio", JNum Number.NaN)] ]};
     rcp_taskResults := ∅ |}.

(** *** A set of named numbers, and texts with quotes *)

Definition kv_ops : list (KeyedSet.Op (string * nat)) :=
  [KeyedSet.Add ("a", 1); KeyedSet.Add ("b", 2); KeyedSet.Add ("a", 3);
   KeyedSet.Delete ("b", 0); KeyedSet.Add ("c", 4); KeyedSet.Add ("b", 5)].

Definition quoted (s : string) : string :=
  String JSON.dquote (s +:+ String JSON.dquote EmptyString).

(** *** A backend whose build directory cannot be written, and one whose
    status cannot be asked for *)

Definition readonly_garden : @Garden DemoWorld :=
  {| getActionRouter := getActionRouter demo_garden;
     getConfigGraph := getConfigGraph demo_garden;
     buildDir :=
       {| syncFromSrc := fun m w => (inl (mkExn ForeignError "EROFS: read-only file system"), w);
          syncDependencyProducts := syncDependencyProducts demo_buildDir |} |}.

Definition offline_garden : @Garden DemoWorld :=
  {| getActionRouter := fun w =>
       (inr {| getBuildStatus := fun m w => (inl (mkExn ForeignError "connection refused"), w);
               build := build demo_actions;
               getModuleActionHandler := getModuleActionHandler demo_actions |}, w);
     getConfigGraph := getConfigGraph demo_garden;
     buildDir := demo_buildDir |}.

(** What makes a module configuration the one it is, apart from its name:
    everything but [spec], [outputs], [name] and the names of its services,
    tasks and tests. *)
Definition same_module (c c' : ModuleConfig) : Prop :=
  cfg_type c' = cfg_type c /\
  cfg_path c' = cfg_path c /\
  cfg_configPath c' = cfg_configPath c /\
  cfg_plugin c' = cfg_plugin c /\
  cfg_repositoryUrl c' = cfg_repositoryUrl c /\
  cfg_build c' = cfg_build c.

(** A module of a plugin, with its sources in a remote repository. *)
Definition remote_config : ModuleConfig :=
  {| cfg_type := "container"; cfg_name := "api"; cfg_path := "/project/api";
     cfg_configPath := None; cfg_plugin := Some "templates";
     cfg_repositoryUrl := Some "https://example.com/api.git#main";
     cfg_spec := JObj []; cfg_outputs := JObj [];
     cfg_build := None;
     cfg_serviceConfigs := [mkEntityConfig "api" (JObj [])];
     cfg_taskConfigs := [mkEntityConfig "migrate" (JObj [])];
     cfg_testConfigs := [] |}.

(** ** The [task-result] command

    [GetTaskResultCommand.action]: look the task up, ask the backend for its
    latest result, list the artifacts when there is one, print. *)

Record RunTaskResult := mkRunTaskResult {
  rtr_moduleName : string;
  rtr_taskName : string;
  rtr_command : list string;
  rtr_version : string;
  rtr_success : bool;
  rtr_startedAt : nat;
  rtr_completedAt : nat;
  rtr_log : string;
  rtr_outputs : PrimitiveMap
}.

(** [interface Result extends RunTaskResult { artifacts: string[] }] *)
Record TaskResultWithArtifacts := mkTaskResultWithArtifacts {
  tr_result : RunTaskResult;
  tr_artifacts : list string
}.

Inductive CommandEvent :=
| CmdGetConfigGraph
| CmdGetTask (name : string) (r : Eff.Outcome Task)
| CmdGetActionRouter
| CmdGetTaskVersion (task : Task) (r : Eff.Outcome ModuleVersion)
| CmdGetTaskResult (task : Task) (taskVersion : ModuleVersion)
                   (r : Eff.Outcome (option RunTaskResult))
| CmdGetArtifactFileList (key artifactsPath : string) (r : Eff.Outcome (list string))
| CmdPrintHeader (title emoji : string)
| CmdLogInfo (msg : string)
| CmdLogData (data : TaskResultWithArtifacts).

Section GetTaskResult.

Context {W : Type}.

Record TaskGraph := mkTaskGraph {
  getTask : string -> Eff.Ext W Task
}.

Record TaskRouter := mkTaskRouter {
  getTaskResult : Task -> ModuleVersion -> Eff.Ext W (option RunTaskResult)
}.

Record CommandGarden := mkCommandGarden {
  cmd_getConfigGraph : Eff.Ext W TaskGraph;
  cmd_getActionRouter : Eff.Ext W TaskRouter;
  artifactsPath : string
}.

(** [getTaskVersion] of [tasks/task], [getArtifactFileList] and
    [getArtifactKey] of [util/artifacts], [chalk.cyan]. *)
Variable getTaskVersion : CommandGarden -> TaskGraph -> Task -> Eff.Ext W ModuleVersion.
Variable getArtifactFileList : string -> string -> Eff.Ext W (list string).
Variable getArtifactKey : string -> string -> string -> string.
Variable cyan : string -> string.

Local Open Scope eff_scope.

Definition getTaskResultAction (garden : CommandGarden) (args_name : string)
  : Eff.M W CommandEvent (option TaskResultWithArtifacts) :=
  let taskName := args_name in
  graph <- Eff.call (fun _ => CmdGetConfigGraph) (cmd_getConfigGraph garden) ;;
  task <- Eff.call (CmdGetTask taskName) (getTask graph taskName) ;;
  actions <- Eff.call (fun _ => CmdGetActionRouter) (cmd_getActionRouter garden) ;;
  taskVersion <- Eff.call (CmdGetTaskVersion task) (getTaskVersion garden graph task) ;;
  taskResult <- Eff.call (CmdGetTaskResult task taskVersion)
                         (getTaskResult actions task taskVersion) ;;
  result <-
    match taskResult with
    | Some taskResult =>
        let key := getArtifactKey "task" (task_name task)
                                  (module_version_string (task_module task)) in
        artifacts <- Eff.call (CmdGetArtifactFileList key (artifactsPath garden))
                              (getArtifactFileList key (artifactsPath garden)) ;;
        Eff.ret (Some (mkTaskResultWithArtifacts taskResult artifacts))
    | None => Eff.ret None
    end ;;
  Eff.emit (CmdPrintHeader ("Task result for task " +:+ cyan taskName) "rocket") ;;;
  match result with
  | None => Eff.emit (CmdLogInfo ("Could not find results for task '" +:+ taskName +:+ "'"))
  | Some data => Eff.emit (CmdLogData data)
  end ;;;
  Eff.ret result.

End GetTaskResult.

(** ** [plugins/terraform/terraform.ts] *)

Record TerraformProviderConfig := mkTerraformProviderConfig {
  tf_name : string;
  tf_autoApply : bool;
  tf_initRoot : option string;
  tf_variables : PrimitiveMap;
  tf_version : string
}.

Inductive FsEvent :=
| FsPathExists (path : string) (r : Eff.Outcome bool).

Section Terraform.

Context {W : Type}.

(** [join] of [path], on two segments, and [pathExists] of [fs-extra]. *)
Variable join : string -> string -> string.
Variable pathExists : string -> Eff.Ext W bool.

Local Open Scope eff_scope.

Definition configureProvider (config : TerraformProviderConfig) (projectRoot : string)
  : Eff.M W FsEvent TerraformProviderConfig :=
  (* Make sure the configured root path exists, if it is set *)
  match truthy (tf_initRoot config) with
  | Some initRoot =>
      let absRoot := join projectRoot initRoot in
      exists_ <- Eff.call (FsPathExists absRoot) (pathExists absRoot) ;;
      if negb exists_ then
        Eff.throw (mkExn ConfigurationError
                     ("Terraform: configured initRoot config directory '" +:+ initRoot
                      +:+ "' does not exist"))
      else Eff.ret tt
  | None => Eff.ret tt
  end ;;;
  Eff.ret config.

End Terraform.

(** ** [commands/dev.tsx]: reloading the project *)

Inductive DevEvent :=
| DevDisable (message : string)
| DevGetManager
| DevManagerReload (r : Eff.Outcome unit)
| DevFlashSuccess (message : string)
| DevLogError (message : string)
| DevLogErrorObject (error : Exn)
| DevFlashError (message : string)
| DevEnable.

(** [try { m } finally { f }] *)
Definition try_finally {W E A} (m : Eff.M W E A) (f : Eff.M W E unit) : Eff.M W E A :=
  fun s =>
    match m s with
    | (r, s') =>
        match f s' with
        | (inr _, s'') => (r, s'')
        | (inl e, s'') => (inl e, s'')
        end
    end.

Section DevCommand.

Context {W : Type}.

Record Manager := mkManager {
  manager_reload : Eff.Ext W unit
}.

(** [chalk.white], and how an error reads inside a template string. *)
Variable white : string -> string.
Variable showError : Exn -> string.

Local Open Scope eff_scope.

(** [this.commandLine?.f()]: nothing happens without a command line. *)
Definition withCommandLine (commandLine : bool) (ev : DevEvent) : Eff.M W DevEvent unit :=
  if commandLine then Eff.emit ev else Eff.ret tt.

Definition reload (commandLine : bool) (getManager : Eff.Ext W Manager)
  : Eff.M W DevEvent unit :=
  withCommandLine commandLine (DevDisable "🌸  Loading Garden project...") ;;;
  manager <- Eff.call (fun _ => DevGetManager) getManager ;;
  try_finally
    (Eff.try_catch
       (Eff.call DevManagerReload (manager_reload manager) ;;;
        withCommandLine commandLine (DevFlashSuccess "Project successfully loaded!"))
       (fun error =>
          Eff.emit (DevLogError ("Failed loading the project: " +:+ showError error)) ;;;
          Eff.emit (DevLogErrorObject error) ;;;
          withCommandLine commandLine
            (DevFlashError ("Failed loading the project. See above logs for details. Type "
                            +:+ white "reload" +:+ " to try again."))))
    (withCommandLine commandLine DevEnable).

End DevCommand.

(** ** Modules as the [augmentGraph] handlers of plugins see them *)

Record GraphModule := mkGraphModule {
  gm_name : string;
  gm_path : string;
  gm_compatibleTypes : list string;
  gm_include : option (list string);
  gm_spec : json
}.

(** [array.includes(s)] *)
Definition includes (s : string) (l : list string) : bool := existsb (String.eqb s) l.

(** A number inside a template string: its decimal digits. *)
Definition show_nat (n : nat) : string :=
  string_of_list_ascii (JSON.uint_chars (Nat.to_uint n)).

Definition newline : string := String "010"%char EmptyString.

(** ** [plugins/hadolint/hadolint.ts] *)

Record HadolintModuleSpec := mkHadolintModuleSpec {
  hs_type : string;
  hs_name : string;
  hs_description : string;
  hs_path : string;
  hs_dockerfilePath : string
}.

(** [Module<HadolintModuleSpec>], as [testModule] uses it. *)
Record HadolintModule := mkHadolintModule {
  hm_name : string;
  hm_path : string;
  hm_dockerfilePath : string;
  hm_version : ModuleVersion
}.

(** One finding in the output of [hadolint --format json], at the type the
    code uses it at; [message] and [column] may be missing. *)
Record Finding := mkFinding {
  f_level : string;
  f_code : string;
  f_message : option string;
  f_line : nat;
  f_column : option nat
}.

Record TestResult := mkTestResult {
  testName : string;
  moduleName : string;
  command : list string;
  test_version : string;
  success : bool;
  startedAt : nat;
  completedAt : nat;
  test_log : string
}.

Inductive HadolintEvent :=
| HlHasDockerfile (m : GraphModule) (r : Eff.Outcome bool)
| HlNow (r : Eff.Outcome nat)
| HlReadFile (path : string) (r : Eff.Outcome string)
| HlPathExists (path : string) (r : Eff.Outcome bool)
| HlExec (args : list string) (r : Eff.Outcome string).

(** [padEnd] and [padStart] of lodash, with a padding of one character. *)
Fixpoint padding (n : nat) (c : ascii) : string :=
  match n with
  | O => EmptyString
  | S n => String c (padding n c)
  end.

Definition padEnd (s : string) (len : nat) (c : ascii) : string :=
  s +:+ padding (len - String.length s) c.

Definition padStart (s : string) (len : nat) (c : ascii) : string :=
  padding (len - String.length s) c +:+ s.

(** [array.join(sep)] *)
Fixpoint join_with (sep : string) (l : list string) : string :=
  match l with
  | [] => EmptyString
  | [x] => x
  | x :: l' => x +:+ sep +:+ join_with sep l'
  end.

(** [dedent] of the package of that name, on the text of a template with
    its values put in. (The literal pieces of the one template that is
    embedded below have no backslash, so what [dedent] does to the pieces
    before it puts the values in changes nothing.) The text is split into
    lines; the least indentation of the lines that have white space and then
    something else is taken off every line that starts with a space; the
    whole is trimmed; and at last every backslash followed by [n] becomes a
    line break, also where it came in with a value. *)
Definition is_space (c : ascii) : bool :=
  let n := nat_of_ascii c in
  ((9 <=? n)%nat && (n <=? 13)%nat) || (n =? 32)%nat || (n =? 160)%nat.

(** [text.split(sep)], for a separator of one character *)
Fixpoint split_on (sep : ascii) (text : string) : list string :=
  match text with
  | EmptyString => [EmptyString]
  | String c text' =>
      if Ascii.eqb c sep then EmptyString :: split_on sep text'
      else match split_on sep text' with
           | line :: lines => String c line :: lines
           | [] => [String c EmptyString]
           end
  end.

(** The length of the white space that [/^(\s+)\S+/] finds in front of a
    line, if it matches. *)
Fixpoint leading_space (l : string) : nat * string :=
  match l with
  | String c l' =>
      if is_space c then let '(n, rest) := leading_space l' in (S n, rest) else (O, l)
  | EmptyString => (O, EmptyString)
  end.

Definition indentation (l : string) : option nat :=
  match leading_space l with
  | (S n, String _ _) => Some (S n)
  | _ => None
  end.

Definition mindent (lines : list string) : option nat :=
  fold_left (fun mindent l =>
               match indentation l with
               | Some indent =>
                   match mindent with
                   | None | Some O => Some indent
                   | Some m => Some (Nat.min m indent)
                   end
               | None => mindent
               end)
            lines None.

(** [l.slice(n)] *)
Fixpoint slice_from (n : nat) (l : string) : string :=
  match n, l with
  | S n', String _ l' => slice_from n' l'
  | _, _ => l
  end.

Fixpoint trim_start (s : string) : string :=
  match s with
  | String c s' => if is_space c then trim_start s' else s
  | EmptyString => EmptyString
  end.

Fixpoint trim_end (s : string) : string :=
  match s with
  | String c s' =>
      match trim_end s' with
      | EmptyString => if is_space c then EmptyString else String c EmptyString
      | kept => String c kept
      end
  | EmptyString => EmptyString
  end.

Definition trim (s : string) : string := trim_end (trim_start s).

(** [s.replace(/\\n/g, newline)] *)
Fixpoint unescape_newlines (s : string) : string :=
  match s with
  | String "\"%char (String "n"%char s') => String "010"%char (unescape_newlines s')
  | String c s' => String c (unescape_newlines s')
  | EmptyString => EmptyString
  end.

Definition dedent (text : string) : string :=
  let lines := split_on "010"%char text in
  let result :=
    match mindent lines with
    | Some m =>
        join_with newline
          (map (fun l => match l with
                         | String " "%char _ => slice_from m l
                         | _ => l
                         end) lines)
    | None => text
    end in
  unescape_newlines (trim result).

(** [Bluebird.filter] with an asynchronous predicate: the predicate is
    started on every element, in the order of the list, and the elements
    are filtered once all have answered. A call that fails makes the whole
    fail, but does not keep the later ones from being started; the calls
    are taken to act on the world one after the other, and of several
    failures the first in the list is the one reported. *)
Fixpoint filter_async {W E A} (p : A -> Eff.M W E bool) (l : list A) : Eff.M W E (list A) :=
  match l with
  | [] => Eff.ret []
  | x :: l' =>
      fun s =>
        let '(keep, s1) := p x s in
        let '(rest, s2) := filter_async p l' s1 in
        (match keep, rest with
         | inl e, _ => inl e
         | inr _, inl e => inl e
         | inr keep, inr rest => inr (if keep then x :: rest else rest)
         end, s2)
  end.

Section Hadolint.

Context {W : Type}.

(** [hasDockerfile] and [getDockerfileSourcePath] of the container helpers,
    [join] and [relative] of [path], [readFile] and [pathExists] of
    [fs-extra], the [hadolint] binary (its standard output), the clock,
    [splitLines], the styles of chalk that are used ([gray] is also given
    [undefined]), [STATIC_DIR], and [JSON.parse] at the type of the
    findings. *)
Variable hasDockerfile : GraphModule -> Eff.Ext W bool.
Variable getDockerfileSourcePath : GraphModule -> string.
Variable join : list string -> string.
Variable relative : string -> string -> string.
Variable readFile : string -> Eff.Ext W string.
Variable pathExists : string -> Eff.Ext W bool.
Variable hadolint_exec : list string -> Eff.Ext W string.
Variable now : Eff.Ext W nat.
Variable splitLines : string -> list string.
Variable bold_red : string -> string.
Variable bold_yellow : string -> string.
Variable bold : string -> string.
Variable gray : option string -> string.
Variable STATIC_DIR : string.
Variable parseFindings : string -> Eff.Outcome (list Finding).

Definition defaultConfigPath : string := join [STATIC_DIR; "hadolint"; "default.hadolint.yaml"].
Definition configFilename : string := ".hadolint.yaml".

Local Open Scope eff_scope.

(** The [augmentGraph] handler; [None] is the answer [{}]. *)
Definition hadolint_augmentGraph (autoInject : bool) (modules : list GraphModule)
  : Eff.M W HadolintEvent (option (list HadolintModuleSpec)) :=
  if negb autoInject then Eff.ret None
  else
    kept <- filter_async
              (fun module =>
                 if includes "container" (gm_compatibleTypes module)
                 then Eff.call (HlHasDockerfile module) (hasDockerfile module)
                 else Eff.ret false)
              modules ;;
    Eff.ret (Some (map (fun module =>
                          {| hs_type := "hadolint";
                             hs_name := "hadolint-" +:+ gm_name module;
                             hs_description :=
                               "hadolint test for module '" +:+ gm_name module
                               +:+ "' (auto-generated)";
                             hs_path := gm_path module;
                             hs_dockerfilePath :=
                               relative (gm_path module) (getDockerfileSourcePath module) |})
                       kept)).

(** The text for one finding: code and message, the line of the Dockerfile
    behind its number, and a caret under the column. The template has its
    three lines indented by twenty spaces, as the source has them, and ends
    with a line of eighteen. *)
Definition formatFinding (dockerfileLines : list string) (msg : Finding) : string :=
  let color := if String.eqb (f_level msg) "error" then bold_red else bold_yellow in
  let rawLine :=
    match f_line msg with
    | O => None
    | S n => nth_error dockerfileLines n
    end in
  let linePrefix := padEnd (show_nat (f_line msg) +:+ ":") 5 " "%char in
  let columnCursorPosition :=
    match f_column msg with
    | Some (S c) => S c
    | _ => 1
    end + String.length linePrefix in
  dedent
    (newline +:+ padding 20 " "%char
     +:+ color (f_code msg +:+ ":") +:+ " " +:+ bold (default "" (truthy (f_message msg)))
     +:+ newline +:+ padding 20 " "%char
     +:+ linePrefix +:+ gray rawLine
     +:+ newline +:+ padding 20 " "%char
     +:+ gray (Some (padStart "^" columnCursorPosition "-"%char))
     +:+ newline +:+ padding 18 " "%char).

Definition testModule (projectRoot threshold : string) (module : HadolintModule)
           (testConfig_name : string) : Eff.M W HadolintEvent TestResult :=
  let dockerfilePath := join [hm_path module; hm_dockerfilePath module] in
  startedAt <- Eff.call HlNow now ;;
  dockerfile <-
    Eff.try_catch
      (Eff.call (HlReadFile dockerfilePath) (readFile dockerfilePath))
      (fun _ =>
         Eff.throw (mkExn ConfigurationError
                      ("hadolint: Could not find Dockerfile at " +:+ hm_dockerfilePath module))) ;;
  let moduleConfigPath := join [hm_path module; configFilename] in
  let projectConfigPath := join [projectRoot; configFilename] in
  configPath <-
    (inModule <- Eff.call (HlPathExists moduleConfigPath) (pathExists moduleConfigPath) ;;
     if inModule then Eff.ret moduleConfigPath
     else
       inProject <- Eff.call (HlPathExists projectConfigPath) (pathExists projectConfigPath) ;;
       if inProject then Eff.ret projectConfigPath
       else Eff.ret defaultConfigPath) ;;
  let args := ["--config"; configPath; "--format"; "json"; dockerfilePath] in
  stdout <- Eff.call (HlExec args) (hadolint_exec args) ;;
  parsed <- (fun s => (parseFindings stdout, s)) ;;
  let errors := List.filter (fun p => String.eqb (f_level p) "error") parsed in
  let warnings := List.filter (fun p => String.eqb (f_level p) "warning") parsed in
  let success :=
    if (0 <? length warnings)%nat && String.eqb threshold "warning" then false
    else if (0 <? length errors)%nat && negb (String.eqb threshold "none") then false
    else true in
  let formattedResult :=
    if (0 <? length parsed)%nat then
      let dockerfileLines := splitLines dockerfile in
      "hadolint reported " +:+ show_nat (length errors) +:+ " error(s) and "
      +:+ show_nat (length warnings) +:+ " warning(s):" +:+ newline +:+ newline
      +:+ join_with newline (map (formatFinding dockerfileLines) parsed)
    else "OK" in
  completedAt <- Eff.call HlNow now ;;
  Eff.ret {| testName := testConfig_name;
             moduleName := hm_name module;
             command := "hadolint" :: args;
             test_version := versionString (hm_version module);
             success := success;
             startedAt := startedAt;
             completedAt := completedAt;
             test_log := formattedResult |}.

End Hadolint.

(** ** The [conftest-kubernetes] plugin *)

Record ConftestModuleSpec := mkConftestModuleSpec {
  ct_type : string;
  ct_name : string;
  ct_description : string;
  ct_path : string;
  ct_sourceModule : string;
  ct_policyPath : string;
  ct_namespace : option string;
  ct_combine : bool;
  ct_runtimeDependencies : option (list string);
  ct_files : option (list string)
}.

(** [uniq] of lodash: the first occurrence of every element. *)
Fixpoint uniq (l : list string) : list string :=
  match l with
  | [] => []
  | x :: l' => x :: List.filter (fun y => negb (String.eqb x y)) (uniq l')
  end.

Section Conftest.

(** [slash], [relative] and [resolve] of [path], and
    [collectTemplateReferences] of [template-string]. *)
Variable slash : string -> string.
Variable relative : string -> string -> string.
Variable resolve : string -> string -> string.
Variable collectTemplateReferences : json -> list (list string).

(** [while (allModuleNames.has(name)) { name = `${baseName}-${i++}` }]:
    the name the loop ends with; [None] when [fuel] rounds do not end it. *)
Fixpoint freeName (fuel : nat) (allModuleNames : gset string) (baseName name : string)
         (i : nat) : option string :=
  match fuel with
  | O => None
  | S fuel =>
      if decide (name ∈ allModuleNames)
      then freeName fuel allModuleNames baseName (baseName +:+ "-" +:+ show_nat i) (S i)
      else Some name
  end.

(** The module generated for [module], once its name is chosen. *)
Definition conftestModule (projectRoot policyPath : string) (namespace : option string)
           (module : GraphModule) (name : string) : ConftestModuleSpec :=
  let policyPath := slash (relative (gm_path module) (resolve projectRoot policyPath)) in
  let isHelmModule := includes "helm" (gm_compatibleTypes module) in
  if isHelmModule then
    let runtimeDependencies :=
      uniq (omap (fun ref => truthy (nth_error ref 2))
                 (List.filter (fun ref =>
                                 match nth_error ref 0, truthy (nth_error ref 2) with
                                 | Some r0, Some _ => String.eqb r0 "runtime"
                                 | _, _ => false
                                 end)
                              (collectTemplateReferences (gm_spec module)))) in
    {| ct_type := "conftest-helm";
       ct_name := name;
       ct_description :=
         "conftest test for module '" +:+ gm_name module
         +:+ "' (auto-generated by conftest-kubernetes)";
       ct_path := gm_path module;
       ct_sourceModule := gm_name module;
       ct_policyPath := policyPath;
       ct_namespace := namespace;
       ct_combine := false;
       ct_runtimeDependencies := Some runtimeDependencies;
       ct_files := None |}
  else
    {| ct_type := "conftest";
       ct_name := name;
       ct_description :=
         "conftest test for module '" +:+ gm_name module
         +:+ "' (auto-generated by conftest-kubernetes)";
       ct_path := gm_path module;
       ct_sourceModule := gm_name module;
       ct_policyPath := policyPath;
       ct_namespace := namespace;
       ct_combine := false;
       ct_runtimeDependencies := None;
       ct_files :=
         Some (default ["*.yaml"; "**/*.yaml"; "*.yml"; "**/*.yml"] (gm_include module)) |}.

(** The callback of [.map]: it runs once per module, in order, and shares
    the set of names that are taken. *)
Fixpoint addConftestModules (projectRoot policyPath : string) (namespace : option string)
         (allModuleNames : gset string) (modules : list GraphModule)
  : option (list ConftestModuleSpec) :=
  match modules with
  | [] => Some []
  | module :: rest =>
      let baseName := "conftest-" +:+ gm_name module in
      match freeName (S (size allModuleNames)) allModuleNames baseName baseName 2 with
      | None => None
      | Some name =>
          let allModuleNames := {[ name ]} ∪ allModuleNames in
          match addConftestModules projectRoot policyPath namespace allModuleNames rest with
          | None => None
          | Some specs =>
              Some (conftestModule projectRoot policyPath namespace module name :: specs)
          end
      end
  end.

Definition conftest_augmentGraph (projectRoot policyPath : string) (namespace : option string)
           (modules : list GraphModule) : option (list ConftestModuleSpec) :=
  let allModuleNames : gset string := list_to_set (map gm_name modules) in
  addConftestModules projectRoot policyPath namespace allModuleNames
    (List.filter (fun module =>
                    (* Pick all kubernetes or helm modules *)
                    includes "helm" (gm_compatibleTypes module)
                    || includes "kubernetes" (gm_compatibleTypes module))
                 modules).

End Conftest.

(** *** Concrete collaborators for the commands and the provider *)

Definition migrate_task : Task := mkTask "migrate" module_c.

Definition migrate_result : RunTaskResult :=
  mkRunTaskResult "module-c" "migrate" ["sh"; "-c"; "migrate"] "v-module-c" true 10 12
                  "done" [].

(** The world: the results the backend has stored, by task name. *)
Definition demo_commandGarden : @CommandGarden (list (string * RunTaskResult)) :=
  {| cmd_getConfigGraph := fun w =>
       (inr {| getTask := fun name w =>
                 if String.eqb name "migrate" then (inr migrate_task, w)
                 else (inl (mkExn ForeignError ("Could not find task " +:+ name)), w) |}, w);
     cmd_getActionRouter := fun w =>
       (inr {| getTaskResult := fun task version w =>
                 (inr (JsMap.get (task_name task) w), w) |}, w);
     artifactsPath := "/project/.garden/artifacts" |}.

Definition demo_getTaskResultAction :=
  getTaskResultAction
    (fun _ _ task w => (inr (module_version (cm_module (task_module task))), w))
    (fun key path (w : list (string * RunTaskResult)) => (inr [path +:+ "/" +:+ key +:+ ".log"], w))
    (fun kind name version => kind +:+ "." +:+ name +:+ "." +:+ version)
    (fun s => s)
    demo_commandGarden.

(** The world of the provider: the directories that exist. *)
Definition demo_pathExists (path : string) : Eff.Ext (list string) bool :=
  fun w => (inr (existsb (String.eqb path) w), w).

Definition demo_join (a b : string) : string := a +:+ "/" +:+ b.

Definition demo_terraform_config (initRoot : option string) : TerraformProviderConfig :=
  mkTerraformProviderConfig "terraform" false initRoot [] "0.12.7".

(** *** A project for the plugins that add modules *)

(** The [i]-th name the loop of [conftest-kubernetes] tries after
    [baseName] itself. *)
Definition numbered (baseName : string) (i : nat) : string :=
  baseName +:+ "-" +:+ show_nat i.

(** The modules [conftest-kubernetes] adds a module for. *)
Definition conftestCompatible (module : GraphModule) : bool :=
  includes "helm" (gm_compatibleTypes module)
  || includes "kubernetes" (gm_compatibleTypes module).

Definition api_module : GraphModule :=
  {| gm_name := "api"; gm_path := "/project/api";
     gm_compatibleTypes := ["helm"]; gm_include := None;
     gm_spec := JObj [("chart", JStr "api")] |}.

Definition shadow_module : GraphModule :=
  {| gm_name := "conftest-api"; gm_path := "/project/manifests";
     gm_compatibleTypes := ["kubernetes"]; gm_include := Some ["deploy.yaml"];
     gm_spec := JObj [] |}.

Definition image_module : GraphModule :=
  {| gm_name := "image"; gm_path := "/project/image";
     gm_compatibleTypes := ["container"]; gm_include := None;
     gm_spec := JObj [] |}.

Definition plugin_modules : list GraphModule := [api_module; shadow_module; image_module].

Definition demo_conftest_augmentGraph : option (list ConftestModuleSpec) :=
  conftest_augmentGraph (fun p => p) (fun _ to => to)
    (fun root p => root +:+ "/" +:+ p)
    (fun _ => [["runtime"; "services"; "db"; "outputs"]])
    "/project" "policy" None plugin_modules.

Definition demo_conftest_specs : list ConftestModuleSpec :=
  Eval vm_compute in default [] demo_conftest_augmentGraph.

(** *** A project with a Dockerfile to lint *)

(** The modules that are compatible with [container], each with what
    [hasDockerfile] answered for it, and those the answer was yes for. *)
Definition containerModules (modules : list GraphModule) : list GraphModule :=
  List.filter (fun module => includes "container" (gm_compatibleTypes module)) modules.

Definition withDockerfile (probes : list (GraphModule * Eff.Outcome bool)) : list GraphModule :=
  map fst (List.filter (fun probe =>
                          match snd probe with
                          | inr true => true
                          | _ => false
                          end) probes).

Record LintWorld := mkLintWorld {
  lint_files : list (string * string);
  lint_clock : nat
}.

Fixpoint file_content (path : string) (files : list (string * string)) : option string :=
  match files with
  | [] => None
  | (p, content) :: files' =>
      if String.eqb p path then Some content else file_content path files'
  end.

Definition lint_readFile (path : string) : Eff.Ext LintWorld string :=
  fun w =>
    match file_content path (lint_files w) with
    | Some content => (inr content, w)
    | None => (inl (mkExn ForeignError ("ENOENT: no such file or directory, open '"
                                        +:+ path +:+ "'")), w)
    end.

Definition lint_pathExists (path : string) : Eff.Ext LintWorld bool :=
  fun w => (inr (bool_decide (is_Some (file_content path (lint_files w)))), w).

Definition lint_now : Eff.Ext LintWorld nat :=
  fun w => (inr (lint_clock w), mkLintWorld (lint_files w) (S (lint_clock w))).

Definition lint_join (parts : list string) : string := join_with "/" parts.

Definition lint_hasDockerfile (module : GraphModule) : Eff.Ext LintWorld bool :=
  lint_pathExists (lint_join [gm_path module; "Dockerfile"]).

(** The linter of the project finds an image without a tag in every
    Dockerfile. *)
Definition lint_exec (args : list string) : Eff.Ext LintWorld string :=
  fun w =>
    (inr (JSON.stringify
            (JArr [JObj [("line", JNum (Number.of_Z 1)); ("code", JStr "DL3006");
                         ("message", JStr "Always tag the version of an image explicitly");
                         ("column", JNum (Number.of_Z 1));
                         ("file", JStr (List.last args EmptyString));
                         ("level", JStr "warning")]])), w).

Fixpoint json_field (key : string) (fields : list (string * json)) : option json :=
  match fields with
  | [] => None
  | (k, v) :: fields' => if String.eqb k key then Some v else json_field key fields'
  end.

Definition decodeFinding (v : json) : option Finding :=
  match v with
  | JObj fields =>
      match json_field "level" fields, json_field "code" fields, json_field "line" fields with
      | Some (JStr level), Some (JStr code), Some (JNum line) =>
          Some {| f_level := level;
                  f_code := code;
                  f_message :=
                    match json_field "message" fields with
                    | Some (JStr message) => Some message
                    | _ => None
                    end;
                  f_line := Z.to_nat (default 0%Z (Number.to_Z line));
                  f_column :=
                    match json_field "column" fields with
                    | Some (JNum column) => Z.to_nat <$> Number.to_Z column
                    | _ => None
                    end |}
      | _, _, _ => None
      end
  | _ => None
  end.

Definition lint_parseFindings (stdout : string) : Eff.Outcome (list Finding) :=
  match JSON.parse stdout with
  | Some (JArr items) =>
      match mapM decodeFinding items with
      | Some findings => inr findings
      | None => inl (mkExn ForeignError "TypeError")
      end
  | Some _ => inl (mkExn ForeignError "TypeError: parsed.filter is not a function")
  | None => inl (mkExn ForeignError "SyntaxError")
  end.

Definition lint_world : LintWorld :=
  {| lint_files := [("/project/image/Dockerfile", "FROM node" +:+ newline +:+ "RUN true");
                    ("/project/.hadolint.yaml", "ignored: []")];
     lint_clock := 100 |}.

Definition lint_module : HadolintModule :=
  {| hm_name := "hadolint-image"; hm_path := "/project/image";
     hm_dockerfilePath := "Dockerfile";
     hm_version := mkModuleVersion "v-lint" ["Dockerfile"] |}.

Definition lint_lines (text : string) : list string :=
  match text with
  | EmptyString => []
  | _ => [text]
  end.

Definition lint_testModule (threshold : string) (module : HadolintModule)
  : Eff.M LintWorld HadolintEvent TestResult :=
  testModule lint_join lint_readFile lint_pathExists lint_exec lint_now lint_lines
    (fun s => s) (fun s => s) (fun s => s) (default "undefined") "/static"
    lint_parseFindings "/project" threshold module "lint".

Definition lint_augmentGraph (autoInject : bool)
  : Eff.M LintWorld HadolintEvent (option (list HadolintModuleSpec)) :=
  hadolint_augmentGraph lint_hasDockerfile
    (fun module => lint_join [gm_path module; "Dockerfile"])
    (fun _ to => to) autoInject plugin_modules.

(** * Properties *)

(** ** The models on concrete inputs *)

(** First run of [web] on an empty world: the sources are synchronised, the
    products of [lib] copied, the status asked for, and the build run. *)
Example process_first_run :
  let r := Eff.run (process demo_getModuleKey (demo_task web_module false)) (mkDemoWorld [] []) in
  r.1 = inr (mkBuildResult (Some true) (Some "ok") None None) /\
  filter is_backend_action (Eff.trace r.2)
    = [EvGetBuildStatus web_module (inr (mkBuildStatus false));
       EvBuild web_module (inr (mkBuildResult (Some true) (Some "ok") None None))] /\
  Eff.world r.2
    = mkDemoWorld [("web/vendor/lib", "lib/dist"); ("web/index.ts", "v-web-1");
                   ("web/app.ts", "v-web-1")] ["v-web-1"].
Proof. vm_compute. auto. Qed.

Example keyed_set_entries :
  KeyedSet.entries (KeyedSet.after fst kv_ops) = [("a", 3); ("c", 4); ("b", 5)].
Proof. reflexivity. Qed.

Example keyed_set_members :
  KeyedSet.members fst kv_ops "a" = Some (0, ("a", 3)) /\
  KeyedSet.members fst kv_ops "b" = Some (5, ("b", 5)) /\
  KeyedSet.members fst kv_ops "c" = Some (4, ("c", 4)) /\
  KeyedSet.members fst kv_ops "d" = None.
Proof. vm_compute. auto. Qed.

Example keyed_set_delete_result :
  (KeyedSet.delete fst ("c", 0) (KeyedSet.after fst kv_ops)).1 = true /\
  (KeyedSet.delete fst ("d", 0) (KeyedSet.after fst kv_ops)).1 = false.
Proof. vm_compute. auto. Qed.

Example json_parse_array :
  JSON.parse " [1, -20 ,[ ] ] "
    = Some (JArr [JNum (Number.of_Z 1); JNum (Number.of_Z (-20)); JArr []]).
Proof. reflexivity. Qed.

Example json_parse_leading_zero : JSON.parse "01" = None.
Proof. reflexivity. Qed.

Example json_parse_trailing_comma : JSON.parse "[1,]" = None.
Proof. reflexivity. Qed.

Example json_parse_repeated_property :
  JSON.parse ("{" +:+ quoted "a" +:+ ":1," +:+ quoted "b" +:+ ":null," +:+ quoted "a" +:+ ":true}")
    = Some (JObj [("a", JBool true); ("b", JNull)]).
Proof. reflexivity. Qed.

(** Array indices come first among the properties of an object, in
    ascending order. *)
Example json_parse_index_properties :
  JSON.parse ("{" +:+ quoted "b" +:+ ":1," +:+ quoted "10" +:+ ":2," +:+ quoted "2" +:+ ":3,"
              +:+ quoted "01" +:+ ":4}")
    = Some (JObj [("2", JNum (Number.of_Z 3)); ("10", JNum (Number.of_Z 2));
                  ("b", JNum (Number.of_Z 1)); ("01", JNum (Number.of_Z 4))]).
Proof. reflexivity. Qed.

Example json_parse_numbers :
  map JSON.parse ["1.50"; "15e-1"; "1E3"; "-0"; "0.0"; "1."; ".5"; "1e"]
    = [Some (JNum (Number.Finite false [Number.d1; Number.d5] 1));
       Some (JNum (Number.Finite false [Number.d1; Number.d5] 1));
       Some (JNum (Number.of_Z 1000));
       Some (JNum (Number.Zero true));
       Some (JNum (Number.Zero false));
       None; None; None].
Proof. reflexivity. Qed.

Example json_stringify_numbers :
  map (fun x => JSON.stringify (JNum x))
      [Number.of_Z 8080; Number.Finite false [Number.d1] 21; Number.Finite false [Number.d1] 22;
       Number.Finite false [Number.d1; Number.d5] 1; Number.Finite false [Number.d1] (-5);
       Number.Finite true [Number.d1; Number.d5] (-6);
       Number.NaN; Number.Infinity true; Number.Zero true]
    = ["8080"; "100000000000000000000"; "1e+21"; "1.5"; "0.000001"; "-1.5e-7";
       "null"; "null"; "0"].
Proof. reflexivity. Qed.

Example json_stringify_escapes :
  JSON.stringify (JStr (String "010"%char (String "001"%char "z")))
    = quoted "\n\u0001z".
Proof. reflexivity. Qed.

(** What the unit test of the runtime context reads. *)
Example runtime_context_variables :
  let env := envVars (prepareRuntimeContext test_params) in
  env !! "GARDEN_VERSION" = Some (JStr "v-module-a") /\
  env !! "GARDEN_VARIABLES_MY_VAR" = Some (JStr "foo") /\
  env !! "GARDEN_MODULE_MODULE_B__OUTPUT_MY_OUTPUT" = Some (JStr "meep") /\
  env !! "GARDEN_SERVICE_SERVICE_B__OUTPUT_MY_OUTPUT" = Some (JStr "moop") /\
  env !! "GARDEN_TASK_TASK_C__OUTPUT_LOG" = Some (JStr "C:\logs\task-c.log") /\
  env !! "GARDEN_MODULE_MODULE_C__OUTPUT_MODULE_OUTPUT_C" = Some (JStr "moop") /\
  map rd_name (rc_dependencies (prepareRuntimeContext test_params))
    = ["module-b"; "service-b"; "task-c"; "unit"].
Proof. vm_compute. auto 10. Qed.

(** [dedent] on a text laid out like a template: the common indentation and
    the white space at both ends go, a written backslash-n becomes a line
    break. *)
Example dedent_template :
  dedent (newline +:+ "    a \n b" +:+ newline +:+ "      c  " +:+ newline +:+ "   ")
  = "a " +:+ newline +:+ " b" +:+ newline +:+ "  c".
Proof. reflexivity. Qed.

(** One finding of hadolint, without colours: a code that starts with a
    space loses it, and the backslash-n of the message and of the line of
    the Dockerfile are line breaks in the text. *)
Example formatFinding_text :
  formatFinding (fun s => s) (fun s => s) (fun s => s) (default "")
                ["FROM node"; "  RUN a\nb"]
                {| f_level := "error"; f_code := " DL1"; f_message := Some "x\ny";
                   f_line := 2; f_column := Some 3 |}
  = "DL1: x" +:+ newline +:+ "y" +:+ newline
    +:+ "2:     RUN a" +:+ newline +:+ "b" +:+ newline
    +:+ "-------^".
Proof. reflexivity. Qed.

Section BuildTaskProperties.

Context {W : Type}.
Variable getModuleKey : string -> option string -> string.

Abbreviation process := (process getModuleKey).
Abbreviation getDependencies := (getDependencies getModuleKey).
Abbreviation getBuildTasks := (getBuildTasks getModuleKey).
Abbreviation getName := (getName getModuleKey).

Implicit Types (t : @BuildTask W) (w : W).

Ltac unfold_eff :=
  unfold Eff.run, Eff.bind, Eff.try_catch, Eff.call, Eff.emit, Eff.ret, Eff.throw in *.

Ltac step_ext :=
  match goal with
  | |- context [let '(_, _) := ?f ?w in _] =>
      let e := fresh "e" in let a := fresh "a" in
      let w' := fresh "w" in let H := fresh "Hcall" in
      destruct (f w) as [[e|a] w'] eqn:H; simpl in *
  | H : context [let '(_, _) := ?f ?w in _] |- _ =>
      let e := fresh "e" in let a := fresh "a" in
      let w' := fresh "w" in let H := fresh "Hcall" in
      destruct (f w) as [[e|a] w'] eqn:H; simpl in *
  end.

Ltac in_trace :=
  repeat match goal with
    | H : In _ _ |- _ => simpl in H
    | H : _ \/ _ |- _ => destruct H
    | H : False |- _ => destruct H
    | H : _ = _ :> Event |- _ => (discriminate H || (injection H as ?; subst))
    end;
  try congruence.

Ltac run_process Hforce :=
  unfold process; rewrite Hforce; unfold_eff; simpl;
  repeat (step_ext; try (intros; in_trace; fail));
  repeat match goal with
    | |- context [ready ?st] => destruct st as [[|]]; simpl in *
    | _ => step_ext
    end.


(** C5 (amended): on a cache hit the run has synchronised the sources and
    copied the dependency products into the build workspace before it asked
    for the status; these two and the probe are the only steps that act on
    the world, and the build action is not among them. *)
Theorem process_cache_hit_syncs t w m :
  force t = false ->
  In (EvGetBuildStatus m (inr (mkBuildStatus true))) (Eff.trace (Eff.run (process t) w).2) ->
  (Eff.run (process t) w).1 = inr fresh_false /\
  Eff.trace (Eff.run (process t) w).2
    = [EvGetActionRouter;
       EvLogInfo (getName t) (length (files (module_version (module t))));
       EvGetConfigGraph;
       EvSyncFromSrc (module t);
       EvSyncDependencyProducts (module t);
       EvLogSetState (GettingBuildStatus (versionString (module_version (module t))));
       EvGetBuildStatus (module t) (inr (mkBuildStatus true));
       EvLogSetSuccess] /\
  exists actions graph w1 w2 w3 w4,
    getActionRouter (garden t) w = (inr actions, w1) /\
    getConfigGraph (garden t) w1 = (inr graph, w2) /\
    syncFromSrc (buildDir (garden t)) (module t) w2 = (inr tt, w3) /\
    syncDependencyProducts (buildDir (garden t)) (module t) graph w3 = (inr tt, w4) /\
    getBuildStatus actions (module t) w4
      = (inr (mkBuildStatus true), Eff.world (Eff.run (process t) w).2).
Proof.
  intros Hforce. run_process Hforce; intros Hin; in_trace.
  repeat split. repeat match goal with u : unit |- _ => destruct u end.
  eauto 12.
Qed.

(** C6: a forced build task whose workspace preparation goes through calls
    the build action of the backend, on the world the preparation left, and
    returns or raises what that action returns or raises; the status probe
    is not called, whatever it would answer. *)
Theorem process_forced_builds t w actions graph w1 w2 w3 w4 :
  force t = true ->
  getActionRouter (garden t) w = (inr actions, w1) ->
  getConfigGraph (garden t) w1 = (inr graph, w2) ->
  syncFromSrc (buildDir (garden t)) (module t) w2 = (inr tt, w3) ->
  syncDependencyProducts (buildDir (garden t)) (module t) graph w3 = (inr tt, w4) ->
  In (EvBuild (module t) (build actions (module t) w4).1)
     (Eff.trace (Eff.run (process t) w).2) /\
  (forall m r, ~ In (EvGetBuildStatus m r) (Eff.trace (Eff.run (process t) w).2)) /\
  (Eff.run (process t) w).1 = (build actions (module t) w4).1 /\
  Eff.world (Eff.run (process t) w).2 = (build actions (module t) w4).2.
Proof.
  intros Hforce H1 H2 H3 H4.
  unfold process. rewrite Hforce. unfold_eff. simpl.
  rewrite H1. simpl. rewrite H2. simpl. rewrite H3. simpl. rewrite H4. simpl.
  destruct (build actions (module t) w4) as [[e|r] w5]; simpl;
    (repeat split; [tauto | intros m r' Hin; in_trace]).
Qed.

(** C7: when the build action raises, the log entry of the task is set to
    its error state, this is the last thing the run does, the same error is
    raised to the caller, and the world is left as the failed action left
    it. *)
Theorem process_build_failure t w m err :
  In (EvBuild m (inl err)) (Eff.trace (Eff.run (process t) w).2) ->
  (Eff.run (process t) w).1 = inl err /\
  (exists pre,
      Eff.trace (Eff.run (process t) w).2
        = pre ++ [EvBuild (module t) (inl err); EvLogSetError]) /\
  (exists actions w1 wb,
      getActionRouter (garden t) w = (inr actions, w1) /\
      build actions (module t) wb = (inl err, Eff.world (Eff.run (process t) w).2)).
Proof.
  destruct (force t) eqn:Hforce; run_process Hforce; intros Hin; in_trace.
  all: repeat split; eauto.
  all: match goal with
       | |- exists pre, ?l = _ => 
           eexists (firstn (length l - 2) l); reflexivity
       end.
Qed.

(** C4 (amended): the build tasks that [getDependencies] returns carry the
    force flag of the task they were derived from, one task per build
    dependency the graph reports, in the graph's order. *)
Theorem getDependencies_force t w deps :
  (Eff.run (getDependencies t) w).1 = inr deps ->
  Forall (fun d => force d = force t) deps /\
  exists graph w1 rels,
    getConfigGraph (garden t) w = (inr graph, w1) /\
    (getGraphDependencies graph "build" (getName t) false w1).1 = inr rels /\
    map module deps = rel_build rels.
Proof.
  unfold getDependencies. unfold_eff. simpl.
  repeat step_ext; intros Heq; try discriminate.
  injection Heq as <-. split.
  - induction (rel_build a0); simpl; constructor; auto.
  - do 3 eexists. split; [reflexivity|]. rewrite Hcall0. split; [reflexivity|].
    rewrite map_map. simpl. apply map_id.
Qed.

(** C3: [getBuildTasks] answers with the build task of the module itself
    when a build dependency declares files to copy (the backend is then not
    asked) or when the backend has a build handler for the type of the
    module; when neither holds it hands over to [getDependencies] of that
    task, whose answer stands in its place. *)
Theorem getBuildTasks_needsBuild (params : @BuildTaskParams W) w :
  let self := newBuildTask params in
  let copies := exists d c, In d (dependencies (module_build (p_module params)))
                            /\ dep_copy d = Some c /\ c <> [] in
  let ty := module_type (p_module params) in
  (copies -> Eff.run (getBuildTasks params) w = (inr [self], Eff.mkState w [])) /\
  (forall actions w1,
      ~ copies ->
      getActionRouter (p_garden params) w = (inr actions, w1) ->
      (forall w2,
          getModuleActionHandler actions "build" ty w1 = (inr tt, w2) ->
          Eff.run (getBuildTasks params) w
            = (inr [self],
               Eff.mkState w2 [EvGetActionRouter;
                               EvGetModuleActionHandler "build" ty (inr tt)])) /\
      (forall e w2,
          getModuleActionHandler actions "build" ty w1 = (inl e, w2) ->
          Eff.run (getBuildTasks params) w
            = getDependencies self
                (Eff.mkState w2 [EvGetActionRouter;
                                 EvGetModuleActionHandler "build" ty (inl e)]))).
Proof.
  intros self copies ty.
  assert (Hcopies : existsb hasCopy (dependencies (module_build (p_module params))) = true
                    <-> copies).
  { rewrite existsb_exists. unfold copies, hasCopy. split.
    - intros (d & Hd & Hc). destruct (dep_copy d) as [c|] eqn:Hdc; [|discriminate].
      exists d, c. repeat split; auto. intros ->. discriminate.
    - intros (d & c & Hd & Hdc & Hne). exists d. split; [assumption|].
      rewrite Hdc. destruct c; [congruence | reflexivity]. }
  split.
  - intros Hc. apply Hcopies in Hc. unfold getBuildTasks. rewrite Hc. reflexivity.
  - intros actions w1 Hnc Hrouter.
    assert (Hf : existsb hasCopy (dependencies (module_build (p_module params))) = false).
    { destruct (existsb _ _) eqn:E; [|reflexivity]. exfalso. apply Hnc, Hcopies, eq_refl. }
    split.
    + intros w2 Hh. unfold getBuildTasks. rewrite Hf. unfold_eff. simpl.
      rewrite Hrouter. simpl. fold ty. rewrite Hh. reflexivity.
    + intros e w2 Hh. unfold getBuildTasks. rewrite Hf. unfold_eff. simpl.
      rewrite Hrouter. simpl. fold ty. rewrite Hh. reflexivity.
Qed.

End BuildTaskProperties.

(** *** The build-task properties on the concrete backend *)


(** C5 (as stated) fails: the second run of [web] is a cache hit, and yet it
    has run the source sync and the copy of the dependency products, which
    here write to the build directory again. *)
Lemma process_cache_hit_skips_sync_counterexample :
  let t := demo_task web_module false in
  let r := Eff.run (process demo_getModuleKey t) demo_built_world in
  force t = false /\
  r.1 = inr fresh_false /\
  In (EvSyncFromSrc web_module) (Eff.trace r.2) /\
  In (EvSyncDependencyProducts web_module) (Eff.trace r.2) /\
  build_dir (Eff.world r.2)
    = [("web/vendor/lib", "lib/dist"); ("web/index.ts", "v-web-1"); ("web/app.ts", "v-web-1");
       ("web/vendor/lib", "lib/dist")].
Proof.
  vm_compute. repeat split; auto 10.
Qed.

Lemma process_cache_hit_syncs_witness :
  let t := demo_task web_module false in
  let r := Eff.run (process demo_getModuleKey t) demo_built_world in
  r.1 = inr fresh_false /\
  Eff.trace r.2
    = [EvGetActionRouter; EvLogInfo "web" 2; EvGetConfigGraph;
       EvSyncFromSrc web_module; EvSyncDependencyProducts web_module;
       EvLogSetState (GettingBuildStatus "v-web-1");
       EvGetBuildStatus web_module (inr (mkBuildStatus true));
       EvLogSetSuccess].
Proof.
  intros t r.
  destruct (process_cache_hit_syncs demo_getModuleKey t demo_built_world web_module)
    as (Hres & Htrace & _).
  - reflexivity.
  - vm_compute. do 6 right. left. reflexivity.
  - split; [exact Hres | exact Htrace].
Defined.

(** A forced run of [web] on the same world builds again. *)
Lemma process_forced_builds_witness :
  let t := demo_task web_module true in
  let r := Eff.run (process demo_getModuleKey t) demo_built_world in
  In (EvBuild web_module (inr (mkBuildResult (Some true) (Some "ok") None None)))
     (Eff.trace r.2) /\
  (forall m s, ~ In (EvGetBuildStatus m s) (Eff.trace r.2)) /\
  r.1 = inr (mkBuildResult (Some true) (Some "ok") None None).
Proof.
  intros t r.
  destruct (process_forced_builds demo_getModuleKey t demo_built_world
              demo_actions demo_graph
              demo_built_world demo_built_world
              ((syncFromSrc demo_buildDir web_module demo_built_world).2)
              ((syncDependencyProducts demo_buildDir web_module demo_graph
                  (syncFromSrc demo_buildDir web_module demo_built_world).2).2))
    as (Hin & Hno & Hres & _); try reflexivity.
  split; [exact Hin | split; [exact Hno | exact Hres]].
Defined.

(** The build of [broken] raises. *)
Lemma process_build_failure_witness :
  let t := demo_task broken_module false in
  let r := Eff.run (process demo_getModuleKey t) demo_built_world in
  r.1 = inl (mkExn ForeignError "build failed") /\
  exists pre,
    Eff.trace r.2
      = pre ++ [EvBuild broken_module (inl (mkExn ForeignError "build failed")); EvLogSetError].
Proof.
  intros t r.
  destruct (process_build_failure demo_getModuleKey t demo_built_world broken_module
              (mkExn ForeignError "build failed"))
    as (Hres & Htrace & _).
  - vm_compute. do 8 right. left. reflexivity.
  - split; [exact Hres | exact Htrace].
Defined.

(** C4 (as stated) fails: the dependency task that a forced build task of
    [web] returns for [lib] is forced as well, and running it builds [lib]
    again although the backend has that version of [lib] built. *)
Lemma getDependencies_not_forced_counterexample :
  let t := demo_task web_module true in
  force t = true /\
  exists d,
    (Eff.run (getDependencies demo_getModuleKey t) demo_built_world).1 = inr [d] /\
    module d = lib_module /\
    force d = true /\
    (getBuildStatus demo_actions lib_module demo_built_world).1 = inr (mkBuildStatus true) /\
    filter is_backend_action
           (Eff.trace (Eff.run (process demo_getModuleKey d) demo_built_world).2)
      = [EvBuild lib_module (inr (mkBuildResult (Some true) (Some "ok") None None))].
Proof.
  split; [reflexivity|].
  eexists. split; [vm_compute; reflexivity|]. repeat split.
Qed.

Lemma getDependencies_force_witness :
  Forall (fun d : @BuildTask DemoWorld => force d = true) [demo_task lib_module true].
Proof.
  apply (getDependencies_force demo_getModuleKey (demo_task web_module true) demo_built_world
                               [demo_task lib_module true]).
  vm_compute. reflexivity.
Defined.

(** [web] copies from [lib]; [lib] has a build handler; [meta] has neither
    and is replaced by the build task of [lib]. *)
Lemma getBuildTasks_needsBuild_witness :
  (Eff.run (getBuildTasks demo_getModuleKey
              (mkBuildTaskParams demo_garden web_module false None None)) demo_built_world).1
    = inr [demo_task web_module false] /\
  (Eff.run (getBuildTasks demo_getModuleKey
              (mkBuildTaskParams demo_garden lib_module false None None)) demo_built_world).1
    = inr [demo_task lib_module false] /\
  (Eff.run (getBuildTasks demo_getModuleKey
              (mkBuildTaskParams demo_garden meta_module false None None)) demo_built_world).1
    = inr [demo_task lib_module false].
Proof.
  pose proof (getBuildTasks_needsBuild demo_getModuleKey
                (mkBuildTaskParams demo_garden web_module false None None) demo_built_world)
    as (Hweb & _).
  pose proof (getBuildTasks_needsBuild demo_getModuleKey
                (mkBuildTaskParams demo_garden lib_module false None None) demo_built_world)
    as (_ & Hlib).
  pose proof (getBuildTasks_needsBuild demo_getModuleKey
                (mkBuildTaskParams demo_garden meta_module false None None) demo_built_world)
    as (_ & Hmeta).
  assert (Hnc : forall m,
             dependencies (module_build m) = [] \/
             dependencies (module_build m) = [mkBuildDependencyConfig "lib" (Some [])] ->
             ~ (exists d c, In d (dependencies (module_build m))
                            /\ dep_copy d = Some c /\ c <> [])).
  { intros m [E|E] (d & c & Hd & Hc & Hne); rewrite E in Hd; simpl in Hd.
    - destruct Hd.
    - destruct Hd as [<-|[]]. simpl in Hc. congruence. }
  split; [|split].
  - rewrite Hweb; [reflexivity|].
    exists (mkBuildDependencyConfig "lib" (Some [mkBuildCopySpec "dist" "vendor/lib"])).
    eexists. split; [left; reflexivity|]. split; [reflexivity | discriminate].
  - destruct (Hlib demo_actions demo_built_world) as (Hyes & _);
      [apply Hnc; left; reflexivity | reflexivity |].
    rewrite (Hyes demo_built_world); reflexivity.
  - destruct (Hmeta demo_actions demo_built_world) as (_ & Hno);
      [apply Hnc; right; reflexivity | reflexivity |].
    rewrite (Hno (mkExn ForeignError "No build handler for exec") demo_built_world);
      reflexivity.
Defined.

(** ** [resolveModuleConfig] *)

Lemma string_app_assoc (a b c : string) : (a +:+ b) +:+ c = a +:+ (b +:+ c).
Proof.
  induction a as [|x a IH]; [reflexivity|].
  change (String x ((a +:+ b) +:+ c) = String x (a +:+ (b +:+ c))). now rewrite IH.
Qed.

Section ResolveModuleProperties.

Variable Schema : Type.
Variable ConfigContext : Type.
Variable getModuleKey : string -> option string -> string.
Variable relative : string -> string -> string.
Variable schema_unknown : Schema -> bool -> Schema.
Variable moduleConfigSchema : Schema.
Variable validateWithPath : forall T : Type, ValidateParams Schema T -> Eff.Outcome T.
Variable resolveTemplateStrings :
  ModuleConfig -> ConfigContext -> ModuleConfigResolveOpts ConfigContext ->
  Eff.Outcome ModuleConfig.
Variable getModuleTypeBases :
  option (Property (ModuleTypeDefinition Schema)) -> gmap string (ModuleTypeDefinition Schema) ->
  Eff.Outcome (list (ModuleTypeDefinition Schema)).

Abbreviation resolveModuleConfig' :=
  (resolveModuleConfig Schema ConfigContext getModuleKey relative schema_unknown
                       moduleConfigSchema validateWithPath resolveTemplateStrings
                       getModuleTypeBases).
Abbreviation validateAgainstBases' :=
  (validateAgainstBases Schema ConfigContext schema_unknown validateWithPath).

Implicit Types (garden : ResolveGarden Schema ConfigContext) (config : ModuleConfig).

Ltac err_step :=
  match goal with
  | H : Err.bind ?m _ = inr _ |- _ =>
      let E := fresh "E" in
      destruct m eqn:E; simpl in H; [discriminate H|]
  | H : context [match ?x with Some _ => _ | None => _ end] |- _ =>
      let E := fresh "E" in destruct x eqn:E; simpl in H
  | H : Err.ret _ = inr _ |- _ => injection H as H; subst
  | H : inr _ = inr _ |- _ => injection H as H; subst
  | H : inl _ = inr _ |- _ => discriminate H
  end.

Lemma validateAgainstBases_build garden bases config config' :
  validateAgainstBases' garden bases config = inr config' ->
  cfg_build config' = cfg_build config.
Proof.
  revert config. induction bases as [|base rest IH]; intros config H; simpl in H.
  - injection H as <-. reflexivity.
  - repeat err_step; apply IH in H; exact H.
Qed.

(** C8: on every run of [resolveModuleConfig] that returns, the
    configuration handed to the validation against the base schema has, in
    place of every dependency that the template-resolved configuration
    declares by name [s], the dependency [{ name: s, copy: [] }], and has
    every dependency declared in full as it was declared; and when that
    validation and the configure handler hand the build section back as they
    got it, so has the configuration that is returned. *)
Theorem resolveModuleConfig_normalizes_dependencies garden config opts result :
  resolveModuleConfig' garden config opts = inr result ->
  exists ctx resolved p validated,
    resolveTemplateStrings (cloneDeep config) ctx
      (mkResolveOpts ConfigContext (opts_allowPartial ConfigContext opts) (Some ctx))
      = inr resolved /\
    v_schema Schema ModuleConfig p = moduleConfigSchema /\
    validateWithPath ModuleConfig p = inr validated /\
    (forall deps,
        cfg_build resolved = Some (mkDeclaredBuildConfig (Some deps)) ->
        exists deps',
          cfg_build (v_config Schema ModuleConfig p)
            = Some (mkDeclaredBuildConfig (Some deps')) /\
          length deps' = length deps /\
          forall i : nat,
            (forall s, deps !! i = Some (DepByName s) ->
                       deps' !! i = Some (DepConfig (mkBuildDependencyConfig s (Some [])))) /\
            (forall d, deps !! i = Some (DepConfig d) ->
                       deps' !! i = Some (DepConfig d))) /\
    (cfg_build validated = cfg_build (v_config Schema ModuleConfig p) ->
     (forall r c c', getConfigureRouter Schema ConfigContext garden = inr r ->
                     configureModule r c = inr c' -> cfg_build c' = cfg_build c) ->
     cfg_build result = cfg_build (v_config Schema ModuleConfig p)).
Proof.
  intros H. unfold resolveModuleConfig in H.
  destruct (match opts_configContext ConfigContext opts with
            | Some ctx => Err.ret ctx
            | None => getModuleConfigContext Schema ConfigContext garden
            end) as [e|ctx] eqn:Ectx; simpl in H; [discriminate|].
  destruct (resolveTemplateStrings (cloneDeep config) ctx _) as [e|resolved] eqn:Eres;
    simpl in H; [discriminate|].
  destruct (getModuleTypeDefinitions Schema ConfigContext garden) as [e|defs];
    simpl in H; [discriminate|].
  destruct (get_property defs (cfg_type resolved)) as [description|]; [|discriminate].
  match type of H with
  | Err.bind ?m _ = _ => destruct m as [e|c1] eqn:E1; simpl in H; [discriminate|]
  end.
  assert (Hc1 : cfg_build c1 = cfg_build resolved).
  { destruct (property_field (mtd_schema Schema) description); simpl in E1.
    - destruct (validateWithPath json _); simpl in E1; [discriminate|].
      injection E1 as <-. reflexivity.
    - injection E1 as <-. reflexivity. }
  match type of H with
  | Err.bind (validateWithPath ModuleConfig ?q) _ = _ =>
      set (p := q) in *;
      destruct (validateWithPath ModuleConfig p) as [e|c2] eqn:E2; simpl in H; [discriminate|]
  end.
  exists ctx, resolved, p, c2.
  split; [exact Eres|]. split; [reflexivity|]. split; [exact E2|]. split.
  - intros deps Hdeps. subst p. cbn [v_config]. rewrite Hc1, Hdeps. cbn.
    eexists. split; [reflexivity|]. split; [apply length_map|].
    intros i. split.
    + intros s Hi. rewrite list_lookup_fmap, Hi. reflexivity.
    + intros d Hi. rewrite list_lookup_fmap, Hi. reflexivity.
  - intros Hvalidated Hconfigure. rewrite <- Hvalidated.
    match type of H with
    | Err.bind ?m _ = _ => destruct m as [e|c3] eqn:E3; simpl in H; [discriminate|]
    end.
    assert (Hc3 : cfg_build c3 = cfg_build c2).
    { destruct (truthy (cfg_repositoryUrl c2)); simpl in E3.
      - destruct (loadExtSourcePath _ _ _ _ _ _); simpl in E3; [discriminate|].
        injection E3 as <-. reflexivity.
      - injection E3 as <-. reflexivity. }
    destruct (getConfigureRouter Schema ConfigContext garden) as [e|router] eqn:Erouter;
      simpl in H; [discriminate|].
    destruct (configureModule router c3) as [e|c4] eqn:E4; simpl in H; [discriminate|].
    apply (Hconfigure router) in E4; [|reflexivity].
    match type of H with
    | Err.bind ?m _ = _ => destruct m as [e|c5] eqn:E5; simpl in H; [discriminate|]
    end.
    assert (Hc5 : cfg_build c5 = cfg_build c4).
    { destruct (property_field (mtd_moduleOutputsSchema Schema) description); simpl in E5.
      - destruct (validateWithPath json _); simpl in E5; [discriminate|].
        injection E5 as <-. reflexivity.
      - injection E5 as <-. reflexivity. }
    destruct (getModuleTypeBases _ _) as [e|bases]; simpl in H; [discriminate|].
    destruct (validateAgainstBases' garden bases c5) as [e|c6] eqn:E6;
      simpl in H; [discriminate|].
    apply validateAgainstBases_build in E6.
    assert (Hres : cfg_build result = cfg_build c6).
    { unfold Err.ret in H. injection H as <-.
      destruct (truthy (cfg_plugin _)); reflexivity. }
    now rewrite Hres, E6, Hc5, E4, Hc3.
Qed.

(** When the template context is there (or can be fetched), the templates
    of the configuration resolve, the module-type definitions can be fetched
    and [moduleTypeDefinitions[config.type]] finds nothing for the type of
    the resolved configuration, [resolveModuleConfig] raises a
    [ConfigurationError] whose message holds the path of the configuration
    file (or of the module, when no configuration file is recorded), relative
    to the project root. *)
Lemma resolveModuleConfig_unknown_type garden config opts ctx resolved defs :
  match opts_configContext ConfigContext opts with
  | Some c => c = ctx
  | None => getModuleConfigContext Schema ConfigContext garden = inr ctx
  end ->
  resolveTemplateStrings (cloneDeep config) ctx
    (mkResolveOpts ConfigContext (opts_allowPartial ConfigContext opts) (Some ctx))
    = inr resolved ->
  getModuleTypeDefinitions Schema ConfigContext garden = inr defs ->
  get_property defs (cfg_type resolved) = None ->
  exists pre post,
    resolveModuleConfig' garden config opts
      = inl (mkExn ConfigurationError
               (pre
                +:+ relative (projectRoot Schema ConfigContext garden)
                      (default (cfg_path resolved) (truthy (cfg_configPath resolved)))
                +:+ post)).
Proof.
  intros Hctx Hres Hdefs Hnone.
  exists ("Unrecognized module type '" +:+ cfg_type resolved +:+ "' (defined at "),
         "). Are you missing a provider configuration?".
  unfold resolveModuleConfig.
  assert (E : match opts_configContext ConfigContext opts with
              | Some c => Err.ret c
              | None => getModuleConfigContext Schema ConfigContext garden
              end = inr ctx).
  { destruct (opts_configContext ConfigContext opts); [subst|]; auto. }
  rewrite E. simpl. rewrite Hres. simpl. rewrite Hdefs. simpl. rewrite Hnone.
  unfold unrecognizedModuleType. do 2 f_equal.
  rewrite !string_app_assoc. reflexivity.
Qed.

End ResolveModuleProperties.

Lemma resolveModuleConfig_normalizes_dependencies_witness :
  exists result deps',
    demo_resolveModuleConfig (web_config "container") (mkResolveOpts unit false None)
      = inr result /\
    cfg_build result = Some (mkDeclaredBuildConfig (Some deps')) /\
    deps' !! 0%nat = Some (DepConfig (mkBuildDependencyConfig "lib" (Some []))) /\
    deps' !! 1%nat = Some (DepConfig (mkBuildDependencyConfig "assets"
                                        (Some [mkBuildCopySpec "dist" "vendor/assets"]))).
Proof.
  destruct (demo_resolveModuleConfig (web_config "container") (mkResolveOpts unit false None))
    as [e|result] eqn:E; [vm_compute in E; discriminate|].
  destruct (resolveModuleConfig_normalizes_dependencies
              unit unit demo_getModuleKey demo_relative (fun s _ => s) tt
              demo_validateWithPath demo_resolveTemplateStrings demo_getModuleTypeBases
              demo_resolveGarden (web_config "container") (mkResolveOpts unit false None)
              result E)
    as (ctx & resolved & p & validated & Hres & _ & Hval & Hdeps & Hkept).
  injection Hres as <-. injection Hval as <-.
  destruct (Hdeps _ eq_refl) as (deps' & Hb & _ & Hi).
  exists result, deps'. split; [reflexivity|]. split.
  - rewrite Hkept; [exact Hb | reflexivity |].
    intros r c c' Hr Hc. injection Hr as <-. injection Hc as <-. reflexivity.
  - split.
    + apply (proj1 (Hi 0%nat)). reflexivity.
    + apply (proj2 (Hi 1%nat)). reflexivity.
Defined.

Lemma resolveModuleConfig_unknown_type_witness :
  exists pre post,
    demo_resolveModuleConfig (web_config "contaner") (mkResolveOpts unit false None)
      = inl (mkExn ConfigurationError (pre +:+ "web/garden.yml" +:+ post)).
Proof.
  apply (resolveModuleConfig_unknown_type
           unit unit demo_getModuleKey demo_relative (fun s _ => s) tt
           demo_validateWithPath demo_resolveTemplateStrings demo_getModuleTypeBases
           demo_resolveGarden (web_config "contaner") (mkResolveOpts unit false None)
           tt (web_config "contaner")
           {[ "container" := mkModuleTypeDefinition unit "container" None None ]}).
  - reflexivity.
  - reflexivity.
  - reflexivity.
  - vm_compute. reflexivity.
Defined.

(** C9: a module of type [constructor] in a project that registers no
    module type of that name. The table of definitions has no own property
    [constructor], but the lookup finds the member of that name which every
    plain object inherits; it is truthy, so the type passes for a registered
    one: no [ConfigurationError] is raised, and with collaborators that
    accept the module its configuration is resolved and returned. *)
Theorem resolveModuleConfig_inherited_type :
  exists defs result,
    getModuleTypeDefinitions unit unit demo_resolveGarden = inr defs /\
    defs !! "constructor" = None /\
    get_property defs "constructor" = Some (Inherited "constructor") /\
    demo_resolveModuleConfig (web_config "constructor") (mkResolveOpts unit false None)
      = inr result /\
    cfg_type result = "constructor".
Proof.
  eexists _, _. split; [reflexivity|].
  split; [vm_compute; reflexivity|].
  split; [vm_compute; reflexivity|].
  split; [vm_compute; reflexivity|reflexivity].
Qed.

(** ** [KeyedSet] *)

Section JsMapProperties.

Context {V : Type}.
Implicit Types (m : JsMap.t V) (k : string) (v : V).

Lemma JsMap_get_set k k' v m :
  JsMap.get k' (JsMap.set k v m) = if String.eqb k k' then Some v else JsMap.get k' m.
Proof.
  induction m as [|[k0 v0] m IH]; simpl.
  - reflexivity.
  - destruct (String.eqb_spec k0 k) as [->|Hne]; simpl.
    + destruct (String.eqb k k'); reflexivity.
    + rewrite IH. destruct (String.eqb_spec k0 k') as [->|Hne'].
      * destruct (String.eqb_spec k k'); [congruence | reflexivity].
      * reflexivity.
Qed.

Lemma JsMap_has_get k m :
  JsMap.has k m = match JsMap.get k m with Some _ => true | None => false end.
Proof.
  induction m as [|[k0 v0] m IH]; simpl; [reflexivity|].
  destruct (String.eqb k0 k); [reflexivity | exact IH].
Qed.

Lemma JsMap_has_set k v m : JsMap.has k (JsMap.set k v m) = true.
Proof.
  now rewrite JsMap_has_get, JsMap_get_set, String.eqb_refl.
Qed.

Lemma JsMap_keys_set k v m :
  JsMap.keys (JsMap.set k v m)
    = if JsMap.has k m then JsMap.keys m else JsMap.keys m ++ [k].
Proof.
  unfold JsMap.keys. induction m as [|[k0 v0] m IH]; simpl.
  - reflexivity.
  - destruct (String.eqb k0 k); simpl; [reflexivity|].
    rewrite IH. destruct (JsMap.has k m); reflexivity.
Qed.

Lemma JsMap_size_set k v m :
  JsMap.size (JsMap.set k v m) = if JsMap.has k m then JsMap.size m else S (JsMap.size m).
Proof.
  unfold JsMap.size. rewrite <- !(length_map fst).
  fold (JsMap.keys (JsMap.set k v m)). rewrite JsMap_keys_set.
  destruct (JsMap.has k m); [reflexivity|].
  rewrite length_app. simpl. unfold JsMap.keys. lia.
Qed.

Lemma JsMap_keys_get k m : In k (JsMap.keys m) <-> is_Some (JsMap.get k m).
Proof.
  unfold JsMap.keys. induction m as [|[k0 v0] m IH]; simpl.
  - split; [tauto | intros [? ?]; discriminate].
  - destruct (String.eqb_spec k0 k) as [->|Hne].
    + split; eauto.
    + rewrite <- IH. tauto.
Qed.

Lemma JsMap_get_In k v m : JsMap.get k m = Some v -> In (k, v) m.
Proof.
  induction m as [|[k0 v0] m IH]; simpl; [discriminate|].
  destruct (String.eqb_spec k0 k) as [->|Hne].
  - intros [= ->]. now left.
  - intros H. right. auto.
Qed.

Lemma JsMap_In_get k v m :
  List.NoDup (JsMap.keys m) -> In (k, v) m -> JsMap.get k m = Some v.
Proof.
  unfold JsMap.keys. induction m as [|[k0 v0] m IH]; simpl; [tauto|].
  intros Hnd [Heq|Hin].
  - injection Heq as -> ->. now rewrite String.eqb_refl.
  - apply List.NoDup_cons_iff in Hnd as [Hnotin Hnd].
    destruct (String.eqb_spec k0 k) as [->|Hne]; [|auto].
    exfalso. apply Hnotin. apply (in_map fst) in Hin. exact Hin.
Qed.

Lemma JsMap_keys_delete_incl k k' m :
  In k' (JsMap.keys (JsMap.delete k m)) -> In k' (JsMap.keys m).
Proof.
  unfold JsMap.keys. induction m as [|[k0 v0] m IH]; simpl; [tauto|].
  destruct (String.eqb k0 k); simpl; tauto.
Qed.

Lemma JsMap_get_delete k k' m :
  List.NoDup (JsMap.keys m) ->
  JsMap.get k' (JsMap.delete k m) = if String.eqb k k' then None else JsMap.get k' m.
Proof.
  unfold JsMap.keys. induction m as [|[k0 v0] m IH]; simpl; intros Hnd.
  - destruct (String.eqb k k'); reflexivity.
  - apply List.NoDup_cons_iff in Hnd as [Hnotin Hnd].
    destruct (String.eqb_spec k0 k) as [->|Hne]; simpl.
    + destruct (String.eqb_spec k k') as [->|Hne']; [|reflexivity].
      destruct (JsMap.get k' m) eqn:E; [|reflexivity].
      exfalso. apply Hnotin. apply JsMap_keys_get. eauto.
    + rewrite (IH Hnd). destruct (String.eqb_spec k0 k') as [->|Hne'].
      * destruct (String.eqb_spec k k'); [congruence | reflexivity].
      * reflexivity.
Qed.

Lemma JsMap_keys_delete_sorted (R : string -> string -> Prop) k m :
  StronglySorted R (JsMap.keys m) -> StronglySorted R (JsMap.keys (JsMap.delete k m)).
Proof.
  unfold JsMap.keys. induction m as [|[k0 v0] m IH]; simpl; intros Hs.
  - constructor.
  - apply StronglySorted_inv in Hs as [Hs Hall].
    destruct (String.eqb k0 k); simpl; [exact Hs|].
    constructor; [auto|].
    apply List.Forall_forall. intros x Hx.
    apply (proj1 (List.Forall_forall _ _) Hall).
    apply (JsMap_keys_delete_incl k). exact Hx.
Qed.

End JsMapProperties.

Lemma StronglySorted_NoDup {A} (R : A -> A -> Prop) (l : list A) :
  (forall a, ~ R a a) -> StronglySorted R l -> List.NoDup l.
Proof.
  intros Hirr. induction 1 as [|a l Hs IH Hall]; constructor; [|exact IH].
  intros Hin. apply (Hirr a). exact (proj1 (List.Forall_forall _ _) Hall a Hin).
Qed.

Lemma StronglySorted_transfer {A} (R R' : A -> A -> Prop) (l : list A) :
  (forall a b, In a l -> In b l -> R a b -> R' a b) ->
  StronglySorted R l -> StronglySorted R' l.
Proof.
  intros Himp Hs. induction Hs as [|a l Hs IH Hall]; constructor.
  - apply IH. intros x y Hx Hy. apply Himp; now right.
  - apply List.Forall_forall. intros x Hx.
    apply Himp; [now left | now right |].
    exact (proj1 (List.Forall_forall _ _) Hall x Hx).
Qed.

Lemma StronglySorted_snoc {A} (R : A -> A -> Prop) (l : list A) (x : A) :
  StronglySorted R l -> (forall a, In a l -> R a x) -> StronglySorted R (l ++ [x]).
Proof.
  intros Hs Hx. induction Hs as [|a l Hs IH Hall]; simpl.
  - repeat constructor.
  - constructor.
    + apply IH. intros y Hy. apply Hx. now right.
    + apply List.Forall_app. split; [exact Hall|].
      constructor; [|constructor]. apply Hx. now left.
Qed.

Lemma StronglySorted_map_inv {A B} (f : A -> B) (R : B -> B -> Prop) (l : list A) :
  StronglySorted R (map f l) -> StronglySorted (fun a b => R (f a) (f b)) l.
Proof.
  induction l as [|a l IH]; simpl; intros Hs; constructor;
    apply StronglySorted_inv in Hs as [Hs Hall].
  - auto.
  - apply List.Forall_forall. intros x Hx.
    apply (proj1 (List.Forall_forall _ _) Hall). now apply in_map.
Qed.

Section KeyedSetProperties.

Context {V : Type}.
Variable keyFn : V -> string.

Implicit Types (this : KeyedSet.t V) (ops : list (KeyedSet.Op V)) (entry : V).

Lemma before_irrefl (mem : string -> option (nat * V)) a : ~ KeyedSet.before mem a a.
Proof.
  unfold KeyedSet.before. destruct (mem a) as [[i ?]|]; [lia | tauto].
Qed.

Lemma represents_NoDup n mem (m : JsMap.t V) :
  KeyedSet.represents keyFn n mem m -> List.NoDup (JsMap.keys m).
Proof.
  intros [_ _ Hs]. eapply StronglySorted_NoDup; [apply before_irrefl | exact Hs].
Qed.

Lemma represents_member n mem (m : JsMap.t V) k :
  KeyedSet.represents keyFn n mem m -> In k (JsMap.keys m) -> is_Some (mem k).
Proof.
  intros [Hget _ _] Hin. apply JsMap_keys_get in Hin as [v Hv].
  rewrite Hget in Hv. destruct (mem k); [eauto | discriminate].
Qed.

Lemma represents_new : KeyedSet.represents keyFn 0 (fun _ => None) (KeyedSet.map KeyedSet.new).
Proof.
  split; simpl.
  - reflexivity.
  - discriminate.
  - constructor.
Qed.

Lemma represents_add n mem this entry :
  KeyedSet.represents keyFn n mem (KeyedSet.map this) ->
  KeyedSet.represents keyFn (S n)
    (KeyedSet.stamp keyFn (n, mem) (KeyedSet.Add entry)).2
    (KeyedSet.map (KeyedSet.add keyFn entry this)).
Proof.
  intros Hrep. pose proof Hrep as [Hget Hkey Hsorted].
  destruct this as [m]. simpl in *. split.
  - intros k. rewrite JsMap_get_set.
    destruct (String.eqb (keyFn entry) k); [|apply Hget].
    destruct (mem k) as [[j old]|]; reflexivity.
  - intros k i v. destruct (String.eqb_spec (keyFn entry) k) as [<-|Hne].
    + destruct (mem (keyFn entry)) as [[j old]|] eqn:E; intros [= <- <-].
      * destruct (Hkey _ _ _ E). split; [lia | reflexivity].
      * split; [lia | reflexivity].
    + intros H. destruct (Hkey _ _ _ H). split; [lia | assumption].
  - rewrite JsMap_keys_set, JsMap_has_get, Hget.
    destruct (mem (keyFn entry)) as [[j old]|] eqn:E; simpl.
    + eapply StronglySorted_transfer; [|exact Hsorted].
      intros a b _ _. unfold KeyedSet.before.
      destruct (String.eqb_spec (keyFn entry) a) as [<-|Ha];
        destruct (String.eqb_spec (keyFn entry) b) as [<-|Hb];
        rewrite ?E; auto.
    + apply StronglySorted_snoc.
      * eapply StronglySorted_transfer; [|exact Hsorted].
        intros a b Ha Hb. unfold KeyedSet.before.
        apply (represents_member _ _ _ _ Hrep) in Ha as [x Ha].
        apply (represents_member _ _ _ _ Hrep) in Hb as [y Hb].
        destruct (String.eqb_spec (keyFn entry) a) as [<-|_]; [congruence|].
        destruct (String.eqb_spec (keyFn entry) b) as [<-|_]; [congruence|].
        auto.
      * intros a Ha. unfold KeyedSet.before.
        apply (represents_member _ _ _ _ Hrep) in Ha as [[i x] Ha].
        destruct (String.eqb_spec (keyFn entry) a) as [<-|_]; [congruence|].
        rewrite Ha, String.eqb_refl, E. apply (Hkey _ _ _ Ha).
Qed.

Lemma represents_delete n mem this entry :
  KeyedSet.represents keyFn n mem (KeyedSet.map this) ->
  KeyedSet.represents keyFn (S n)
    (KeyedSet.stamp keyFn (n, mem) (KeyedSet.Delete entry)).2
    (KeyedSet.map (KeyedSet.delete keyFn entry this).2).
Proof.
  intros Hrep. pose proof Hrep as [Hget Hkey Hsorted].
  pose proof (represents_NoDup _ _ _ Hrep) as Hnd.
  destruct this as [m]. simpl in *. split.
  - intros k. rewrite (JsMap_get_delete _ _ _ Hnd).
    destruct (String.eqb (keyFn entry) k); [reflexivity | apply Hget].
  - intros k i v. destruct (String.eqb (keyFn entry) k); [discriminate|].
    intros H. destruct (Hkey _ _ _ H). split; [lia | assumption].
  - eapply StronglySorted_transfer; [|apply JsMap_keys_delete_sorted; exact Hsorted].
    intros a b Ha Hb. unfold KeyedSet.before.
    apply JsMap_keys_get in Ha as [x Ha]. apply JsMap_keys_get in Hb as [y Hb].
    rewrite (JsMap_get_delete _ _ _ Hnd) in Ha.
    rewrite (JsMap_get_delete _ _ _ Hnd) in Hb.
    destruct (String.eqb (keyFn entry) a); [discriminate|].
    destruct (String.eqb (keyFn entry) b); [discriminate|].
    auto.
Qed.

Lemma represents_apply n mem this op :
  KeyedSet.represents keyFn n mem (KeyedSet.map this) ->
  KeyedSet.represents keyFn (S n)
    (KeyedSet.stamp keyFn (n, mem) op).2
    (KeyedSet.map (KeyedSet.apply keyFn this op)).
Proof.
  destruct op as [entry|entry|].
  - apply represents_add.
  - apply represents_delete.
  - intros _. split; simpl; [reflexivity | discriminate | constructor].
Qed.

Lemma represents_fold ops : forall n mem this,
  KeyedSet.represents keyFn n mem (KeyedSet.map this) ->
  KeyedSet.represents keyFn (n + length ops)
    (KeyedSet.members_from keyFn (n, mem) ops)
    (KeyedSet.map (fold_left (KeyedSet.apply keyFn) ops this)).
Proof.
  induction ops as [|op ops IH]; intros n mem this Hrep; simpl.
  - rewrite Nat.add_0_r. exact Hrep.
  - apply (represents_apply _ _ _ op) in Hrep.
    apply IH in Hrep. rewrite Nat.add_succ_r. exact Hrep.
Qed.

Lemma represents_after ops :
  KeyedSet.represents keyFn (length ops) (KeyedSet.members keyFn ops)
    (KeyedSet.map (KeyedSet.after keyFn ops)).
Proof.
  apply (represents_fold ops 0 (fun _ => None) KeyedSet.new), represents_new.
Qed.

(** The members of a set that represents [mem] are the values [mem] holds,
    each under its own key. *)
Lemma represents_entries n mem this u :
  KeyedSet.represents keyFn n mem (KeyedSet.map this) ->
  In u (KeyedSet.entries this) <-> exists i, mem (keyFn u) = Some (i, u).
Proof.
  intros Hrep. pose proof Hrep as [Hget Hkey _].
  pose proof (represents_NoDup _ _ _ Hrep) as Hnd.
  unfold KeyedSet.entries, JsMap.values. split.
  - intros Hin. apply in_map_iff in Hin as ([k v] & <- & Hin). simpl.
    apply (JsMap_In_get _ _ _ Hnd) in Hin. rewrite Hget in Hin.
    destruct (mem k) as [[i x]|] eqn:E; [|discriminate]. injection Hin as ->.
    destruct (Hkey _ _ _ E) as [_ ->]. eauto.
  - intros [i Hi]. apply in_map_iff. exists (keyFn u, u). split; [reflexivity|].
    apply JsMap_get_In. rewrite Hget, Hi. reflexivity.
Qed.

Lemma represents_entries_keys n mem this :
  KeyedSet.represents keyFn n mem (KeyedSet.map this) ->
  map keyFn (KeyedSet.entries this) = JsMap.keys (KeyedSet.map this).
Proof.
  intros Hrep. pose proof (represents_NoDup _ _ _ Hrep) as Hnd.
  destruct Hrep as [Hget Hkey _].
  unfold KeyedSet.entries, JsMap.values, JsMap.keys. rewrite map_map.
  apply map_ext_in. intros [k v] Hin. simpl.
  apply (JsMap_In_get _ _ _ Hnd) in Hin. rewrite Hget in Hin.
  destruct (mem k) as [[i x]|] eqn:E; [|discriminate]. injection Hin as ->.
  apply (Hkey _ _ _ E).
Qed.

(** C10: in every state a set can be in (after any calls [ops] of [add],
    [delete] and [clear] on a new set), adding [v] makes [has(v)] and
    [hasKey(keyFn(v))] hold; adding [v'] under the key of [v] after that
    leaves the size as it is, makes [v'] a member and, unless they are the
    same value, [v] no member; no two members have the same key; and
    [entries()] lists the members, each the value last added under its key,
    in the order in which their keys became members. *)
Theorem KeyedSet_dedup_by_key ops (v v' : V) :
  let this := KeyedSet.after keyFn ops in
  KeyedSet.has keyFn v (KeyedSet.add keyFn v this) = true /\
  KeyedSet.hasKey (keyFn v) (KeyedSet.add keyFn v this) = true /\
  (keyFn v' = keyFn v ->
   KeyedSet.size (KeyedSet.add keyFn v' (KeyedSet.add keyFn v this))
     = KeyedSet.size (KeyedSet.add keyFn v this) /\
   In v' (KeyedSet.entries (KeyedSet.add keyFn v' (KeyedSet.add keyFn v this))) /\
   (v' <> v ->
    ~ In v (KeyedSet.entries (KeyedSet.add keyFn v' (KeyedSet.add keyFn v this))))) /\
  List.NoDup (map keyFn (KeyedSet.entries this)) /\
  StronglySorted (KeyedSet.inserted_before keyFn ops) (KeyedSet.entries this) /\
  (forall u, In u (KeyedSet.entries this)
             <-> exists i, KeyedSet.members keyFn ops (keyFn u) = Some (i, u)).
Proof.
  intros this. pose proof (represents_after ops) as Hrep. fold this in Hrep.
  split; [apply JsMap_has_set|]. split; [apply JsMap_has_set|].
  split; [|split; [|split]].
  - intros Hkey.
    pose proof (represents_add _ _ _ v' (represents_add _ _ _ v Hrep)) as Hrep2.
    split; [|split].
    + unfold KeyedSet.size. simpl. rewrite Hkey.
      now rewrite (JsMap_size_set (keyFn v) v'), JsMap_has_set.
    + apply (represents_entries _ _ _ v' Hrep2). simpl.
      rewrite Hkey, !String.eqb_refl.
      destruct (KeyedSet.members keyFn ops (keyFn v)) as [[j old]|]; eauto.
    + intros Hne Hin. apply (represents_entries _ _ _ v Hrep2) in Hin as [i Hi].
      simpl in Hi. rewrite Hkey, !String.eqb_refl in Hi.
      destruct (KeyedSet.members keyFn ops (keyFn v)) as [[j old]|]; congruence.
  - rewrite (represents_entries_keys _ _ _ Hrep).
    apply (represents_NoDup _ _ _ Hrep).
  - apply StronglySorted_map_inv with (f := keyFn) (R := KeyedSet.before (KeyedSet.members keyFn ops)).
    rewrite (represents_entries_keys _ _ _ Hrep). apply Hrep.
  - intros u. apply (represents_entries _ _ _ u Hrep).
Qed.

End KeyedSetProperties.

(** ** [JSON]: reading back what was written *)

Module JSONFacts.
Import JSON.

(** *** Strings *)

Lemma parse_string_body_escape c r :
  parse_string_body (escape_char c ++ r) = prepend c (parse_string_body r).
Proof.
  destruct c as [[] [] [] [] [] [] [] []]; reflexivity.
Qed.

Lemma parse_string_body_quote s rest :
  parse_string_body (flat_map escape_char (chars s) ++ dquote :: rest) = Some (s, rest).
Proof.
  induction s as [|c s IH].
  - reflexivity.
  - change (chars (String c s)) with (c :: chars s). simpl flat_map.
    rewrite <- app_assoc, parse_string_body_escape, IH. reflexivity.
Qed.

(** *** Digits *)

Lemma read_uint_chars d rest :
  no_digit_ahead rest -> read_uint (uint_chars d ++ rest) = (d, rest).
Proof.
  intros Hrest. induction d as [|d IH|d IH|d IH|d IH|d IH|d IH|d IH|d IH|d IH|d IH];
    simpl; try (rewrite IH; reflexivity).
  destruct rest as [|c rest]; [reflexivity|]. simpl in *. now rewrite Hrest.
Qed.

Lemma char_digit_char d : char_digit (digit_char d) = Some d.
Proof. destruct d; reflexivity. Qed.

Lemma char_digit_of c : char_digit c = None -> digit_of c = None.
Proof.
  destruct c as [[] [] [] [] [] [] [] []]; intros H; try discriminate H; reflexivity.
Qed.

Lemma number_ends_digits rest : number_ends rest -> digits_end rest.
Proof. destruct rest; [trivial|]. intros H. apply H. Qed.

Lemma number_ends_uint rest : number_ends rest -> no_digit_ahead rest.
Proof. destruct rest; [trivial|]. intros H. apply char_digit_of, H. Qed.

Lemma read_digits_chars ds rest :
  digits_end rest -> read_digits (map digit_char ds ++ rest) = (ds, rest).
Proof.
  intros Hrest. induction ds as [|d ds IH]; simpl.
  - destruct rest as [|c rest]; [reflexivity|]. simpl in *. now rewrite Hrest.
  - now rewrite char_digit_char, IH.
Qed.

Lemma map_digit_zeros m : map digit_char (repeat Number.d0 m) = repeat "0"%char m.
Proof. induction m; simpl; congruence. Qed.

Lemma rev_zeros m : rev (repeat Number.d0 m) = repeat Number.d0 m.
Proof.
  induction m as [|m IH]; [reflexivity|].
  simpl. rewrite IH. symmetry. apply repeat_cons.
Qed.

Lemma drop_zeros_zeros m s :
  Number.drop_zeros (repeat Number.d0 m ++ s) = Number.drop_zeros s.
Proof. induction m; simpl; auto. Qed.

Lemma drop_zeros_head d s :
  Number.is_d0 d = false -> Number.drop_zeros (d :: s) = d :: s.
Proof. destruct d; [discriminate|..]; reflexivity. Qed.

Lemma well_formed_shortest negative s n :
  Number.well_formed (Number.Finite negative s n) = true -> shortest s.
Proof.
  destruct s as [|d s']; [discriminate|]. simpl.
  intros H. apply andb_true_iff in H as [H1 H2].
  exists d, s'. repeat split; now apply negb_true_iff.
Qed.

Lemma rev_last_head (l : list Number.digit) d :
  l <> [] -> exists t, rev l = List.last l d :: t.
Proof.
  intros H. destruct (exists_last H) as (l' & a & ->).
  rewrite rev_app_distr, last_last. simpl. eauto.
Qed.

Lemma strip_zeros_shortest s m :
  shortest s -> Number.strip_zeros (s ++ repeat Number.d0 m) = s.
Proof.
  intros (d & s' & -> & Hd & Hlast). unfold Number.strip_zeros.
  rewrite rev_app_distr, rev_zeros, drop_zeros_zeros.
  destruct (rev_last_head (d :: s') d) as (t & E); [discriminate|].
  assert (Hl : List.last (d :: s') d = List.last s' d) by (destruct s'; reflexivity).
  rewrite Hl in E. rewrite E, drop_zeros_head by exact Hlast.
  rewrite <- E. apply rev_involutive.
Qed.

Lemma of_digits_shortest negative s n a b :
  shortest s ->
  Number.of_digits negative (repeat Number.d0 a ++ s ++ repeat Number.d0 b) n
  = Number.Finite negative s (n - Z.of_nat a).
Proof.
  intros Hs. unfold Number.of_digits. rewrite drop_zeros_zeros.
  pose proof (strip_zeros_shortest s b Hs) as Hstrip.
  destruct Hs as (d & s' & -> & Hd & Hlast).
  change ((d :: s') ++ repeat Number.d0 b) with (d :: s' ++ repeat Number.d0 b) in *.
  rewrite drop_zeros_head by exact Hd.
  rewrite Hstrip. f_equal. rewrite length_app, repeat_length. lia.
Qed.

Lemma of_digits_exact negative s n :
  shortest s -> Number.of_digits negative s n = Number.Finite negative s n.
Proof.
  intros Hs. pose proof (of_digits_shortest negative s n 0 0 Hs) as H.
  rewrite app_nil_r in H. cbn [repeat app] in H. rewrite H. f_equal. lia.
Qed.

(** *** Numbers *)

Lemma int_part_head d s : Number.is_d0 d = false -> int_part (d :: s) = true.
Proof. destruct d; [discriminate|..]; intros _; destruct s; reflexivity. Qed.

Lemma read_fraction_none rest : number_ends rest -> read_fraction rest = Some ([], rest).
Proof.
  destruct rest as [|c rest]; [reflexivity|]. intros (_ & Hdot & _).
  simpl. now rewrite Hdot.
Qed.

Lemma read_exponent_none rest : number_ends rest -> read_exponent rest = Some (0%Z, rest).
Proof.
  destruct rest as [|c rest]; [reflexivity|]. intros (_ & _ & He & HE).
  simpl. now rewrite He, HE.
Qed.

Lemma read_fraction_digits ds rest :
  ds <> [] -> digits_end rest ->
  read_fraction ("."%char :: map digit_char ds ++ rest) = Some (ds, rest).
Proof.
  intros Hds Hrest. unfold read_fraction.
  change (Ascii.eqb "."%char "."%char) with true. cbv iota.
  rewrite (read_digits_chars _ _ Hrest). destruct ds; [contradiction|reflexivity].
Qed.

Lemma read_exponent_digits_chars (negative : bool) a rest :
  no_digit_ahead rest ->
  read_exponent_digits negative (uint_chars (N.to_uint a) ++ rest)
  = Some (if negative then (- Z.of_N a)%Z else Z.of_N a, rest).
Proof.
  intros Hrest. unfold read_exponent_digits. rewrite (read_uint_chars _ _ Hrest).
  assert (Hnil : N.to_uint a <> Decimal.Nil).
  { destruct a; [discriminate|]. apply DecimalPos.Unsigned.to_uint_nonnil. }
  pose proof (DecimalN.Unsigned.of_to a) as Hof.
  destruct (N.to_uint a); [contradiction|..]; now rewrite Hof.
Qed.

Lemma read_exponent_chars e rest :
  no_digit_ahead rest ->
  read_exponent ("e"%char :: exponent_chars e ++ rest) = Some (e, rest).
Proof.
  intros Hrest. unfold exponent_chars, read_exponent.
  change (Ascii.eqb "e"%char "e"%char || Ascii.eqb "e"%char "E"%char) with true. cbv iota.
  destruct (Z.ltb_spec e 0) as [Hneg|Hpos]; simpl app; cbv iota.
  - change (Ascii.eqb "-"%char "+"%char) with false.
    change (Ascii.eqb "-"%char "-"%char) with true. cbv iota.
    rewrite (read_exponent_digits_chars true _ _ Hrest), N2Z.inj_abs_N.
    do 2 f_equal. lia.
  - change (Ascii.eqb "+"%char "+"%char) with true. cbv iota.
    rewrite (read_exponent_digits_chars false _ _ Hrest), N2Z.inj_abs_N.
    do 2 f_equal. lia.
Qed.

Lemma read_digits_stop ds c rest :
  char_digit c = None ->
  read_digits (map digit_char ds ++ c :: rest) = (ds, c :: rest).
Proof. intros Hc. now apply read_digits_chars. Qed.

Ltac same_place :=
  match goal with
  | |- Some (JNum (Number.Finite _ _ ?x), _) = Some (JNum (Number.Finite _ _ ?y), _) =>
      replace x with y; [reflexivity|]
  end.

Lemma read_digits_one d c t :
  char_digit c = None -> read_digits (digit_char d :: c :: t) = ([d], c :: t).
Proof. intros Hc. apply (read_digits_stop [d] c t Hc). Qed.

Lemma parse_number_scientific negative d s' n rest :
  shortest (d :: s') -> number_ends rest ->
  parse_number negative
    (match map digit_char (d :: s') with
     | [] => []
     | [c] => c :: "e"%char :: exponent_chars (n - 1)
     | c :: t => c :: "."%char :: t ++ "e"%char :: exponent_chars (n - 1)
     end ++ rest)
  = Some (JNum (Number.Finite negative (d :: s') n), rest).
Proof.
  intros Hs Hrest.
  pose proof (number_ends_uint _ Hrest) as Huint.
  assert (Hd : Number.is_d0 d = false) by (destruct Hs as (? & ? & [= <- <-] & ? & ?); auto).
  unfold parse_number. destruct s' as [|d' s']; cbn [map app].
  - rewrite read_digits_one by reflexivity.
    rewrite (int_part_head _ _ Hd).
    change (read_fraction ("e"%char :: ?t)) with (Some (@nil Number.digit, "e"%char :: t)).
    cbv iota. rewrite (read_exponent_chars _ _ Huint).
    cbn [app]. rewrite of_digits_exact by exact Hs. same_place. cbn [length]. lia.
  - rewrite read_digits_one by reflexivity.
    rewrite (int_part_head _ _ Hd).
    rewrite <- app_assoc. cbn [app].
    change (digit_char d' :: map digit_char s' ++ ?X) with (map digit_char (d' :: s') ++ X).
    rewrite read_fraction_digits; [|discriminate|reflexivity].
    cbn [app]. rewrite (read_exponent_chars _ _ Huint).
    cbn [app]. rewrite of_digits_exact by exact Hs. same_place. cbn [length]. lia.
Qed.

Ltac compare_places :=
  unfold finite_chars; cbv zeta;
  repeat match goal with
    | |- context [(?a <=? ?b)%Z] => destruct (Z.leb_spec a b)
    | |- context [(?a <? ?b)%Z] => destruct (Z.ltb_spec a b)
    end;
  cbn [andb]; try lia; reflexivity.

Lemma finite_chars_integer s n :
  (Z.of_nat (length s) <= n <= 21)%Z ->
  finite_chars s n
  = map digit_char s ++ repeat "0"%char (Z.to_nat (n - Z.of_nat (length s))).
Proof. intros H. compare_places. Qed.

Lemma finite_chars_point s n :
  (0 < n < Z.of_nat (length s))%Z -> (n <= 21)%Z ->
  finite_chars s n
  = firstn (Z.to_nat n) (map digit_char s) ++ "."%char :: skipn (Z.to_nat n) (map digit_char s).
Proof. intros H1 H2. compare_places. Qed.

Lemma finite_chars_small s n :
  s <> [] -> (-6 < n <= 0)%Z ->
  finite_chars s n
  = "0"%char :: "."%char :: repeat "0"%char (Z.to_nat (- n)) ++ map digit_char s.
Proof.
  intros Hs H. assert (1 <= Z.of_nat (length s))%Z by (destruct s; [contradiction|simpl; lia]).
  compare_places.
Qed.

Lemma finite_chars_scientific s n :
  s <> [] -> (21 < n \/ n <= -6)%Z ->
  finite_chars s n
  = match map digit_char s with
    | [] => []
    | [c] => c :: "e"%char :: exponent_chars (n - 1)
    | c :: t => c :: "."%char :: t ++ "e"%char :: exponent_chars (n - 1)
    end.
Proof.
  intros Hs H. assert (1 <= Z.of_nat (length s))%Z by (destruct s; [contradiction|simpl; lia]).
  compare_places.
Qed.

Lemma parse_number_finite negative s n rest :
  shortest s -> number_ends rest ->
  parse_number negative (finite_chars s n ++ rest)
  = Some (JNum (Number.Finite negative s n), rest).
Proof.
  intros Hs Hrest.
  pose proof (number_ends_digits _ Hrest) as Hdigits.
  pose proof (of_digits_shortest negative s) as Hof.
  pose proof (parse_number_scientific negative) as Hsci.
  destruct Hs as (d & s' & -> & Hd & Hlast).
  assert (Hs : shortest (d :: s')) by (exists d, s'; auto).
  assert (Hlen : Z.of_nat (length (d :: s')) = (1 + Z.of_nat (length s'))%Z)
    by (cbn [length]; lia).
  destruct (Z_le_gt_dec n (-6)) as [H6|H6];
    [|destruct (Z_le_gt_dec n 0) as [H0|H0];
      [|destruct (Z_le_gt_dec n 21) as [H21|H21];
        [destruct (Z_le_gt_dec (Z.of_nat (length (d :: s'))) n) as [Hk|Hk]|]]].
  - rewrite finite_chars_scientific by (try discriminate; lia). now apply Hsci.
  - (* zeros between the decimal point and the digits *)
    rewrite finite_chars_small by (try discriminate; lia).
    unfold parse_number. cbn [app].
    rewrite (read_digits_one Number.d0 "."%char) by reflexivity.
    cbn [int_part]. rewrite <- map_digit_zeros, <- app_assoc, app_assoc, <- map_app.
    rewrite read_fraction_digits; [| |exact Hdigits].
    + rewrite (read_exponent_none _ Hrest).
      change ([Number.d0] ++ repeat Number.d0 (Z.to_nat (- n)) ++ d :: s')
        with (repeat Number.d0 (S (Z.to_nat (- n))) ++ d :: s').
      rewrite <- (app_nil_r (d :: s')) at 1.
      change (@nil Number.digit) with (repeat Number.d0 0) at 1.
      rewrite (Hof _ _ _ Hs). same_place. cbn [length]. lia.
    + destruct (repeat _ _); discriminate.
  - (* the digits, and zeros up to the decimal point *)
    rewrite finite_chars_integer by lia.
    unfold parse_number.
    rewrite <- map_digit_zeros, <- map_app, (read_digits_chars _ _ Hdigits).
    cbn [app]. rewrite (int_part_head _ _ Hd).
    rewrite (read_fraction_none _ Hrest), (read_exponent_none _ Hrest).
    rewrite app_nil_r.
    change (d :: s' ++ ?z) with (repeat Number.d0 0 ++ (d :: s') ++ z).
    rewrite (Hof _ 0%nat _ Hs).
    rewrite !length_app, !repeat_length. same_place. lia.
  - (* the decimal point inside the digits *)
    rewrite finite_chars_point by lia.
    unfold parse_number.
    rewrite firstn_map, skipn_map, <- app_assoc. cbn [app].
    rewrite read_digits_stop by reflexivity.
    assert (Hn : exists j, Z.to_nat n = S j /\ (j < length s')%nat).
    { exists (Nat.pred (Z.to_nat n)). lia. }
    destruct Hn as (j & Hj & Hlt). rewrite Hj.
    cbn [firstn skipn]. rewrite (int_part_head _ _ Hd).
    rewrite read_fraction_digits; [| |exact Hdigits].
    + rewrite (read_exponent_none _ Hrest).
      change ((d :: firstn j s') ++ skipn j s') with (d :: firstn j s' ++ skipn j s').
      rewrite firstn_skipn, of_digits_exact by exact Hs.
      same_place. cbn [length]. rewrite length_firstn. lia.
    + intros E. apply (f_equal (@length _)) in E. rewrite length_skipn in E.
      cbn [length] in E. lia.
  - rewrite finite_chars_scientific by (try discriminate; lia). now apply Hsci.
Qed.

(** *** Values *)

Lemma value_start_plain c :
  value_start c = true ->
  is_ws c = false /\ Ascii.eqb c "]"%char = false /\ Ascii.eqb c "}"%char = false.
Proof.
  destruct c as [[] [] [] [] [] [] [] []]; intros H; try discriminate H;
    repeat split; reflexivity.
Qed.

Lemma finite_chars_head s n :
  shortest s ->
  exists c t D, finite_chars s n = c :: t /\ char_digit c = Some D.
Proof.
  intros (d & s' & -> & Hd & Hlast).
  assert (Hlen : Z.of_nat (length (d :: s')) = (1 + Z.of_nat (length s'))%Z)
    by (cbn [length]; lia).
  destruct (Z_le_gt_dec n (-6)) as [H6|H6];
    [|destruct (Z_le_gt_dec n 0) as [H0|H0];
      [|destruct (Z_le_gt_dec n 21) as [H21|H21];
        [destruct (Z_le_gt_dec (Z.of_nat (length (d :: s'))) n) as [Hk|Hk]|]]].
  - rewrite finite_chars_scientific by (try discriminate; lia).
    destruct s'; do 3 eexists; (split; [reflexivity|apply char_digit_char]).
  - rewrite finite_chars_small by (try discriminate; lia).
    do 3 eexists. split; reflexivity.
  - rewrite finite_chars_integer by lia.
    do 3 eexists. split; [reflexivity|apply char_digit_char].
  - rewrite finite_chars_point by lia.
    assert (Hn : exists j, Z.to_nat n = S j) by (exists (Nat.pred (Z.to_nat n)); lia).
    destruct Hn as [j ->].
    do 3 eexists. split; [reflexivity|apply char_digit_char].
  - rewrite finite_chars_scientific by (try discriminate; lia).
    destruct s'; do 3 eexists; (split; [reflexivity|apply char_digit_char]).
Qed.

Lemma value_start_digit c D : char_digit c = Some D -> value_start c = true.
Proof. intros H. unfold value_start. rewrite H. now rewrite !orb_true_r. Qed.

Lemma stringify_head v :
  js_value v ->
  exists c t, stringify_chars v = c :: t /\ value_start c = true.
Proof.
  destruct v as [|[]|x|s|l|l]; intros Hjs; try (do 2 eexists; split; reflexivity).
  destruct x as [|negative|negative|negative s n];
    try (destruct negative; do 2 eexists; split; reflexivity);
    try (do 2 eexists; split; reflexivity).
  apply well_formed_shortest in Hjs.
  destruct (finite_chars_head s n Hjs) as (c & t & D & E & HD).
  destruct negative; cbn [stringify_chars Number.is_finite number_chars].
  - do 2 eexists. split; reflexivity.
  - rewrite E. exists c, t. split; [reflexivity|]. exact (value_start_digit _ _ HD).
Qed.

Lemma parse_value_eq fuel s :
  parse_value (S fuel) s =
  match skip_ws s with
  | [] => None
  | c :: r =>
      if Ascii.eqb c "n"%char then
        match expect (chars "ull") r with Some r' => Some (JNull, r') | None => None end
      else if Ascii.eqb c "t"%char then
        match expect (chars "rue") r with Some r' => Some (JBool true, r') | None => None end
      else if Ascii.eqb c "f"%char then
        match expect (chars "alse") r with Some r' => Some (JBool false, r') | None => None end
      else if Ascii.eqb c dquote then
        match parse_string_body r with
        | Some (str, r') => Some (JStr str, r')
        | None => None
        end
      else if Ascii.eqb c "["%char then
        match skip_ws r with
        | [] => None
        | c' :: r' =>
            if Ascii.eqb c' "]"%char then Some (JArr [], r')
            else parse_elements fuel (c' :: r') []
        end
      else if Ascii.eqb c "{"%char then
        match skip_ws r with
        | [] => None
        | c' :: r' =>
            if Ascii.eqb c' "}"%char then Some (JObj [], r')
            else parse_members fuel (c' :: r') []
        end
      else if Ascii.eqb c "-"%char then parse_number true r
      else parse_number false (c :: r)
  end.
Proof. reflexivity. Qed.

Lemma parse_elements_eq fuel s acc :
  parse_elements (S fuel) s acc =
  match parse_value fuel s with
  | None => None
  | Some (v, r) =>
      match skip_ws r with
      | [] => None
      | c :: r' =>
          if Ascii.eqb c ","%char then parse_elements fuel r' (acc ++ [v])
          else if Ascii.eqb c "]"%char then Some (JArr (acc ++ [v]), r')
          else None
      end
  end.
Proof. reflexivity. Qed.

Lemma parse_members_eq fuel s acc :
  parse_members (S fuel) s acc =
  match skip_ws s with
  | [] => None
  | q :: r =>
      if Ascii.eqb q dquote then
        match parse_string_body r with
        | None => None
        | Some (key, r1) =>
            match skip_ws r1 with
            | [] => None
            | c1 :: r2 =>
                if Ascii.eqb c1 ":"%char then
                  match parse_value fuel r2 with
                  | None => None
                  | Some (v, r3) =>
                      match skip_ws r3 with
                      | [] => None
                      | c3 :: r4 =>
                          if Ascii.eqb c3 ","%char
                          then parse_members fuel r4 (object_set key v acc)
                          else if Ascii.eqb c3 "}"%char
                               then Some (JObj (object_set key v acc), r4)
                               else None
                      end
                  end
                else None
            end
        end
      else None
  end.
Proof. reflexivity. Qed.

Lemma parse_value_digit fuel c t D :
  char_digit c = Some D -> parse_value (S fuel) (c :: t) = parse_number false (c :: t).
Proof.
  destruct c as [[] [] [] [] [] [] [] []]; intros H; try discriminate H; reflexivity.
Qed.

Lemma parse_number_zero negative rest :
  number_ends rest ->
  parse_number negative ("0"%char :: rest) = Some (JNum (Number.Zero negative), rest).
Proof.
  intros Hrest. unfold parse_number.
  change ("0"%char :: rest) with (map digit_char [Number.d0] ++ rest).
  rewrite (read_digits_chars _ _ (number_ends_digits _ Hrest)). cbn [int_part].
  now rewrite (read_fraction_none _ Hrest), (read_exponent_none _ Hrest).
Qed.

Lemma parse_value_number fuel x rest :
  Number.well_formed x = true -> number_ends rest ->
  parse_value (S fuel) (stringify_chars (JNum x) ++ rest) = Some (image (JNum x), rest).
Proof.
  intros Hx Hrest. destruct x as [|negative|negative|negative s n].
  - reflexivity.
  - reflexivity.
  - change (stringify_chars (JNum (Number.Zero negative)) ++ rest) with ("0"%char :: rest).
    rewrite (parse_value_digit fuel "0"%char rest Number.d0 eq_refl).
    apply (parse_number_zero false _ Hrest).
  - apply well_formed_shortest in Hx. cbn [image].
    destruct negative; cbn [stringify_chars Number.is_finite number_chars].
    + change (parse_value (S fuel) (("-"%char :: finite_chars s n) ++ rest))
        with (parse_number true (finite_chars s n ++ rest)).
      now apply parse_number_finite.
    + destruct (finite_chars_head s n Hx) as (c & t & D & E & HD).
      rewrite E. cbn [app]. rewrite (parse_value_digit _ _ _ D HD).
      change (c :: t ++ rest) with ((c :: t) ++ rest). rewrite <- E.
      now apply parse_number_finite.
Qed.

Lemma parse_value_string fuel s rest :
  parse_value (S fuel) (quote s ++ rest) = Some (JStr s, rest).
Proof.
  unfold quote. rewrite parse_value_eq. simpl app. rewrite <- app_assoc. simpl app.
  change (skip_ws (dquote :: ?t)) with (dquote :: t).
  cbv beta iota. change (Ascii.eqb dquote "n"%char) with false.
  change (Ascii.eqb dquote "t"%char) with false.
  change (Ascii.eqb dquote "f"%char) with false.
  change (Ascii.eqb dquote dquote) with true. cbv beta iota.
  now rewrite parse_string_body_quote.
Qed.

(** *** Arrays and objects *)

Lemma JsMap_has_fresh {V} k (m : list (string * V)) :
  ~ In k (map fst m) -> JsMap.has k m = false.
Proof.
  induction m as [|[k0 v0] m IH]; simpl; intros Hk; [reflexivity|].
  destruct (String.eqb_spec k0 k) as [->|Hne]; [tauto|]. apply IH. tauto.
Qed.

Lemma js_ordered_app keys keys' : js_ordered (keys ++ keys') -> js_ordered keys.
Proof.
  induction keys as [|k keys IH]; simpl; [trivial|].
  intros [Hk Hrest]. split; [|now apply IH].
  destruct (array_index k); apply List.Forall_app in Hk; apply Hk.
Qed.

Lemma js_ordered_app_cons keys k keys' :
  js_ordered (keys ++ k :: keys') -> js_ordered (keys ++ [k]).
Proof.
  intros H. apply (js_ordered_app _ keys'). rewrite <- app_assoc. exact H.
Qed.

Lemma insert_index_last {V} i k (v : V) (m : list (string * V)) :
  array_index k = Some i -> js_ordered (map fst m ++ [k]) ->
  insert_index i k v m = m ++ [(k, v)].
Proof.
  intros Hi. induction m as [|[k0 v0] m IH]; simpl; [reflexivity|].
  intros [Hk0 Hrest]. destruct (array_index k0) as [j|].
  - apply List.Forall_app in Hk0 as [_ Hk]. apply List.Forall_cons_iff in Hk as [Hk _].
    rewrite Hi in Hk. destruct (N.ltb_spec i j) as [Hlt|Hge]; [lia|].
    now rewrite IH.
  - apply List.Forall_app in Hk0 as [_ Hk]. apply List.Forall_cons_iff in Hk as [Hk _].
    congruence.
Qed.

(** A property that comes next in the enumeration order is added at the
    end. *)
Lemma object_set_last {V} k (v : V) (m : list (string * V)) :
  ~ In k (map fst m) -> js_ordered (map fst m ++ [k]) ->
  object_set k v m = m ++ [(k, v)].
Proof.
  intros Hfresh Hord. unfold object_set. rewrite (JsMap_has_fresh _ _ Hfresh).
  destruct (array_index k) as [i|] eqn:Hi; [|reflexivity].
  now apply insert_index_last.
Qed.

Lemma parse_elements_comma fuel s acc v r :
  parse_value fuel s = Some (v, ","%char :: r) ->
  parse_elements (S fuel) s acc = parse_elements fuel r (acc ++ [v]).
Proof. intros H. rewrite parse_elements_eq, H. reflexivity. Qed.

Lemma parse_elements_close fuel s acc v r :
  parse_value fuel s = Some (v, "]"%char :: r) ->
  parse_elements (S fuel) s acc = Some (JArr (acc ++ [v]), r).
Proof. intros H. rewrite parse_elements_eq, H. reflexivity. Qed.

Lemma parse_members_key fuel k s acc :
  parse_members (S fuel) (quote k ++ ":"%char :: s) acc =
  match parse_value fuel s with
  | None => None
  | Some (v, r3) =>
      match skip_ws r3 with
      | [] => None
      | c3 :: r4 =>
          if Ascii.eqb c3 ","%char
          then parse_members fuel r4 (object_set k v acc)
          else if Ascii.eqb c3 "}"%char
               then Some (JObj (object_set k v acc), r4)
               else None
      end
  end.
Proof.
  rewrite parse_members_eq. unfold quote. simpl app. rewrite <- app_assoc. simpl app.
  change (skip_ws (dquote :: ?t)) with (dquote :: t). cbv beta iota.
  change (Ascii.eqb dquote dquote) with true. cbv beta iota.
  rewrite parse_string_body_quote. reflexivity.
Qed.

Lemma parse_members_comma fuel k s acc v r :
  parse_value fuel s = Some (v, ","%char :: r) ->
  parse_members (S fuel) (quote k ++ ":"%char :: s) acc
    = parse_members fuel r (object_set k v acc).
Proof. intros H. rewrite parse_members_key, H. reflexivity. Qed.

Lemma parse_members_close fuel k s acc v r :
  parse_value fuel s = Some (v, "}"%char :: r) ->
  parse_members (S fuel) (quote k ++ ":"%char :: s) acc
    = Some (JObj (object_set k v acc), r).
Proof. intros H. rewrite parse_members_key, H. reflexivity. Qed.

(** *** Fuel *)

Lemma length_join_comma (l : list (list ascii)) :
  fold_right (fun x acc => length x + acc) O l <= length (join_comma l).
Proof.
  induction l as [|x [|y l] IH]; simpl in *; [lia | lia |].
  rewrite length_app. simpl. lia.
Qed.

Lemma need_bound v : js_value v -> S (need v) <= 2 * length (stringify_chars v).
Proof.
  induction v as [|b|x|s|l IH|l IH] using json_ind'; intros Hjs.
  - simpl. lia.
  - destruct b; simpl; lia.
  - destruct (stringify_head (JNum x) Hjs) as (c & t & E & _). rewrite E. simpl. lia.
  - simpl. lia.
  - simpl. rewrite length_app. simpl.
    pose proof (length_join_comma (map stringify_chars l)) as Hlen.
    assert (fold_right (fun x acc => S (need x + acc)) O l
            <= 2 * fold_right (fun x acc => length x + acc) O (map stringify_chars l)).
    { clear Hlen. simpl in Hjs.
      induction IH as [|x l Hx Hl IHl]; simpl; [lia|].
      destruct Hjs as [Hjx Hjl]. specialize (Hx Hjx). specialize (IHl Hjl). lia. }
    lia.
  - change (need (JObj l))
      with (S (fold_right (fun kv acc => S (need (snd kv) + acc)) O l)).
    change (stringify_chars (JObj l))
      with ("{"%char :: join_comma (map member_chars l) ++ ["}"%char]).
    cbn [length]. rewrite length_app. cbn [length].
    pose proof (length_join_comma (map member_chars l)) as Hlen.
    assert (fold_right (fun kv acc => S (need (snd kv) + acc)) O l
            <= 2 * fold_right (fun x acc => length x + acc) O (map member_chars l)).
    { clear Hlen. destruct Hjs as (_ & _ & Hjs).
      induction IH as [|x l Hx Hl IHl]; cbn [fold_right map]; [lia|].
      destruct Hjs as [Hjx Hjl]. specialize (Hx Hjx). specialize (IHl Hjl).
      unfold member_chars at 1. rewrite length_app. cbn [length]. lia. }
    lia.
Qed.

Local Arguments quote : simpl never.
Local Arguments stringify_chars : simpl never.

Lemma parse_elements_stringify l :
  List.Forall reads_back l ->
  fold_right (fun x acc => js_value x /\ acc) True l ->
  forall x acc fuel rest,
    reads_back x -> js_value x ->
    fold_right (fun x acc => S (need x + acc)) O (x :: l) <= fuel ->
    parse_elements fuel (join_comma (map stringify_chars (x :: l)) ++ "]"%char :: rest) acc
      = Some (JArr (acc ++ map image (x :: l)), rest).
Proof.
  induction 1 as [|y l Hy Hl IH]; intros Hjs x acc fuel rest Hx Hjx Hfuel;
    simpl in Hfuel; (destruct fuel as [|fuel]; [lia|]).
  - simpl map. simpl join_comma.
    apply parse_elements_close, Hx; [exact Hjx | lia | repeat split].
  - destruct Hjs as [Hjy Hjl].
    change (map stringify_chars (x :: y :: l))
      with (stringify_chars x :: map stringify_chars (y :: l)).
    change (join_comma (stringify_chars x :: map stringify_chars (y :: l)))
      with (stringify_chars x ++ ","%char :: join_comma (map stringify_chars (y :: l))).
    rewrite <- app_assoc. simpl app.
    rewrite (parse_elements_comma _ _ _ (image x)
               (join_comma (map stringify_chars (y :: l)) ++ "]"%char :: rest)).
    + rewrite (IH Hjl y (acc ++ [image x]) fuel rest Hy Hjy); [|simpl; lia].
      now rewrite <- app_assoc.
    + apply Hx; [exact Hjx | lia | repeat split].
Qed.

Lemma parse_members_stringify l :
  List.Forall (fun kv => reads_back (snd kv)) l ->
  fold_right (fun kv acc => js_value (snd kv) /\ acc) True l ->
  forall kv acc fuel rest,
    reads_back (snd kv) -> js_value (snd kv) ->
    List.NoDup (map fst acc ++ map fst (kv :: l)) ->
    js_ordered (map fst acc ++ map fst (kv :: l)) ->
    fold_right (fun kv acc => S (need (snd kv) + acc)) O (kv :: l) <= fuel ->
    parse_members fuel (join_comma (map member_chars (kv :: l)) ++ "}"%char :: rest) acc
      = Some (JObj (acc ++ map (fun kv => (fst kv, image (snd kv))) (kv :: l)), rest).
Proof.
  induction 1 as [|kv' l Hy Hl IH]; intros Hjs [k v] acc fuel rest Hx Hjx Hnd Hord Hfuel;
    simpl in Hfuel, Hx, Hjx; (destruct fuel as [|fuel]; [lia|]);
    assert (Hfresh : ~ In k (map fst acc))
      by (intros Hin; apply List.NoDup_remove_2 in Hnd; apply Hnd, in_or_app; now left);
    assert (Hlast : js_ordered (map fst acc ++ [k]))
      by exact (js_ordered_app_cons _ _ _ Hord).
  - change (join_comma (map member_chars [(k, v)]))
      with (quote k ++ ":"%char :: stringify_chars v).
    rewrite <- app_assoc.
    change ((":"%char :: stringify_chars v) ++ "}"%char :: rest)
      with (":"%char :: stringify_chars v ++ "}"%char :: rest).
    rewrite (parse_members_close _ _ _ _ (image v) rest).
    + now rewrite (object_set_last _ _ _ Hfresh Hlast).
    + apply Hx; [exact Hjx | lia | repeat split].
  - destruct Hjs as [Hjy Hjl].
    change (join_comma (map member_chars ((k, v) :: kv' :: l)))
      with ((quote k ++ ":"%char :: stringify_chars v)
              ++ ","%char :: join_comma (map member_chars (kv' :: l))).
    rewrite <- !app_assoc.
    change ((":"%char :: stringify_chars v)
              ++ (","%char :: join_comma (map member_chars (kv' :: l))) ++ "}"%char :: rest)
      with (":"%char :: stringify_chars v
              ++ ","%char :: join_comma (map member_chars (kv' :: l)) ++ "}"%char :: rest).
    rewrite (parse_members_comma _ _ _ _ (image v)
               (join_comma (map member_chars (kv' :: l)) ++ "}"%char :: rest)).
    + rewrite (object_set_last _ _ _ Hfresh Hlast).
      rewrite (IH Hjl kv' (acc ++ [(k, image v)]) fuel rest Hy Hjy); [| | |simpl in *; lia].
      * now rewrite <- app_assoc.
      * rewrite map_app, <- app_assoc. exact Hnd.
      * rewrite map_app, <- app_assoc. exact Hord.
    + apply Hx; [exact Hjx | lia | repeat split].
Qed.

Lemma parse_value_array fuel c t :
  value_start c = true ->
  parse_value (S fuel) ("["%char :: c :: t) = parse_elements fuel (c :: t) [].
Proof.
  intros Hc. destruct (value_start_plain c Hc) as (Hws & Hclose & _).
  rewrite parse_value_eq.
  change (skip_ws ("["%char :: c :: t)) with ("["%char :: c :: t). cbv beta iota.
  change (Ascii.eqb "["%char "n"%char) with false.
  change (Ascii.eqb "["%char "t"%char) with false.
  change (Ascii.eqb "["%char "f"%char) with false.
  change (Ascii.eqb "["%char dquote) with false.
  change (Ascii.eqb "["%char "["%char) with true. cbv beta iota.
  change (skip_ws (c :: t)) with (if is_ws c then skip_ws t else c :: t).
  now rewrite Hws, Hclose.
Qed.

Lemma parse_value_object fuel t :
  parse_value (S fuel) ("{"%char :: dquote :: t) = parse_members fuel (dquote :: t) [].
Proof. reflexivity. Qed.

Lemma elements_head x l rest :
  js_value x ->
  exists c t,
    join_comma (map stringify_chars (x :: l)) ++ rest = c :: t /\ value_start c = true.
Proof.
  intros Hjs. destruct (stringify_head x Hjs) as (c & t & E & Hc).
  exists c. destruct l as [|y l]; simpl; rewrite E; eexists; split; try reflexivity; exact Hc.
Qed.

Lemma members_head kv l rest :
  exists t, join_comma (map member_chars (kv :: l)) ++ rest = dquote :: t.
Proof.
  destruct l as [|y l]; simpl; eexists; reflexivity.
Qed.

(** Every value reads back from its text as its image, whatever follows the
    text, as long as that does not continue a number. *)
Lemma parse_value_stringify v : reads_back v.
Proof.
  induction v as [|b|x|s|l IH|l IH] using json_ind';
    intros Hjs fuel rest Hfuel Hrest; simpl in Hfuel; (destruct fuel as [|fuel]; [lia|]).
  - reflexivity.
  - destruct b; reflexivity.
  - now apply parse_value_number.
  - apply parse_value_string.
  - destruct l as [|x l]; [reflexivity|].
    apply List.Forall_cons_iff in IH as [Hx Hl]. destruct Hjs as [Hjx Hjl].
    change (stringify_chars (JArr (x :: l)) ++ rest)
      with ("["%char :: (join_comma (map stringify_chars (x :: l)) ++ ["]"%char]) ++ rest).
    rewrite <- app_assoc. change (["]"%char] ++ rest) with ("]"%char :: rest).
    destruct (elements_head x l ("]"%char :: rest) Hjx) as (c & t & E & Hc).
    rewrite E, (parse_value_array _ _ _ Hc), <- E.
    apply (parse_elements_stringify l Hl Hjl x []); auto. simpl in *. lia.
  - destruct l as [|kv l]; [reflexivity|].
    apply List.Forall_cons_iff in IH as [Hx Hl]. destruct Hjs as (Hnd & Hord & Hjx & Hjl).
    change (stringify_chars (JObj (kv :: l)) ++ rest)
      with ("{"%char :: (join_comma (map member_chars (kv :: l)) ++ ["}"%char]) ++ rest).
    rewrite <- app_assoc. change (["}"%char] ++ rest) with ("}"%char :: rest).
    destruct (members_head kv l ("}"%char :: rest)) as (t & E).
    rewrite E, parse_value_object, <- E.
    apply (parse_members_stringify l Hl Hjl kv []); auto. simpl in *. lia.
Qed.

(** [JSON.parse(JSON.stringify(v))] is the image of [v]. *)
Lemma parse_stringify_image v : js_value v -> parse (stringify v) = Some (image v).
Proof.
  intros Hjs. unfold parse, stringify, chars.
  rewrite list_ascii_of_string_of_list_ascii.
  rewrite <- (app_nil_r (stringify_chars v)) at 2.
  rewrite (parse_value_stringify v Hjs); [reflexivity | | exact I].
  pose proof (need_bound v Hjs). lia.
Qed.

Lemma image_carried v : carried v = true -> image v = v.
Proof.
  induction v as [|b|x|s|l IH|l IH] using json_ind'; intros Hc; try reflexivity.
  - destruct x as [|negative|[]|negative s n]; try discriminate Hc; reflexivity.
  - cbn [image]. f_equal. cbn [carried] in Hc.
    induction IH as [|x l Hx Hl IHl]; [reflexivity|]. cbn [forallb map] in *.
    apply andb_true_iff in Hc as [Hcx Hcl]. now rewrite (Hx Hcx), (IHl Hcl).
  - cbn [image]. f_equal. cbn [carried] in Hc.
    induction IH as [|[k x] l Hx Hl IHl]; [reflexivity|]. cbn [forallb map fst snd] in *.
    apply andb_true_iff in Hc as [Hcx Hcl]. now rewrite (Hx Hcx), (IHl Hcl).
Qed.

(** [JSON.parse(JSON.stringify(v))] is [v], for a value that has no [NaN],
    no infinite number and no negative zero in it. *)
Lemma parse_stringify v : js_value v -> carried v = true -> parse (stringify v) = Some v.
Proof.
  intros Hjs Hc. rewrite (parse_stringify_image v Hjs). now rewrite (image_carried v Hc).
Qed.

End JSONFacts.

(** ** The runtime context *)

Lemma as_dependency_value d : as_dependency (dependency_value d) = Some d.
Proof. destruct d as [moduleName name outputs [] version]; reflexivity. Qed.

Lemma as_dependencies_value deps : as_dependencies (dependencies_value deps) = Some deps.
Proof.
  unfold as_dependencies, dependencies_value.
  induction deps as [|d deps IH]; [reflexivity|].
  cbn [map mapM]. rewrite as_dependency_value, IH. reflexivity.
Qed.

Lemma dependency_value_js d :
  JSON.js_value (JObj (rd_outputs d)) -> JSON.js_value (dependency_value d).
Proof.
  intros Hout. unfold dependency_value.
  change (List.NoDup ["moduleName"; "name"; "outputs"; "type"; "version"]
          /\ JSON.js_ordered ["moduleName"; "name"; "outputs"; "type"; "version"]
          /\ True /\ True /\ JSON.js_value (JObj (rd_outputs d)) /\ True /\ True /\ True).
  split.
  { repeat constructor; simpl; intuition discriminate. }
  split; [|tauto].
  cbn [JSON.js_ordered]. repeat split; repeat constructor.
Qed.

Lemma dependency_value_carried d :
  JSON.carried (JObj (rd_outputs d)) = true -> JSON.carried (dependency_value d) = true.
Proof.
  intros Hout. unfold dependency_value. cbn [JSON.carried forallb snd] in *.
  now rewrite Hout.
Qed.

Lemma dependencies_value_js deps :
  List.Forall (fun d => JSON.js_value (JObj (rd_outputs d))
                        /\ JSON.carried (JObj (rd_outputs d)) = true) deps ->
  JSON.js_value (dependencies_value deps) /\ JSON.carried (dependencies_value deps) = true.
Proof.
  unfold dependencies_value. induction 1 as [|d deps [Hjs Hc] Hdeps [IHjs IHc]].
  - split; [exact I|reflexivity].
  - split.
    + split; [now apply dependency_value_js|exact IHjs].
    + change (JSON.carried (dependency_value d)
              && JSON.carried (JArr (map dependency_value deps)) = true).
      now rewrite dependency_value_carried, IHc.
Qed.

Ltac evaluate_indices :=
  repeat match goal with
    | |- context [JSON.array_index ?k] =>
        let r := eval vm_compute in (JSON.array_index k) in
        change (JSON.array_index k) with r
    end;
  cbv beta iota.

(** C2: in the runtime context of a call with at least one dependency
    entity, whose outputs are JavaScript values without [NaN], infinite
    numbers and negative zeros, the dependency list is not empty, and the
    variable [GARDEN_DEPENDENCIES] holds a text that [JSON.parse] reads as
    an array of objects which are, property by property, the entries of the
    dependency list. *)
Theorem prepareRuntimeContext_dependencies_roundtrip (p : RuntimeContextParams) :
  (0 < entity_count (rcp_dependencies p))%nat ->
  List.Forall (fun d => JSON.js_value (JObj (rd_outputs d))
                        /\ JSON.carried (JObj (rd_outputs d)) = true)
              (rc_dependencies (prepareRuntimeContext p)) ->
  rc_dependencies (prepareRuntimeContext p) <> [] /\
  exists text parsed,
    envVars (prepareRuntimeContext p) !! "GARDEN_DEPENDENCIES" = Some (JStr text) /\
    JSON.parse text = Some parsed /\
    as_dependencies parsed = Some (rc_dependencies (prepareRuntimeContext p)).
Proof.
  intros Hcount Houtputs. split.
  - unfold prepareRuntimeContext. cbn [rc_dependencies].
    unfold entity_count in Hcount.
    destruct (dep_build (rcp_dependencies p)); [|discriminate].
    destruct (dep_service (rcp_dependencies p)); [|discriminate].
    destruct (dep_task (rcp_dependencies p)); [|discriminate].
    destruct (dep_test (rcp_dependencies p)); [|discriminate].
    simpl in Hcount. lia.
  - apply dependencies_value_js in Houtputs as [Hjs Hcarried].
    exists (JSON.stringify (dependencies_value (rc_dependencies (prepareRuntimeContext p)))),
           (dependencies_value (rc_dependencies (prepareRuntimeContext p))).
    split; [|split].
    + unfold prepareRuntimeContext. cbn [envVars rc_dependencies]. apply lookup_insert_eq.
    + now apply JSONFacts.parse_stringify.
    + apply as_dependencies_value.
Qed.

Lemma prepareRuntimeContext_dependencies_roundtrip_witness :
  rc_dependencies (prepareRuntimeContext test_params) <> [] /\
  exists text parsed,
    envVars (prepareRuntimeContext test_params) !! "GARDEN_DEPENDENCIES" = Some (JStr text) /\
    JSON.parse text = Some parsed /\
    as_dependencies parsed = Some (rc_dependencies (prepareRuntimeContext test_params)).
Proof.
  apply (prepareRuntimeContext_dependencies_roundtrip test_params).
  - vm_compute. lia.
  - set (deps := rc_dependencies (prepareRuntimeContext test_params)).
    vm_compute in deps. subst deps.
    repeat (apply List.Forall_cons || apply List.Forall_nil);
      (split; [|reflexivity]);
      (split; [repeat constructor; simpl; intuition discriminate|]);
      (split; [|cbn; repeat split; reflexivity]);
      cbn [JSON.js_ordered map fst];
      repeat split; repeat constructor; evaluate_indices; try reflexivity; exact I.
Defined.

(** C2, as it was stated: a service whose status has an output that is
    [NaN]. The dependency list is not empty, but the array that [JSON.parse]
    reads from [GARDEN_DEPENDENCIES] is not the dependency list: where the
    list has [NaN], it has [null]. So no text in that variable parses to the
    dependency list. *)
Lemma prepareRuntimeContext_dependencies_nan_counterexample :
  (0 < entity_count (rcp_dependencies nan_params))%nat /\
  rc_dependencies (prepareRuntimeContext nan_params)
  = [mkRuntimeDependency "module-b" "service-b" [("ratio", JNum Number.NaN)]
                         ServiceDependency "v-module-b"] /\
  exists text parsed,
    envVars (prepareRuntimeContext nan_params) !! "GARDEN_DEPENDENCIES" = Some (JStr text) /\
    JSON.parse text = Some parsed /\
    as_dependencies parsed
    = Some [mkRuntimeDependency "module-b" "service-b" [("ratio", JNull)]
                                ServiceDependency "v-module-b"] /\
    as_dependencies parsed <> Some (rc_dependencies (prepareRuntimeContext nan_params)) /\
    parsed <> dependencies_value (rc_dependencies (prepareRuntimeContext nan_params)) /\
    ~ (exists text' parsed',
         envVars (prepareRuntimeContext nan_params) !! "GARDEN_DEPENDENCIES"
         = Some (JStr text') /\
         JSON.parse text' = Some parsed' /\
         as_dependencies parsed'
         = Some (rc_dependencies (prepareRuntimeContext nan_params))).
Proof.
  split; [vm_compute; lia|]. split; [vm_compute; reflexivity|].
  eexists _, _. split; [vm_compute; reflexivity|].
  split; [vm_compute; reflexivity|].
  split; [vm_compute; reflexivity|].
  split; [vm_compute; discriminate|].
  split; [vm_compute; discriminate|].
  intros (text' & parsed' & Henv & Hparse & Hsame).
  vm_compute in Henv. injection Henv as <-.
  vm_compute in Hparse. injection Hparse as <-.
  vm_compute in Hsame. discriminate Hsame.
Qed.

Lemma KeyedSet_dedup_by_key_witness :
  let this := KeyedSet.after fst kv_ops in
  let twice := KeyedSet.add fst ("b", 8) (KeyedSet.add fst ("b", 7) this) in
  KeyedSet.size twice = KeyedSet.size (KeyedSet.add fst ("b", 7) this) /\
  In ("b", 8) (KeyedSet.entries twice) /\
  ~ In ("b", 7) (KeyedSet.entries twice) /\
  List.NoDup (map fst (KeyedSet.entries this)).
Proof.
  intros this twice.
  destruct (KeyedSet_dedup_by_key fst kv_ops ("b", 7) ("b", 8)) as (_ & _ & Hsame & Hnd & _).
  destruct (Hsame eq_refl) as (Hsize & Hin & Hout).
  split; [exact Hsize|]. split; [exact Hin|]. split; [|exact Hnd].
  apply Hout. discriminate.
Defined.

(** * Further properties of the embedded code *)

(** ** [KeyedSet]: deleting, adding again, clearing *)

Section JsMapMore.

Context {V : Type}.
Implicit Types (m : JsMap.t V) (k : string) (v : V).

Lemma JsMap_set_absent k v m :
  ~ In k (JsMap.keys m) -> JsMap.set k v m = m ++ [(k, v)].
Proof.
  unfold JsMap.keys. induction m as [|[k0 v0] m IH]; simpl; intros Hk; [reflexivity|].
  destruct (String.eqb_spec k0 k) as [->|Hne]; [tauto|].
  rewrite IH; tauto.
Qed.

Lemma JsMap_set_present k v m :
  List.NoDup (JsMap.keys m) -> In k (JsMap.keys m) ->
  JsMap.set k v m = map (fun kv => if String.eqb (fst kv) k then (fst kv, v) else kv) m.
Proof.
  unfold JsMap.keys. induction m as [|[k0 v0] m IH]; simpl; intros Hnd Hin; [tauto|].
  apply List.NoDup_cons_iff in Hnd as [Hnotin Hnd].
  destruct (String.eqb_spec k0 k) as [->|Hne].
  - f_equal. symmetry. rewrite <- (map_id m) at 2. apply map_ext_in.
    intros [k1 v1] H1. simpl.
    destruct (String.eqb_spec k1 k) as [->|]; [|reflexivity].
    exfalso. apply Hnotin. now apply (in_map fst) in H1.
  - f_equal. apply IH; [exact Hnd|]. destruct Hin; [congruence | assumption].
Qed.

Lemma JsMap_delete_filter k m :
  List.NoDup (JsMap.keys m) ->
  JsMap.delete k m = List.filter (fun kv => negb (String.eqb (fst kv) k)) m.
Proof.
  unfold JsMap.keys. induction m as [|[k0 v0] m IH]; simpl; intros Hnd; [reflexivity|].
  apply List.NoDup_cons_iff in Hnd as [Hnotin Hnd].
  destruct (String.eqb_spec k0 k) as [->|Hne]; simpl.
  - symmetry. apply List.forallb_filter_id. apply forallb_forall.
    intros [k1 v1] H1. simpl.
    destruct (String.eqb_spec k1 k) as [->|]; [|reflexivity].
    exfalso. apply Hnotin. now apply (in_map fst) in H1.
  - f_equal. now apply IH.
Qed.

Lemma JsMap_size_delete k m :
  JsMap.size (JsMap.delete k m)
    = if JsMap.has k m then pred (JsMap.size m) else JsMap.size m.
Proof.
  unfold JsMap.size. induction m as [|[k0 v0] m IH]; simpl; [reflexivity|].
  destruct (String.eqb k0 k); simpl; [reflexivity|].
  rewrite IH. destruct (JsMap.has k m) eqn:E; [|reflexivity].
  destruct m; [discriminate E | reflexivity].
Qed.

Lemma JsMap_delete_set_absent k v m :
  ~ In k (JsMap.keys m) -> JsMap.delete k (JsMap.set k v m) = m.
Proof.
  unfold JsMap.keys. induction m as [|[k0 v0] m IH]; simpl; intros Hk.
  - now rewrite String.eqb_refl.
  - destruct (String.eqb_spec k0 k) as [->|Hne]; [tauto|]. simpl.
    destruct (String.eqb_spec k0 k); [congruence|]. f_equal. apply IH. tauto.
Qed.

Lemma JsMap_get_delete_other k k' m :
  k <> k' -> JsMap.get k' (JsMap.delete k m) = JsMap.get k' m.
Proof.
  intros Hne. induction m as [|[k0 v0] m IH]; simpl; [reflexivity|].
  destruct (String.eqb_spec k0 k) as [->|Hk]; simpl.
  - destruct (String.eqb_spec k k'); [congruence | reflexivity].
  - now rewrite IH.
Qed.

End JsMapMore.

Section KeyedSetMore.

Context {V : Type}.
Variable keyFn : V -> string.

Implicit Types (this : KeyedSet.t V) (ops : list (KeyedSet.Op V)) (entry : V).

Lemma represents_keyed n mem this k u :
  KeyedSet.represents keyFn n mem (KeyedSet.map this) ->
  In (k, u) (KeyedSet.map this) -> keyFn u = k.
Proof.
  intros Hrep Hin. pose proof (represents_NoDup _ _ _ _ Hrep) as Hnd.
  destruct Hrep as [Hget Hkey _].
  apply (JsMap_In_get _ _ _ Hnd) in Hin. rewrite Hget in Hin.
  destruct (mem k) as [[i x]|] eqn:E; [|discriminate]. injection Hin as ->.
  apply (Hkey _ _ _ E).
Qed.

Lemma represents_has n mem this k :
  KeyedSet.represents keyFn n mem (KeyedSet.map this) ->
  JsMap.has k (KeyedSet.map this) = true <-> In k (JsMap.keys (KeyedSet.map this)).
Proof.
  intros _. rewrite JsMap_has_get, JsMap_keys_get.
  destruct (JsMap.get k (KeyedSet.map this)); split; eauto; try discriminate.
  intros [? ?]; discriminate.
Qed.

(** [delete(v)] answers whether a member with the key of [v] was there;
    afterwards there is none, one member less if there was one, and the
    other members are left in their order. *)
Theorem KeyedSet_delete_removes ops (v : V) :
  let this := KeyedSet.after keyFn ops in
  let found := (KeyedSet.delete keyFn v this).1 in
  let rest := (KeyedSet.delete keyFn v this).2 in
  found = KeyedSet.has keyFn v this /\
  KeyedSet.has keyFn v rest = false /\
  KeyedSet.size rest = (if found then pred (KeyedSet.size this) else KeyedSet.size this) /\
  KeyedSet.entries rest
    = List.filter (fun u => negb (String.eqb (keyFn u) (keyFn v))) (KeyedSet.entries this).
Proof.
  intros this found rest. pose proof (represents_after keyFn ops) as Hrep. fold this in Hrep.
  pose proof (represents_NoDup _ _ _ _ Hrep) as Hnd.
  split; [reflexivity|]. split; [|split].
  - unfold KeyedSet.has, rest. simpl.
    now rewrite JsMap_has_get, (JsMap_get_delete _ _ _ Hnd), String.eqb_refl.
  - unfold KeyedSet.size, rest, found. simpl. apply JsMap_size_delete.
  - unfold KeyedSet.entries, JsMap.values, rest. simpl.
    rewrite (JsMap_delete_filter _ _ Hnd).
    assert (Hkeyed : forall kv, In kv (KeyedSet.map this) -> keyFn (snd kv) = fst kv).
    { intros [k u] Hin. simpl. eapply represents_keyed; eauto. }
    clear Hnd Hrep found rest. induction (KeyedSet.map this) as [|[k u] m IH]; [reflexivity|].
    pose proof (Hkeyed (k, u) (or_introl eq_refl)) as Eu. simpl in Eu. simpl. rewrite Eu.
    destruct (String.eqb k (keyFn v)); simpl; [|f_equal];
      apply IH; intros kv Hin; apply Hkeyed; now right.
Qed.

(** [add(v)] puts [v] at the end when no member has its key, and otherwise
    in the place of the member that has it; only in the first case does the
    set grow. *)
Theorem KeyedSet_add_places ops (v : V) :
  let this := KeyedSet.after keyFn ops in
  KeyedSet.entries (KeyedSet.add keyFn v this)
    = (if KeyedSet.has keyFn v this
       then map (fun u => if String.eqb (keyFn u) (keyFn v) then v else u)
                (KeyedSet.entries this)
       else KeyedSet.entries this ++ [v]) /\
  KeyedSet.size (KeyedSet.add keyFn v this)
    = (if KeyedSet.has keyFn v this then KeyedSet.size this else S (KeyedSet.size this)).
Proof.
  intros this. pose proof (represents_after keyFn ops) as Hrep. fold this in Hrep.
  pose proof (represents_NoDup _ _ _ _ Hrep) as Hnd.
  split; [|apply JsMap_size_set].
  unfold KeyedSet.entries, JsMap.values, KeyedSet.has. simpl.
  destruct (JsMap.has (keyFn v) (KeyedSet.map this)) eqn:Ehas.
  - rewrite (JsMap_set_present _ _ _ Hnd) by (eapply represents_has; eauto).
    rewrite !map_map. apply map_ext_in. intros [k u] Hin. simpl.
    rewrite (represents_keyed _ _ _ _ _ Hrep Hin).
    destruct (String.eqb k (keyFn v)); reflexivity.
  - rewrite JsMap_set_absent, map_app; [reflexivity|].
    intros Hin. eapply represents_has in Hin; eauto. congruence.
Qed.

(** Deleting what was just added under a key that had no member gives the
    set back as it was. *)
Theorem KeyedSet_add_delete ops (v : V) :
  let this := KeyedSet.after keyFn ops in
  KeyedSet.has keyFn v this = false ->
  KeyedSet.delete keyFn v (KeyedSet.add keyFn v this) = (true, this).
Proof.
  intros this Hhas. unfold KeyedSet.delete, KeyedSet.add. simpl.
  rewrite JsMap_has_set, JsMap_delete_set_absent; [destruct this; reflexivity|].
  intros Hin. pose proof (represents_after keyFn ops) as Hrep.
  eapply represents_has in Hin; eauto. unfold KeyedSet.has in Hhas. fold this in Hin. congruence.
Qed.

(** Membership is by key: [has(u)] holds exactly when some member has the
    key of [u], whether or not that member is [u]. *)
Theorem KeyedSet_has_by_key ops (u : V) :
  let this := KeyedSet.after keyFn ops in
  KeyedSet.has keyFn u this = true
  <-> exists w, In w (KeyedSet.entries this) /\ keyFn w = keyFn u.
Proof.
  intros this. pose proof (represents_after keyFn ops) as Hrep. fold this in Hrep.
  unfold KeyedSet.has. rewrite (represents_has _ _ _ _ Hrep).
  rewrite <- (represents_entries_keys _ _ _ _ Hrep), in_map_iff.
  split; intros (w & H1 & H2); exists w; tauto.
Qed.

(** [clear()] forgets everything: what a set is after it only depends on
    the calls made since. *)
Theorem KeyedSet_clear_forgets ops ops' :
  KeyedSet.after keyFn (ops ++ KeyedSet.Clear :: ops') = KeyedSet.after keyFn ops'.
Proof.
  unfold KeyedSet.after. rewrite fold_left_app. reflexivity.
Qed.

(** Adding or deleting under one key does not change whether another key
    has a member. *)
Theorem KeyedSet_other_keys this (u v : V) :
  keyFn u <> keyFn v ->
  KeyedSet.has keyFn u (KeyedSet.add keyFn v this) = KeyedSet.has keyFn u this /\
  KeyedSet.has keyFn u (KeyedSet.delete keyFn v this).2 = KeyedSet.has keyFn u this.
Proof.
  intros Hne. unfold KeyedSet.has. simpl. rewrite !JsMap_has_get. split.
  - rewrite JsMap_get_set. destruct (String.eqb_spec (keyFn v) (keyFn u)); [congruence|reflexivity].
  - rewrite JsMap_get_delete_other; [reflexivity | congruence].
Qed.

End KeyedSetMore.

Lemma KeyedSet_add_delete_witness :
  KeyedSet.delete fst ("z", 9) (KeyedSet.add fst ("z", 9) (KeyedSet.after fst kv_ops))
    = (true, KeyedSet.after fst kv_ops).
Proof.
  apply (KeyedSet_add_delete fst kv_ops ("z", 9)). reflexivity.
Defined.

Lemma KeyedSet_other_keys_witness :
  KeyedSet.has fst ("a", 0) (KeyedSet.add fst ("q", 1) (KeyedSet.after fst kv_ops)) = true /\
  KeyedSet.has fst ("a", 0) (KeyedSet.delete fst ("b", 1) (KeyedSet.after fst kv_ops)).2 = true.
Proof.
  destruct (KeyedSet_other_keys fst (KeyedSet.after fst kv_ops) ("a", 0) ("q", 1)) as [H1 _];
    [discriminate|].
  destruct (KeyedSet_other_keys fst (KeyedSet.after fst kv_ops) ("a", 0) ("b", 1)) as [_ H2];
    [discriminate|].
  split; [rewrite H1 | rewrite H2]; reflexivity.
Defined.

(** ** [BuildTask.process] and [getBuildTasks]: misses, failures, order *)

Section BuildTaskMore.

Context {W : Type}.
Variable getModuleKey : string -> option string -> string.

Abbreviation process' := (process getModuleKey).
Abbreviation getDependencies' := (getDependencies getModuleKey).
Abbreviation getBuildTasks' := (getBuildTasks getModuleKey).
Abbreviation getName' := (getName getModuleKey).

Implicit Types (t : @BuildTask W) (w : W).

Ltac unfold_eff' :=
  unfold Eff.run, Eff.bind, Eff.try_catch, Eff.call, Eff.emit, Eff.ret, Eff.throw in *.

Ltac step_ext' :=
  match goal with
  | |- context [let '(_, _) := ?f ?w in _] =>
      let e := fresh "e" in let a := fresh "a" in
      let w' := fresh "w" in let H := fresh "Hcall" in
      destruct (f w) as [[e|a] w'] eqn:H; simpl in *
  end.

Ltac in_trace' :=
  repeat match goal with
    | H : In _ _ |- _ => simpl in H
    | H : _ \/ _ |- _ => destruct H
    | H : False |- _ => destruct H
    | H : _ = _ :> Event |- _ => (discriminate H || (injection H as ?; subst))
    end;
  try congruence.

(** All the runs of [process]: unfold, and split on the outcome of every
    call. *)
Ltac all_runs t :=
  unfold process; destruct (force t) eqn:?; unfold_eff'; simpl;
  repeat step_ext';
  repeat match goal with
    | |- context [ready ?st] => destruct st as [[|]]; simpl in *
    | _ => step_ext'
    end.

(** A cache miss: when the task is not forced and the probe reports the
    version not ready, the build action is called next, once, and what it
    returns or raises is what [process] returns or raises. *)
Theorem process_cache_miss t w m :
  In (EvGetBuildStatus m (inr (mkBuildStatus false))) (Eff.trace (Eff.run (process' t) w).2) ->
  exists r,
    (Eff.run (process' t) w).1 = r /\
    filter is_backend_action (Eff.trace (Eff.run (process' t) w).2)
      = [EvGetBuildStatus (module t) (inr (mkBuildStatus false)); EvBuild (module t) r].
Proof.
  all_runs t; intros Hin; in_trace'; eexists; split; reflexivity.
Qed.

(** No action of the backend before the workspace is prepared: a run in
    which the status is asked for or the build is called has started with
    the router, the graph, the source sync and the copy of the dependency
    products, in this order. *)
Theorem process_backend_after_sync t w ev :
  In ev (Eff.trace (Eff.run (process' t) w).2) ->
  is_backend_action ev = true ->
  exists rest,
    Eff.trace (Eff.run (process' t) w).2
      = [EvGetActionRouter;
         EvLogInfo (getName' t) (length (files (module_version (module t))));
         EvGetConfigGraph;
         EvSyncFromSrc (module t);
         EvSyncDependencyProducts (module t)] ++ rest /\
    ~ In (EvSyncFromSrc (module t)) rest /\
    ~ In (EvSyncDependencyProducts (module t)) rest.
Proof.
  all_runs t; intros Hin Hev; simpl in Hin;
    repeat (destruct Hin as [<-|Hin]; [try discriminate Hev|]); try (destruct Hin);
    (eexists; split; [reflexivity|]; split; intros Hin'; in_trace').
Qed.

(** When the source sync raises, [process] raises the same error, the
    dependency products are not copied and the backend is not asked for
    anything. *)
Theorem process_sync_failure t w actions graph w1 w2 w3 err :
  getActionRouter (garden t) w = (inr actions, w1) ->
  getConfigGraph (garden t) w1 = (inr graph, w2) ->
  syncFromSrc (buildDir (garden t)) (module t) w2 = (inl err, w3) ->
  Eff.run (process' t) w
    = (inl err,
       Eff.mkState w3
         [EvGetActionRouter;
          EvLogInfo (getName' t) (length (files (module_version (module t))));
          EvGetConfigGraph;
          EvSyncFromSrc (module t)]).
Proof.
  intros H1 H2 H3. unfold process. unfold_eff'. simpl.
  rewrite H1. simpl. rewrite H2. simpl. rewrite H3. reflexivity.
Qed.

(** When the status probe itself raises, [process] raises the same error
    without building; the log entry is left neither in its success nor in
    its error state. *)
Theorem process_status_failure t w m err :
  In (EvGetBuildStatus m (inl err)) (Eff.trace (Eff.run (process' t) w).2) ->
  (Eff.run (process' t) w).1 = inl err /\
  (forall m' r, ~ In (EvBuild m' r) (Eff.trace (Eff.run (process' t) w).2)) /\
  ~ In EvLogSetSuccess (Eff.trace (Eff.run (process' t) w).2) /\
  ~ In EvLogSetError (Eff.trace (Eff.run (process' t) w).2).
Proof.
  all_runs t; intros Hin; in_trace';
    (split; [reflexivity|]); split; [|split]; repeat intro; in_trace'.
Qed.

(** The log entry tells the outcome: it is set to success exactly on the
    runs that return, and to its error state only on runs in which the build
    action raised. *)
Theorem process_log_outcome t w :
  (In EvLogSetSuccess (Eff.trace (Eff.run (process' t) w).2)
   <-> exists r, (Eff.run (process' t) w).1 = inr r) /\
  (In EvLogSetError (Eff.trace (Eff.run (process' t) w).2)
   -> exists err, (Eff.run (process' t) w).1 = inl err /\
                  In (EvBuild (module t) (inl err)) (Eff.trace (Eff.run (process' t) w).2)).
Proof.
  all_runs t; (split; [split|]); intros H; in_trace';
    try (eexists; reflexivity);
    try (simpl; tauto);
    try (eexists; split; [reflexivity|]; simpl; tauto);
    destruct H as [r H]; discriminate H.
Qed.

(** Whatever [getBuildTasks] returns, the task of the module or those of
    its dependencies: every task is for the same garden, has the force flag
    of the parameters, and carries the version of its own module. *)
Theorem getBuildTasks_tasks (params : @BuildTaskParams W) w tasks :
  (Eff.run (getBuildTasks' params) w).1 = inr tasks ->
  Forall (fun t => garden t = p_garden params /\
                   force t = p_force params /\
                   fromWatch t = default false (p_fromWatch params) /\
                   hotReloadServiceNames t = default [] (p_hotReloadServiceNames params) /\
                   version t = module_version (module t))
         tasks.
Proof.
  unfold getBuildTasks, getDependencies. unfold_eff'. simpl.
  destruct (existsb hasCopy _); simpl.
  - intros [= <-]. repeat constructor.
  - repeat step_ext'; intros H; try discriminate H; injection H as <-.
    + induction (rel_build _); simpl; constructor; auto; repeat split.
    + repeat constructor.
Qed.

End BuildTaskMore.

Lemma process_cache_miss_witness :
  exists r,
    (Eff.run (process demo_getModuleKey (demo_task web_module false)) (mkDemoWorld [] [])).1 = r /\
    filter is_backend_action
           (Eff.trace (Eff.run (process demo_getModuleKey (demo_task web_module false))
                               (mkDemoWorld [] [])).2)
      = [EvGetBuildStatus web_module (inr (mkBuildStatus false)); EvBuild web_module r].
Proof.
  apply (process_cache_miss demo_getModuleKey (demo_task web_module false)
                            (mkDemoWorld [] []) web_module).
  vm_compute. do 6 right. left. reflexivity.
Defined.

Lemma process_backend_after_sync_witness :
  exists rest,
    Eff.trace (Eff.run (process demo_getModuleKey (demo_task web_module true)) demo_built_world).2
      = [EvGetActionRouter; EvLogInfo "web" 2; EvGetConfigGraph;
         EvSyncFromSrc web_module; EvSyncDependencyProducts web_module] ++ rest /\
    ~ In (EvSyncFromSrc web_module) rest /\
    ~ In (EvSyncDependencyProducts web_module) rest.
Proof.
  apply (process_backend_after_sync demo_getModuleKey (demo_task web_module true)
           demo_built_world
           (EvBuild web_module (inr (mkBuildResult (Some true) (Some "ok") None None)))).
  - vm_compute. do 6 right. left. reflexivity.
  - reflexivity.
Defined.

Lemma process_sync_failure_witness :
  let t := newBuildTask (mkBuildTaskParams readonly_garden web_module false None None) in
  Eff.run (process demo_getModuleKey t) demo_built_world
    = (inl (mkExn ForeignError "EROFS: read-only file system"),
       Eff.mkState demo_built_world
         [EvGetActionRouter; EvLogInfo "web" 2; EvGetConfigGraph; EvSyncFromSrc web_module]).
Proof.
  apply (process_sync_failure demo_getModuleKey
           (newBuildTask (mkBuildTaskParams readonly_garden web_module false None None))
           demo_built_world demo_actions demo_graph demo_built_world demo_built_world
           demo_built_world); reflexivity.
Defined.

Lemma process_status_failure_witness :
  let t := newBuildTask (mkBuildTaskParams offline_garden web_module false None None) in
  (Eff.run (process demo_getModuleKey t) demo_built_world).1
    = inl (mkExn ForeignError "connection refused") /\
  (forall m' r,
      ~ In (EvBuild m' r) (Eff.trace (Eff.run (process demo_getModuleKey t) demo_built_world).2)).
Proof.
  intros t.
  destruct (process_status_failure demo_getModuleKey t demo_built_world web_module
              (mkExn ForeignError "connection refused")) as (H1 & H2 & _).
  - vm_compute. do 6 right. left. reflexivity.
  - split; [exact H1 | exact H2].
Defined.

Lemma getBuildTasks_tasks_witness :
  Forall (fun t : @BuildTask DemoWorld =>
            garden t = demo_garden /\ force t = true /\ fromWatch t = false /\
            hotReloadServiceNames t = [] /\ version t = module_version (module t))
         [demo_task lib_module true].
Proof.
  apply (getBuildTasks_tasks demo_getModuleKey
           (mkBuildTaskParams demo_garden meta_module true None None) demo_built_world).
  vm_compute. reflexivity.
Defined.

(** ** [resolveModuleConfig]: what happens around the configure handler *)

Section ResolveModuleMore.

Variable Schema : Type.
Variable ConfigContext : Type.
Variable getModuleKey : string -> option string -> string.
Variable relative : string -> string -> string.
Variable schema_unknown : Schema -> bool -> Schema.
Variable moduleConfigSchema : Schema.
Variable validateWithPath : forall T : Type, ValidateParams Schema T -> Eff.Outcome T.
Variable resolveTemplateStrings :
  ModuleConfig -> ConfigContext -> ModuleConfigResolveOpts ConfigContext ->
  Eff.Outcome ModuleConfig.
Variable getModuleTypeBases :
  option (Property (ModuleTypeDefinition Schema)) -> gmap string (ModuleTypeDefinition Schema) ->
  Eff.Outcome (list (ModuleTypeDefinition Schema)).

Abbreviation resolveModuleConfig'' :=
  (resolveModuleConfig Schema ConfigContext getModuleKey relative schema_unknown
                       moduleConfigSchema validateWithPath resolveTemplateStrings
                       getModuleTypeBases).
Abbreviation validateAgainstBases'' :=
  (validateAgainstBases Schema ConfigContext schema_unknown validateWithPath).

Implicit Types (garden : ResolveGarden Schema ConfigContext) (config : ModuleConfig).

Ltac bind_step H :=
  match type of H with
  | Err.bind ?m _ = inr _ =>
      let e := fresh "e" in let c := fresh "c" in let E := fresh "E" in
      destruct m as [e|c] eqn:E; simpl in H; [discriminate H|]
  end.

Ltac opt_step E :=
  match type of E with
  | match ?o with Some _ => _ | None => _ end = inr _ =>
      destruct o; simpl in E;
      [ match type of E with
        | Err.bind ?m _ = inr _ => destruct m; simpl in E; [discriminate E|]
        end |];
      injection E as <-
  end.

Lemma validateAgainstBases_fields garden bases config config' :
  validateAgainstBases'' garden bases config = inr config' ->
  same_module config config' /\
  cfg_name config' = cfg_name config /\
  cfg_serviceConfigs config' = cfg_serviceConfigs config /\
  cfg_taskConfigs config' = cfg_taskConfigs config /\
  cfg_testConfigs config' = cfg_testConfigs config.
Proof.
  revert config. induction bases as [|base rest IH]; intros config H; simpl in H.
  - injection H as <-. repeat split.
  - bind_step H. bind_step H. apply IH in H.
    opt_step E; opt_step E0; exact H.
Qed.

(** The validation against the bases of a module type only touches [spec]
    and [outputs]; against bases that bring no schema it is the identity, and
    does not validate anything. *)
Theorem validateAgainstBases_keeps garden bases config :
  (forall config',
      validateAgainstBases'' garden bases config = inr config' ->
      same_module config config' /\
      cfg_name config' = cfg_name config /\
      cfg_serviceConfigs config' = cfg_serviceConfigs config /\
      cfg_taskConfigs config' = cfg_taskConfigs config /\
      cfg_testConfigs config' = cfg_testConfigs config) /\
  (Forall (fun base => mtd_schema Schema base = None
                       /\ mtd_moduleOutputsSchema Schema base = None) bases ->
   validateAgainstBases'' garden bases config = inr config).
Proof.
  split.
  - intros config'. apply validateAgainstBases_fields.
  - intros Hnone. revert config. induction Hnone as [|base rest [H1 H2] _ IH]; intros config.
    + reflexivity.
    + simpl. rewrite H1, H2. simpl. apply IH.
Qed.

(** The stages of a run that returns: validation against the base schema,
    fetching of remote sources, the configure handler, and what is made of
    its answer. *)
Lemma resolveModuleConfig_stages garden config opts result :
  resolveModuleConfig'' garden config opts = inr result ->
  exists p validated router given configured,
    v_schema Schema ModuleConfig p = moduleConfigSchema /\
    validateWithPath ModuleConfig p = inr validated /\
    getConfigureRouter Schema ConfigContext garden = inr router /\
    configureModule router given = inr configured /\
    match truthy (cfg_repositoryUrl validated) with
    | Some repositoryUrl =>
        exists path,
          loadExtSourcePath Schema ConfigContext garden (cfg_name validated)
                            repositoryUrl "module" = inr path /\
          given = set_path validated path
    | None => given = validated
    end /\
    same_module configured result /\
    cfg_name result = getModuleKey (cfg_name configured) (cfg_plugin configured) /\
    match truthy (cfg_plugin configured) with
    | Some _ =>
        cfg_serviceConfigs result
          = map (qualify getModuleKey (cfg_plugin configured)) (cfg_serviceConfigs configured) /\
        cfg_taskConfigs result
          = map (qualify getModuleKey (cfg_plugin configured)) (cfg_taskConfigs configured) /\
        cfg_testConfigs result
          = map (qualify getModuleKey (cfg_plugin configured)) (cfg_testConfigs configured)
    | None =>
        cfg_serviceConfigs result = cfg_serviceConfigs configured /\
        cfg_taskConfigs result = cfg_taskConfigs configured /\
        cfg_testConfigs result = cfg_testConfigs configured
    end.
Proof.
  intros H. unfold resolveModuleConfig in H.
  bind_step H. bind_step H. bind_step H.
  destruct (get_property _ (cfg_type _)) as [description|]; [|discriminate].
  bind_step H.
  match type of H with
  | Err.bind (validateWithPath ModuleConfig ?q) _ = _ =>
      set (p := q) in *;
      destruct (validateWithPath ModuleConfig p) as [e|validated] eqn:Eval;
      simpl in H; [discriminate|]
  end.
  match type of H with
  | Err.bind ?m _ = inr _ =>
      destruct m as [e|given] eqn:Egiven; simpl in H; [discriminate H|]
  end.
  destruct (getConfigureRouter Schema ConfigContext garden) as [e|router] eqn:Erouter;
    simpl in H; [discriminate|].
  destruct (configureModule router given) as [e|configured] eqn:Econf;
    simpl in H; [discriminate|].
  exists p, validated, router, given, configured.
  split; [reflexivity|]. split; [exact Eval|]. split; [reflexivity|]. split; [exact Econf|].
  split.
  { destruct (truthy (cfg_repositoryUrl validated)) as [url|]; simpl in Egiven.
    - destruct (loadExtSourcePath _ _ _ _ _ _) as [e|path] eqn:Epath; simpl in Egiven;
        [discriminate|]. injection Egiven as <-. exists path. split; reflexivity.
    - injection Egiven as <-. reflexivity. }
  bind_step H. bind_step H. bind_step H.
  match goal with
  | E : validateAgainstBases _ _ _ _ _ _ _ = inr _ |- _ =>
      apply validateAgainstBases_fields in E;
      destruct E as ((T1 & T2 & T3 & T4 & T5 & T6) & N & S1 & S2 & S3)
  end.
  match goal with
  | E : match property_field _ _ with Some _ => _ | None => _ end = inr _ |- _ =>
      opt_step E
  end;
    (unfold Err.ret in H; injection H as <-; simpl in *;
     rewrite ?T4, ?N in *;
     destruct (truthy (cfg_plugin configured)); simpl;
     rewrite ?S1, ?S2, ?S3; unfold same_module; simpl; repeat split; congruence).
Qed.

(** Of what the configure handler returns, [resolveModuleConfig] keeps
    everything but [spec] and [outputs] (which are validated) and the names:
    the module is named by [getModuleKey] of its name and plugin, and its
    services, tasks and tests are renamed in the same way exactly when the
    module comes from a plugin. *)
Theorem resolveModuleConfig_after_configure garden config opts result :
  resolveModuleConfig'' garden config opts = inr result ->
  exists router given configured,
    getConfigureRouter Schema ConfigContext garden = inr router /\
    configureModule router given = inr configured /\
    same_module configured result /\
    cfg_name result = getModuleKey (cfg_name configured) (cfg_plugin configured) /\
    match truthy (cfg_plugin configured) with
    | Some _ =>
        cfg_serviceConfigs result
          = map (qualify getModuleKey (cfg_plugin configured)) (cfg_serviceConfigs configured) /\
        cfg_taskConfigs result
          = map (qualify getModuleKey (cfg_plugin configured)) (cfg_taskConfigs configured) /\
        cfg_testConfigs result
          = map (qualify getModuleKey (cfg_plugin configured)) (cfg_testConfigs configured)
    | None =>
        cfg_serviceConfigs result = cfg_serviceConfigs configured /\
        cfg_taskConfigs result = cfg_taskConfigs configured /\
        cfg_testConfigs result = cfg_testConfigs configured
    end.
Proof.
  intros H. apply resolveModuleConfig_stages in H.
  destruct H as (p & validated & router & given & configured & _ & _ & Hr & Hc & _ & Hrest).
  exists router, given, configured. split; [exact Hr|]. split; [exact Hc|]. exact Hrest.
Qed.

(** A module with a [repositoryUrl] is configured at the path of its
    fetched sources: the configure handler is given the configuration that
    passed the base schema, with [path] replaced by what
    [loadExtSourcePath] returns, and the path it answers with is the path of
    the result; without a [repositoryUrl] nothing is fetched and the handler
    is given the validated configuration as it is. *)
Theorem resolveModuleConfig_remote_path garden config opts result :
  resolveModuleConfig'' garden config opts = inr result ->
  exists p validated router given configured,
    v_schema Schema ModuleConfig p = moduleConfigSchema /\
    validateWithPath ModuleConfig p = inr validated /\
    getConfigureRouter Schema ConfigContext garden = inr router /\
    configureModule router given = inr configured /\
    match truthy (cfg_repositoryUrl validated) with
    | Some repositoryUrl =>
        exists path,
          loadExtSourcePath Schema ConfigContext garden (cfg_name validated)
                            repositoryUrl "module" = inr path /\
          given = set_path validated path
    | None => given = validated
    end /\
    cfg_path result = cfg_path configured.
Proof.
  intros H. apply resolveModuleConfig_stages in H.
  destruct H as (p & validated & router & given & configured
                 & Hs & Hv & Hr & Hc & Hgiven & Hsame & _).
  exists p, validated, router, given, configured. repeat (split; [assumption|]).
  apply Hsame.
Qed.

End ResolveModuleMore.

Lemma resolveModuleConfig_after_configure_witness :
  exists result,
    demo_resolveModuleConfig remote_config (mkResolveOpts unit false None) = inr result /\
    cfg_name result = "templates--api" /\
    map entity_name (cfg_serviceConfigs result) = ["templates--api"] /\
    map entity_name (cfg_taskConfigs result) = ["templates--migrate"] /\
    cfg_type result = "container".
Proof.
  destruct (demo_resolveModuleConfig remote_config (mkResolveOpts unit false None))
    as [e|result] eqn:E; [vm_compute in E; discriminate|].
  destruct (resolveModuleConfig_after_configure
              unit unit demo_getModuleKey demo_relative (fun s _ => s) tt
              demo_validateWithPath demo_resolveTemplateStrings demo_getModuleTypeBases
              demo_resolveGarden remote_config (mkResolveOpts unit false None) result E)
    as (router & given & configured & Hr & Hc & Hsame & Hname & Hents).
  injection Hr as <-. injection Hc as <-.
  exists result. split; [reflexivity|].
  vm_compute in E. injection E as <-. repeat split.
Defined.

Lemma resolveModuleConfig_remote_path_witness :
  exists p validated router given configured,
    v_schema unit ModuleConfig p = tt /\
    demo_validateWithPath ModuleConfig p = inr validated /\
    getConfigureRouter unit unit demo_resolveGarden = inr router /\
    configureModule router given = inr configured /\
    match truthy (cfg_repositoryUrl validated) with
    | Some repositoryUrl =>
        exists path,
          loadExtSourcePath unit unit demo_resolveGarden (cfg_name validated)
                            repositoryUrl "module" = inr path /\
          given = set_path validated path
    | None => given = validated
    end /\
    cfg_path configured = "/project/.garden/sources/api".
Proof.
  destruct (demo_resolveModuleConfig remote_config (mkResolveOpts unit false None))
    as [e|result] eqn:E; [vm_compute in E; discriminate|].
  assert (Hpath : cfg_path result = "/project/.garden/sources/api")
    by (vm_compute in E; injection E as <-; reflexivity).
  rewrite <- Hpath.
  destruct (resolveModuleConfig_remote_path
           unit unit demo_getModuleKey demo_relative (fun s _ => s) tt
           demo_validateWithPath demo_resolveTemplateStrings demo_getModuleTypeBases
           demo_resolveGarden remote_config (mkResolveOpts unit false None) result E)
    as (p & validated & router & given & configured & H1 & H2 & H3 & H4 & H5 & H6).
  exists p, validated, router, given, configured.
  repeat (split; [assumption|]). now symmetry.
Defined.

Example resolveModuleConfig_remote_run :
  exists result,
    demo_resolveModuleConfig remote_config (mkResolveOpts unit false None) = inr result /\
    cfg_path result = "/project/.garden/sources/api".
Proof. eexists. split; [vm_compute; reflexivity | reflexivity]. Qed.

(** ** The [task-result] command *)

Section GetTaskResultProperties.

Context {W : Type}.
Variable getTaskVersion : @CommandGarden W -> @TaskGraph W -> Task -> Eff.Ext W ModuleVersion.
Variable getArtifactFileList : string -> string -> Eff.Ext W (list string).
Variable getArtifactKey : string -> string -> string -> string.
Variable cyan : string -> string.

Abbreviation action' :=
  (getTaskResultAction getTaskVersion getArtifactFileList getArtifactKey cyan).

Ltac cmd_runs :=
  unfold getTaskResultAction;
  unfold Eff.run, Eff.bind, Eff.try_catch, Eff.call, Eff.emit, Eff.ret, Eff.throw in *; simpl;
  repeat match goal with
    | |- context [match ?o with Some _ => _ | None => _ end] =>
        is_var o; destruct o; simpl in *
    | |- context [let '(_, _) := ?f ?w in _] =>
        let e := fresh "e" in let a := fresh "a" in
        let w' := fresh "w" in let H := fresh "Hcall" in
        destruct (f w) as [[e|a] w'] eqn:H; simpl in *
    end.

Ltac cmd_find := simpl; repeat (first [left; reflexivity | right]).

Ltac cmd_in :=
  repeat match goal with
    | H : In _ _ |- _ => simpl in H
    | H : _ \/ _ |- _ => destruct H
    | H : False |- _ => destruct H
    | H : _ = _ :> CommandEvent |- _ => (discriminate H || (injection H as ?; subst))
    end;
  try congruence.

(** A run of the command that returns has looked the task up, read its
    version, and asked the backend for the result of the task at that
    version. When the backend has one, the artifacts are listed under the
    key of the task name and the version of its module, and the answer, which
    is also what is printed, is the result of the backend together with the
    list that call returned. When it has none, no artifacts are listed, the
    answer is [null], and the command says that no results were found. *)
Theorem getTaskResult_found (garden : @CommandGarden W) name w result :
  (Eff.run (action' garden name) w).1 = inr result ->
  exists task version stored,
    match stored with
    | Some taskResult =>
        exists artifacts,
          Eff.trace (Eff.run (action' garden name) w).2
          = [CmdGetConfigGraph;
             CmdGetTask name (inr task);
             CmdGetActionRouter;
             CmdGetTaskVersion task (inr version);
             CmdGetTaskResult task version (inr (Some taskResult));
             CmdGetArtifactFileList
               (getArtifactKey "task" (task_name task)
                               (module_version_string (task_module task)))
               (artifactsPath garden) (inr artifacts);
             CmdPrintHeader ("Task result for task " +:+ cyan name) "rocket";
             CmdLogData (mkTaskResultWithArtifacts taskResult artifacts)] /\
          result = Some (mkTaskResultWithArtifacts taskResult artifacts)
    | None =>
        Eff.trace (Eff.run (action' garden name) w).2
        = [CmdGetConfigGraph;
           CmdGetTask name (inr task);
           CmdGetActionRouter;
           CmdGetTaskVersion task (inr version);
           CmdGetTaskResult task version (inr None);
           CmdPrintHeader ("Task result for task " +:+ cyan name) "rocket";
           CmdLogInfo ("Could not find results for task '" +:+ name +:+ "'")] /\
        result = None
    end.
Proof.
  revert result.
  cmd_runs; intros result H; try discriminate H; injection H as <-.
  - eexists _, _, (Some _). eexists. split; reflexivity.
  - eexists _, _, None. split; reflexivity.
Qed.

(** A task the graph does not know: the error of the lookup is raised, and
    neither the backend is asked nor anything printed. *)
Theorem getTaskResult_unknown_task (garden : @CommandGarden W) name w m err :
  In (CmdGetTask m (inl err)) (Eff.trace (Eff.run (action' garden name) w).2) ->
  (Eff.run (action' garden name) w).1 = inl err /\
  Eff.trace (Eff.run (action' garden name) w).2 = [CmdGetConfigGraph; CmdGetTask name (inl err)].
Proof.
  cmd_runs; intros H; cmd_in; split; reflexivity.
Qed.

End GetTaskResultProperties.

Lemma getTaskResult_found_witness :
  (Eff.run (demo_getTaskResultAction "migrate") [("migrate", migrate_result)]).1
  = inr (Some (mkTaskResultWithArtifacts migrate_result
                 ["/project/.garden/artifacts/task.migrate.v-module-c.log"])) /\
  exists task version stored,
    In (CmdGetTaskResult task version (inr stored))
       (Eff.trace (Eff.run (demo_getTaskResultAction "migrate")
                           [("migrate", migrate_result)]).2) /\
    stored = Some migrate_result.
Proof.
  split; [reflexivity|].
  destruct (getTaskResult_found
              (fun _ _ task w => (inr (module_version (cm_module (task_module task))), w))
              (fun key path (w : list (string * RunTaskResult)) =>
                 (inr [path +:+ "/" +:+ key +:+ ".log"], w))
              (fun kind name version => kind +:+ "." +:+ name +:+ "." +:+ version)
              (fun s => s)
              demo_commandGarden "migrate" [("migrate", migrate_result)]
              (Some (mkTaskResultWithArtifacts migrate_result
                       ["/project/.garden/artifacts/task.migrate.v-module-c.log"]))
              eq_refl)
    as (task & version & [taskResult|] & H).
  - destruct H as (artifacts & Htrace & Hresult).
    injection Hresult as <- <-. exists task, version, (Some migrate_result).
    split; [|reflexivity].
    unfold demo_getTaskResultAction. rewrite Htrace. do 4 right. left. reflexivity.
  - destruct H as [_ H]. discriminate H.
Defined.

Lemma getTaskResult_unknown_task_witness :
  (Eff.run (demo_getTaskResultAction "deploy") []).1
    = inl (mkExn ForeignError "Could not find task deploy").
Proof.
  apply (getTaskResult_unknown_task
           (fun _ _ task w => (inr (module_version (cm_module (task_module task))), w))
           (fun key path (w : list (string * RunTaskResult)) =>
              (inr [path +:+ "/" +:+ key +:+ ".log"], w))
           (fun kind name version => kind +:+ "." +:+ name +:+ "." +:+ version)
           (fun s => s)
           demo_commandGarden "deploy" [] "deploy"
           (mkExn ForeignError "Could not find task deploy")).
  vm_compute. right. left. reflexivity.
Defined.

(** ** The [terraform] provider *)

Section TerraformProperties.

Context {W : Type}.
Variable join : string -> string -> string.
Variable pathExists : string -> Eff.Ext W bool.

Abbreviation configureProvider' := (configureProvider join pathExists).

(** [configureProvider] never changes the configuration; it looks at the
    file system only when [initRoot] is set, at the path of [initRoot] under
    the project root, and raises a [ConfigurationError] that names
    [initRoot] exactly when that path does not exist. *)
Theorem configureProvider_initRoot (config : TerraformProviderConfig) projectRoot w :
  (forall config', (Eff.run (configureProvider' config projectRoot) w).1 = inr config' ->
                   config' = config) /\
  (truthy (tf_initRoot config) = None ->
   Eff.run (configureProvider' config projectRoot) w = (inr config, Eff.mkState w [])) /\
  (forall initRoot,
      truthy (tf_initRoot config) = Some initRoot ->
      forall present w',
        pathExists (join projectRoot initRoot) w = (inr present, w') ->
        Eff.run (configureProvider' config projectRoot) w
          = (if present then inr config
             else inl (mkExn ConfigurationError
                         ("Terraform: configured initRoot config directory '" +:+ initRoot
                          +:+ "' does not exist")),
             Eff.mkState w' [FsPathExists (join projectRoot initRoot) (inr present)])).
Proof.
  unfold configureProvider.
  unfold Eff.run, Eff.bind, Eff.try_catch, Eff.call, Eff.emit, Eff.ret, Eff.throw. simpl.
  split; [|split].
  - destruct (truthy (tf_initRoot config)) as [initRoot|]; simpl.
    + destruct (pathExists _ w) as [[e|[|]] w']; simpl; congruence.
    + congruence.
  - intros ->. reflexivity.
  - intros initRoot -> present w' H. simpl. rewrite H. destruct present; reflexivity.
Qed.

End TerraformProperties.

Lemma configureProvider_initRoot_witness :
  Eff.run (configureProvider demo_join demo_pathExists
             (demo_terraform_config (Some "infra")) "/project") ["/project/src"]
    = (inl (mkExn ConfigurationError
              "Terraform: configured initRoot config directory 'infra' does not exist"),
       Eff.mkState ["/project/src"] [FsPathExists "/project/infra" (inr false)]) /\
  Eff.run (configureProvider demo_join demo_pathExists
             (demo_terraform_config (Some "")) "/project") ["/project/src"]
    = (inr (demo_terraform_config (Some "")), Eff.mkState ["/project/src"] []).
Proof.
  destruct (configureProvider_initRoot demo_join demo_pathExists
              (demo_terraform_config (Some "infra")) "/project" ["/project/src"])
    as (_ & _ & Hset).
  destruct (configureProvider_initRoot demo_join demo_pathExists
              (demo_terraform_config (Some "")) "/project" ["/project/src"])
    as (_ & Hunset & _).
  split.
  - apply (Hset "infra" eq_refl false ["/project/src"]). reflexivity.
  - apply Hunset. reflexivity.
Defined.

(** ** [DevCommand.reload] *)

Section DevCommandProperties.

Context {W : Type}.
Variable white : string -> string.
Variable showError : Exn -> string.

Abbreviation reload' := (reload white showError).

(** Once the manager is there, [reload] does not raise, whatever the
    reload of the manager does: with a command line, the run starts by
    disabling it and ends by enabling it again, flashes success exactly when
    the reload went through, and logs the error twice otherwise. *)
Theorem reload_always_enables commandLine (getManager : Eff.Ext W (@Manager W)) w manager w1 :
  getManager w = (inr manager, w1) ->
  let r := manager_reload manager w1 in
  let run := Eff.run (reload' commandLine getManager) w in
  run.1 = inr tt /\
  Eff.world run.2 = r.2 /\
  (commandLine = true ->
   hd_error (Eff.trace run.2) = Some (DevDisable "🌸  Loading Garden project...") /\
   List.last (Eff.trace run.2) DevGetManager = DevEnable) /\
  (In (DevFlashSuccess "Project successfully loaded!") (Eff.trace run.2)
   <-> commandLine = true /\ r.1 = inr tt) /\
  (forall err, r.1 = inl err ->
               In (DevLogError ("Failed loading the project: " +:+ showError err))
                  (Eff.trace run.2)
               /\ In (DevLogErrorObject err) (Eff.trace run.2)).
Proof.
  intros Hm r run. subst r run. unfold reload, try_finally, withCommandLine.
  unfold Eff.run, Eff.bind, Eff.try_catch, Eff.call, Eff.emit, Eff.ret, Eff.throw.
  destruct commandLine; simpl; rewrite Hm; simpl;
    destruct (manager_reload manager w1) as [[err|[]] w2]; simpl;
    (split; [reflexivity|]); (split; [reflexivity|]);
    (split; [intros Hc; first [discriminate Hc | split; reflexivity]|]);
    (split;
     [split;
      [intros H; simpl in H; intuition (try discriminate; try congruence)
      |intros [H1 H2]; first [discriminate H1 | discriminate H2 | (simpl; auto 6)]]|]);
    intros err0 He; first [discriminate He | injection He as <-; simpl; auto 8].
Qed.

(** When the manager cannot be had, [reload] raises that error, and a
    command line that was disabled stays disabled. *)
Theorem reload_without_manager commandLine (getManager : Eff.Ext W (@Manager W)) w err w1 :
  getManager w = (inl err, w1) ->
  (Eff.run (reload' commandLine getManager) w).1 = inl err /\
  ~ In DevEnable (Eff.trace (Eff.run (reload' commandLine getManager) w).2).
Proof.
  intros Hm. unfold reload, try_finally, withCommandLine.
  unfold Eff.run, Eff.bind, Eff.try_catch, Eff.call, Eff.emit, Eff.ret, Eff.throw.
  destruct commandLine; simpl; rewrite Hm; simpl; (split; [reflexivity|]);
    intros H; simpl in H; intuition discriminate.
Qed.

End DevCommandProperties.

Lemma reload_always_enables_witness :
  let run :=
    Eff.run (reload (fun s => s) err_message true
               (fun w : nat =>
                  (inr (mkManager (fun w => (inl (mkExn ForeignError "no project"), S w))), w)))
            0 in
  run.1 = inr tt /\ Eff.world run.2 = 1 /\
  List.last (Eff.trace run.2) DevGetManager = DevEnable.
Proof.
  intros run.
  destruct (reload_always_enables (fun s => s) err_message true
              (fun w : nat =>
                 (inr (mkManager (fun w => (inl (mkExn ForeignError "no project"), S w))), w))
              0 (mkManager (fun w => (inl (mkExn ForeignError "no project"), S w))) 0 eq_refl)
    as (H1 & H2 & H3 & _).
  split; [exact H1|]. split; [exact H2|]. apply (H3 eq_refl).
Defined.

Lemma reload_without_manager_witness :
  (Eff.run (reload (fun s => s) err_message true
              (fun w : nat => (inl (mkExn ForeignError "not started"), w))) 0).1
    = inl (mkExn ForeignError "not started").
Proof.
  apply (reload_without_manager (fun s => s) err_message true
           (fun w : nat => (inl (mkExn ForeignError "not started"), w)) 0
           (mkExn ForeignError "not started") 0 eq_refl).
Defined.

(** ** The [conftest-kubernetes] plugin: the modules it adds *)

Lemma string_app_cancel (a b c : string) : a +:+ b = a +:+ c -> b = c.
Proof.
  induction a as [|x a IH]; [trivial|].
  change (String x (a +:+ b) = String x (a +:+ c) -> b = c). intros [= H]. auto.
Qed.

Lemma string_app_self (a b : string) : a +:+ b = a -> b = EmptyString.
Proof.
  induction a as [|x a IH]; [trivial|].
  change (String x (a +:+ b) = String x a -> b = EmptyString). intros [= H]. auto.
Qed.

Lemma show_nat_inj n m : show_nat n = show_nat m -> n = m.
Proof.
  unfold show_nat. intros H.
  apply (f_equal list_ascii_of_string) in H.
  rewrite !list_ascii_of_string_of_list_ascii in H.
  apply DecimalNat.Unsigned.to_uint_inj.
  pose proof (JSONFacts.read_uint_chars (Nat.to_uint n) [] I) as Hn.
  pose proof (JSONFacts.read_uint_chars (Nat.to_uint m) [] I) as Hm.
  rewrite app_nil_r in Hn, Hm. rewrite H in Hn. congruence.
Qed.

Lemma numbered_inj base i j : numbered base i = numbered base j -> i = j.
Proof.
  unfold numbered. intros H.
  apply string_app_cancel, string_app_cancel in H. now apply show_nat_inj.
Qed.

Lemma numbered_not_base base i : numbered base i <> base.
Proof.
  unfold numbered. intros H. apply string_app_self in H. discriminate H.
Qed.

(** What the loop ends with is the first free name among [name], and then
    the numbered names from [i] on. *)
Lemma freeName_first_free fuel names base name i r :
  freeName fuel names base name i = Some r ->
  (r ∉ names) /\
  (r = name \/
   (name ∈ names) /\
   exists j, i <= j /\ r = numbered base j /\
             forall j', i <= j' < j -> numbered base j' ∈ names).
Proof.
  revert name i. induction fuel as [|fuel IH]; intros name i; simpl; [discriminate|].
  destruct (decide (name ∈ names)) as [Hin|Hout].
  - intros H. apply IH in H as [Hr [->| (Hin' & j & Hj & -> & Hbelow)]].
    + split; [exact Hr|]. right. split; [exact Hin|]. exists i.
      split; [lia|]. split; [reflexivity|]. intros; lia.
    + split; [exact Hr|]. right. split; [exact Hin|]. exists j.
      split; [lia|]. split; [reflexivity|].
      intros j' Hj'. destruct (decide (j' = i)) as [->|]; [exact Hin'|apply Hbelow; lia].
  - intros [= <-]. auto.
Qed.

(** The loop ends: every round finds one more name of the set taken, and
    the names it tries are all different. *)
Lemma freeName_finds fuel (names seen : gset string) base name i :
  seen ⊆ names -> name ∉ seen ->
  (forall j, i <= j -> (numbered base j ∉ seen) /\ numbered base j <> name) ->
  size names < size seen + fuel ->
  exists r, freeName fuel names base name i = Some r.
Proof.
  revert seen name i. induction fuel as [|fuel IH]; intros seen name i Hsub Hname Hnum Hsize.
  - apply subseteq_size in Hsub. lia.
  - simpl. destruct (decide (name ∈ names)) as [Hin|Hout]; [|eauto].
    apply (IH ({[name]} ∪ seen)).
    + apply union_subseteq. split; [apply singleton_subseteq_l, Hin|exact Hsub].
    + destruct (Hnum i) as [H1 H2]; [lia|]. fold (numbered base i).
      rewrite not_elem_of_union, not_elem_of_singleton. split; [exact H2|exact H1].
    + intros j Hj. destruct (Hnum j) as [H1 H2]; [lia|]. split.
      * rewrite not_elem_of_union, not_elem_of_singleton. split; [exact H2|exact H1].
      * fold (numbered base i). intros H. apply numbered_inj in H. lia.
    + rewrite size_union by apply disjoint_singleton_l, Hname.
      rewrite size_singleton. lia.
Qed.

Lemma freeName_base_finds (names : gset string) base :
  exists r, freeName (S (size names)) names base base 2 = Some r.
Proof.
  apply (freeName_finds _ names ∅).
  - apply empty_subseteq.
  - apply not_elem_of_empty.
  - intros j _. split; [apply not_elem_of_empty|apply numbered_not_base].
  - rewrite size_empty. lia.
Qed.

Section ConftestProperties.

Variable slash : string -> string.
Variable relative : string -> string -> string.
Variable resolve : string -> string -> string.
Variable collectTemplateReferences : json -> list (list string).
Variables (projectRoot policyPath : string) (namespace : option string).

Local Arguments freeName : simpl never.

Abbreviation conftestModule' :=
  (conftestModule slash relative resolve collectTemplateReferences
     projectRoot policyPath namespace).
Abbreviation addConftestModules' :=
  (addConftestModules slash relative resolve collectTemplateReferences
     projectRoot policyPath namespace).

Lemma conftestModule_name module name : ct_name (conftestModule' module name) = name.
Proof. unfold conftestModule. now destruct (includes "helm" _). Qed.

Lemma conftestModule_sourceModule module name :
  ct_sourceModule (conftestModule' module name) = gm_name module.
Proof. unfold conftestModule. now destruct (includes "helm" _). Qed.

Lemma addConftestModules_cons names module rest :
  addConftestModules' names (module :: rest) =
  match freeName (S (size names)) names ("conftest-" +:+ gm_name module)
                 ("conftest-" +:+ gm_name module) 2 with
  | None => None
  | Some name =>
      match addConftestModules' ({[name]} ∪ names) rest with
      | None => None
      | Some specs => Some (conftestModule' module name :: specs)
      end
  end.
Proof. reflexivity. Qed.

Lemma addConftestModules_inv names module rest specs :
  addConftestModules' names (module :: rest) = Some specs ->
  exists name specs',
    freeName (S (size names)) names ("conftest-" +:+ gm_name module)
             ("conftest-" +:+ gm_name module) 2 = Some name /\
    addConftestModules' ({[name]} ∪ names) rest = Some specs' /\
    specs = conftestModule' module name :: specs'.
Proof.
  rewrite addConftestModules_cons.
  destruct (freeName _ _ _ _ _) as [name|]; [|discriminate].
  destruct (addConftestModules' ({[name]} ∪ names) rest) as [specs'|] eqn:Hrest;
    [|discriminate].
  intros [= <-]. exists name, specs'. split; [reflexivity|]. split; [exact Hrest|reflexivity].
Qed.

Lemma addConftestModules_total names modules :
  exists specs, addConftestModules' names modules = Some specs.
Proof.
  revert names. induction modules as [|module rest IH]; intros names; [simpl; eauto|].
  rewrite addConftestModules_cons.
  destruct (freeName_base_finds names ("conftest-" +:+ gm_name module)) as [name ->].
  destruct (IH ({[name]} ∪ names)) as [specs' ->]. eauto.
Qed.

Lemma addConftestModules_fresh names modules specs :
  addConftestModules' names modules = Some specs ->
  List.NoDup (map ct_name specs) /\ forall spec, In spec specs -> ct_name spec ∉ names.
Proof.
  revert names specs. induction modules as [|module rest IH]; intros names specs.
  - intros [= <-]. split; [constructor|intros ? []].
  - intros H. apply addConftestModules_inv in H as (name & specs' & Hname & Hrest & ->).
    apply freeName_first_free in Hname as [Hfree _].
    apply IH in Hrest as [Hnodup Hout].
    split.
    + simpl. rewrite conftestModule_name. constructor; [|exact Hnodup].
      intros Hin. apply in_map_iff in Hin as (spec & Hspec & Hin).
      apply Hout in Hin. apply Hin, elem_of_union_l, elem_of_singleton, Hspec.
    + intros spec [<-|Hin].
      * now rewrite conftestModule_name.
      * apply Hout in Hin. intros Hn. apply Hin, elem_of_union_r, Hn.
Qed.

Lemma addConftestModules_first_free names modules specs before spec after :
  addConftestModules' names modules = Some specs ->
  specs = before ++ spec :: after ->
  let base := "conftest-" +:+ ct_sourceModule spec in
  let taken : gset string := names ∪ list_to_set (map ct_name before) in
  (ct_name spec ∉ taken) /\
  (ct_name spec = base \/
   (base ∈ taken) /\
   exists j, 2 <= j /\ ct_name spec = numbered base j /\
             forall j', 2 <= j' < j -> numbered base j' ∈ taken).
Proof.
  revert names specs before. induction modules as [|module rest IH]; intros names specs before.
  - intros [= <-] H. now destruct before.
  - intros H Hsplit. apply addConftestModules_inv in H as (name & specs' & Hname & Hrest & ->).
    destruct before as [|b before]; simpl in Hsplit; injection Hsplit as Hb Hsplit.
    + subst spec. cbv zeta. rewrite conftestModule_name, conftestModule_sourceModule.
      simpl. setoid_rewrite union_empty_r_L.
      exact (freeName_first_free _ _ _ _ _ _ Hname).
    + pose proof (IH _ _ _ Hrest Hsplit) as Hspec. cbv zeta in *.
      simpl. rewrite <- Hb, conftestModule_name.
      rewrite (assoc_L (∪)), (comm_L (∪) names {[name]}).
      exact Hspec.
Qed.

Lemma addConftestModules_sources names modules specs :
  addConftestModules' names modules = Some specs ->
  Forall2 (fun module spec => exists name, spec = conftestModule' module name) modules specs.
Proof.
  revert names specs. induction modules as [|module rest IH]; intros names specs.
  - intros [= <-]. constructor.
  - intros H. apply addConftestModules_inv in H as (name & specs' & _ & Hrest & ->).
    constructor; eauto.
Qed.

(** The handler always answers: the loop that looks for a free name ends,
    whatever the names of the modules are. *)
Theorem conftest_augmentGraph_returns modules :
  exists specs,
    conftest_augmentGraph slash relative resolve collectTemplateReferences
      projectRoot policyPath namespace modules = Some specs.
Proof.
  unfold conftest_augmentGraph. apply addConftestModules_total.
Qed.

(** The names of the modules added are pairwise different, and none of them
    is the name of a module of the project. *)
Theorem conftest_augmentGraph_fresh_names modules specs :
  conftest_augmentGraph slash relative resolve collectTemplateReferences
    projectRoot policyPath namespace modules = Some specs ->
  List.NoDup (map ct_name specs) /\
  forall spec, In spec specs -> ~ In (ct_name spec) (map gm_name modules).
Proof.
  unfold conftest_augmentGraph. intros H.
  apply addConftestModules_fresh in H as [Hnodup Hout]. split; [exact Hnodup|].
  intros spec Hin Hname. apply (Hout _ Hin).
  apply elem_of_list_to_set, list_elem_of_In, Hname.
Qed.

(** Every module added is named [conftest-<source>], or, when that name is
    taken by a module of the project or by a module added before it,
    [conftest-<source>-<j>] for the least [j] from 2 on that is free. *)
Theorem conftest_augmentGraph_first_free modules specs before spec after :
  conftest_augmentGraph slash relative resolve collectTemplateReferences
    projectRoot policyPath namespace modules = Some specs ->
  specs = before ++ spec :: after ->
  let base := "conftest-" +:+ ct_sourceModule spec in
  let taken := map gm_name modules ++ map ct_name before in
  ~ In (ct_name spec) taken /\
  (ct_name spec = base \/
   In base taken /\
   exists j, 2 <= j /\ ct_name spec = numbered base j /\
             forall j', 2 <= j' < j -> In (numbered base j') taken).
Proof.
  unfold conftest_augmentGraph. intros H Hsplit.
  pose proof (addConftestModules_first_free _ _ _ _ _ _ H Hsplit) as Hspec.
  cbv zeta in *.
  assert (Htaken : forall x,
             x ∈ (list_to_set (map gm_name modules) : gset string)
                 ∪ list_to_set (map ct_name before)
             <-> In x (map gm_name modules ++ map ct_name before)).
  { intros x. rewrite elem_of_union, !elem_of_list_to_set, !list_elem_of_In, in_app_iff.
    reflexivity. }
  destruct Hspec as [Hfree Hname]. split.
  - intros Hin. apply Hfree, Htaken, Hin.
  - destruct Hname as [Hbase|(Hbase & j & Hj & Hnamed & Hbelow)]; [now left|right].
    split; [apply Htaken, Hbase|]. exists j. split; [exact Hj|]. split; [exact Hnamed|].
    intros j' Hj'. apply Htaken, Hbelow, Hj'.
Qed.

(** One module is added for every module that is compatible with [helm] or
    [kubernetes], in the order of the project, and none for the others; it
    is a [conftest-helm] module exactly when its source is compatible with
    [helm], and otherwise a [conftest] module over the files the source
    includes. *)
Theorem conftest_augmentGraph_sources modules specs :
  conftest_augmentGraph slash relative resolve collectTemplateReferences
    projectRoot policyPath namespace modules = Some specs ->
  Forall2 (fun module spec =>
             ct_sourceModule spec = gm_name module /\
             ct_path spec = gm_path module /\
             if includes "helm" (gm_compatibleTypes module)
             then ct_type spec = "conftest-helm" /\ ct_files spec = None /\
                  is_Some (ct_runtimeDependencies spec)
             else ct_type spec = "conftest" /\ ct_runtimeDependencies spec = None /\
                  ct_files spec =
                    Some (default ["*.yaml"; "**/*.yaml"; "*.yml"; "**/*.yml"]
                                  (gm_include module)))
          (List.filter conftestCompatible modules) specs.
Proof.
  unfold conftest_augmentGraph. intros H. apply addConftestModules_sources in H.
  eapply Forall2_impl; [exact H|].
  intros module spec [name ->]. unfold conftestModule.
  destruct (includes "helm" (gm_compatibleTypes module)); simpl; eauto.
Qed.

End ConftestProperties.

Lemma conftest_augmentGraph_fresh_names_witness :
  List.NoDup (map ct_name (default [] demo_conftest_augmentGraph)) /\
  forall spec,
    In spec (default [] demo_conftest_augmentGraph) ->
    ~ In (ct_name spec) (map gm_name plugin_modules).
Proof.
  apply (conftest_augmentGraph_fresh_names (fun p => p) (fun _ to => to)
           (fun root p => root +:+ "/" +:+ p)
           (fun _ => [["runtime"; "services"; "db"; "outputs"]])
           "/project" "policy" None plugin_modules).
  vm_compute. reflexivity.
Defined.

Lemma conftest_augmentGraph_first_free_witness :
  exists spec after,
    demo_conftest_specs = spec :: after /\
    ct_name spec = "conftest-api-2" /\
    ~ In (ct_name spec) (map gm_name plugin_modules ++ []).
Proof.
  eexists _, _. split; [reflexivity|]. split; [reflexivity|].
  refine (proj1 (conftest_augmentGraph_first_free (fun p => p) (fun _ to => to)
                   (fun root p => root +:+ "/" +:+ p)
                   (fun _ => [["runtime"; "services"; "db"; "outputs"]])
                   "/project" "policy" None plugin_modules
                   demo_conftest_specs [] _ _ _ eq_refl)).
  vm_compute. reflexivity.
Defined.

Lemma conftest_augmentGraph_sources_witness :
  map ct_sourceModule (default [] demo_conftest_augmentGraph) = ["api"; "conftest-api"] /\
  Forall2 (fun module spec => ct_path spec = gm_path module)
          [api_module; shadow_module] (default [] demo_conftest_augmentGraph).
Proof.
  split; [vm_compute; reflexivity|].
  eapply Forall2_impl.
  - apply (conftest_augmentGraph_sources (fun p => p) (fun _ to => to)
             (fun root p => root +:+ "/" +:+ p)
             (fun _ => [["runtime"; "services"; "db"; "outputs"]])
             "/project" "policy" None plugin_modules).
    vm_compute. reflexivity.
  - intros module spec H. apply H.
Defined.

(** ** The [hadolint] plugin *)

Lemma filter_none_iff {A} (p : A -> bool) (l : list A) :
  (0 <? length (List.filter p l))%nat = false <-> List.Forall (fun x => p x = false) l.
Proof.
  induction l as [|x l IH]; simpl.
  - split; [constructor|reflexivity].
  - destruct (p x) eqn:E; simpl.
    + split; [discriminate|]. intros H. inversion H; congruence.
    + rewrite IH. split; [now constructor|]. intros H. now inversion H.
Qed.

Section HadolintProperties.

Context {W : Type}.
Variable hasDockerfile : GraphModule -> Eff.Ext W bool.
Variable getDockerfileSourcePath : GraphModule -> string.
Variable join : list string -> string.
Variable relative : string -> string -> string.
Variable readFile : string -> Eff.Ext W string.
Variable pathExists : string -> Eff.Ext W bool.
Variable hadolint_exec : list string -> Eff.Ext W string.
Variable now : Eff.Ext W nat.
Variable splitLines : string -> list string.
Variables bold_red bold_yellow bold : string -> string.
Variable gray : option string -> string.
Variable STATIC_DIR : string.
Variable parseFindings : string -> Eff.Outcome (list Finding).

Abbreviation augmentGraph' :=
  (hadolint_augmentGraph hasDockerfile getDockerfileSourcePath relative).
Abbreviation testModule' :=
  (testModule join readFile pathExists hadolint_exec now splitLines
     bold_red bold_yellow bold gray STATIC_DIR parseFindings).
Abbreviation probe :=
  (fun module : GraphModule =>
     if includes "container" (gm_compatibleTypes module)
     then Eff.call (E := HadolintEvent) (HlHasDockerfile module) (hasDockerfile module)
     else Eff.ret false).
Abbreviation probed :=
  (fun mr : GraphModule * Eff.Outcome bool => HlHasDockerfile (fst mr) (snd mr)).

Lemma filter_async_probe modules (s : Eff.State W HadolintEvent) :
  exists outcomes,
    length outcomes = length (containerModules modules) /\
    Eff.trace (filter_async probe modules s).2
    = Eff.trace s ++ map probed (combine (containerModules modules) outcomes) /\
    forall kept,
      (filter_async probe modules s).1 = inr kept ->
      kept = withDockerfile (combine (containerModules modules) outcomes).
Proof.
  revert s. induction modules as [|module rest IH]; intros s.
  - exists []. split; [reflexivity|]. split; [simpl; now rewrite app_nil_r|].
    now intros kept [= <-].
  - unfold containerModules. simpl.
    destruct (includes "container" (gm_compatibleTypes module)) eqn:Hc.
    + change (Eff.call (HlHasDockerfile module) (hasDockerfile module) s)
        with (let '(r, w') := hasDockerfile module (Eff.world s) in
              (r, Eff.mkState (E := HadolintEvent) w'
                    (Eff.trace s ++ [HlHasDockerfile module r]))).
      destruct (hasDockerfile module (Eff.world s)) as [r w1].
      destruct (IH (Eff.mkState w1 (Eff.trace s ++ [HlHasDockerfile module r])))
        as (outcomes & Hlen & Htrace & Hkept).
      destruct (filter_async _ rest _) as [rs s2]. simpl in *.
      exists (r :: outcomes). split; [simpl; now rewrite Hlen|].
      split; [rewrite Htrace, <- app_assoc; reflexivity|].
      intros kept Hres. unfold withDockerfile. simpl.
      destruct r as [e|keep]; simpl in Hres; [discriminate Hres|].
      destruct rs as [e|rest']; simpl in Hres; [discriminate Hres|].
      injection Hres as <-. rewrite (Hkept rest' eq_refl).
      now destruct keep.
    + change (Eff.ret (W := W) (E := HadolintEvent) false s) with (inr (A := Exn) false, s).
      destruct (IH s) as (outcomes & Hlen & Htrace & Hkept).
      destruct (filter_async _ rest _) as [rs s2]. simpl in *.
      exists outcomes. split; [exact Hlen|]. split; [exact Htrace|].
      intros kept Hres. destruct rs as [e|rest']; simpl in Hres; [discriminate Hres|].
      injection Hres as <-. now apply Hkept.
Qed.

(** With [autoInject], [hasDockerfile] is asked once for every module that
    is compatible with [container], in the order of the project, and for no
    other module; when all have answered, one [hadolint] module is added for
    each module the answer was yes for, named [hadolint-<name>] and at the
    path of its source. Without [autoInject] nothing is asked or added. *)
Theorem hadolint_augmentGraph_probes autoInject modules w :
  let result := Eff.run (augmentGraph' autoInject modules) w in
  if autoInject then
    exists outcomes,
      length outcomes = length (containerModules modules) /\
      Eff.trace result.2 = map probed (combine (containerModules modules) outcomes) /\
      forall added,
        result.1 = inr added ->
        exists specs,
          let sources := withDockerfile (combine (containerModules modules) outcomes) in
          added = Some specs /\
          map hs_name specs = map (fun module => "hadolint-" +:+ gm_name module) sources /\
          map hs_path specs = map gm_path sources /\
          List.Forall (fun spec => hs_type spec = "hadolint") specs
  else result = (inr None, Eff.mkState w []).
Proof.
  destruct autoInject; [|reflexivity].
  cbv zeta. unfold hadolint_augmentGraph, Eff.run, Eff.bind.
  change (negb true) with false. cbv beta iota.
  destruct (filter_async_probe modules (Eff.mkState w [])) as (outcomes & Hlen & Htrace & Hkept).
  exists outcomes. split; [exact Hlen|].
  destruct (filter_async _ modules _) as [[e|kept] s1]; simpl in *.
  - split; [exact Htrace|]. discriminate.
  - split; [exact Htrace|]. intros added [= <-].
    eexists. split; [reflexivity|]. rewrite <- (Hkept kept eq_refl), !map_map. simpl.
    split; [reflexivity|]. split; [reflexivity|].
    apply List.Forall_forall. intros spec Hin. apply in_map_iff in Hin as (m & <- & _).
    reflexivity.
Qed.

Ltac hl_runs :=
  unfold testModule;
  unfold Eff.run, Eff.bind, Eff.try_catch, Eff.call, Eff.emit, Eff.ret, Eff.throw in *; simpl;
  repeat match goal with
    | |- context [if ?b then _ else _] => is_var b; destruct b; simpl in *
    | |- context [let '(_, _) := ?f ?w in _] =>
        let e := fresh "e" in let a := fresh "a" in
        let w' := fresh "w" in let H := fresh "Hcall" in
        destruct (f w) as [[e|a] w'] eqn:H; simpl in *
    | |- context [match parseFindings ?s with inl _ => _ | inr _ => _ end] =>
        let e := fresh "e" in let parsed := fresh "parsed" in
        let H := fresh "Hparse" in
        destruct (parseFindings s) as [e|parsed] eqn:H; simpl in *
    end.

Ltac hl_in :=
  repeat match goal with
    | H : In _ _ |- _ => simpl in H
    | H : _ \/ _ |- _ => destruct H
    | H : False |- _ => destruct H
    | H : _ = _ :> HadolintEvent |- _ => (discriminate H || (injection H as ?; subst))
    end;
  try congruence.

Ltac hl_find := simpl; repeat (first [left; reflexivity | right]).

(** What a run of [testModule] that returns has done, and what it returns. *)
Lemma testModule_returns projectRoot threshold module name w res :
  (Eff.run (testModule' projectRoot threshold module name) w).1 = inr res ->
  exists t0 dockerfile probes configPath stdout parsed t1,
    let dockerfilePath := join [hm_path module; hm_dockerfilePath module] in
    let args := ["--config"; configPath; "--format"; "json"; dockerfilePath] in
    let errors := List.filter (fun p => String.eqb (f_level p) "error") parsed in
    let warnings := List.filter (fun p => String.eqb (f_level p) "warning") parsed in
    Eff.trace (Eff.run (testModule' projectRoot threshold module name) w).2
    = HlNow (inr t0) :: HlReadFile dockerfilePath (inr dockerfile)
      :: probes ++ [HlExec args (inr stdout); HlNow (inr t1)] /\
    (forall ev, In ev probes -> exists p b, ev = HlPathExists p (inr b)) /\
    parseFindings stdout = inr parsed /\
    command res = "hadolint" :: args /\
    startedAt res = t0 /\ completedAt res = t1 /\
    testName res = name /\ moduleName res = hm_name module /\
    test_version res = versionString (hm_version module) /\
    success res
    = negb ((0 <? length warnings)%nat && String.eqb threshold "warning"
            || (0 <? length errors)%nat && negb (String.eqb threshold "none")) /\
    (test_log res = "OK" <-> parsed = []).
Proof.
  revert res. hl_runs; intros res H; try discriminate H; injection H as <-; cbv zeta; simpl.
  all: do 2 eexists.
  all: first [ eexists [_]; do 4 eexists; split; [reflexivity|]
             | eexists [_; _]; do 4 eexists; split; [reflexivity|] ].
  all: (split; [intros ev Hin; simpl in Hin;
                repeat (destruct Hin as [<-|Hin]; [eauto|]); destruct Hin|]).
  all: (split; [eassumption|]).
  all: repeat (split; [reflexivity|]).
  all: split; [destruct (_ && _); [reflexivity|destruct (_ && _); reflexivity]|].
  all: destruct parsed; simpl; split; try reflexivity; try discriminate.
Qed.

(** When the Dockerfile cannot be read, the test ends with a configuration
    error that names the path as the module gives it; no configuration file
    is looked for and [hadolint] is not run. *)
Theorem testModule_missing_dockerfile projectRoot threshold module name w path err :
  let result := Eff.run (testModule' projectRoot threshold module name) w in
  In (HlReadFile path (inl err)) (Eff.trace result.2) ->
  result.1 = inl (mkExn ConfigurationError
                    ("hadolint: Could not find Dockerfile at " +:+ hm_dockerfilePath module)) /\
  (forall p r, ~ In (HlPathExists p r) (Eff.trace result.2)) /\
  (forall args r, ~ In (HlExec args r) (Eff.trace result.2)).
Proof.
  cbv zeta. hl_runs; intros H; hl_in.
  all: split; [reflexivity|]; split; intros ? ? Hin; hl_in.
Qed.

(** [hadolint] is run on the Dockerfile of the module with one
    configuration file: the one of the module when there is one, and then
    the project is not looked at; else the one of the project; else the
    default one. *)
Theorem testModule_config_preference projectRoot threshold module name w args r :
  let result := Eff.run (testModule' projectRoot threshold module name) w in
  let moduleConfigPath := join [hm_path module; ".hadolint.yaml"] in
  let projectConfigPath := join [projectRoot; ".hadolint.yaml"] in
  In (HlExec args r) (Eff.trace result.2) ->
  exists configPath,
    args = ["--config"; configPath; "--format"; "json";
            join [hm_path module; hm_dockerfilePath module]] /\
    (configPath = moduleConfigPath /\
     In (HlPathExists moduleConfigPath (inr true)) (Eff.trace result.2) /\
     (forall p b, In (HlPathExists p b) (Eff.trace result.2) -> p = moduleConfigPath)
     \/
     configPath = projectConfigPath /\
     In (HlPathExists moduleConfigPath (inr false)) (Eff.trace result.2) /\
     In (HlPathExists projectConfigPath (inr true)) (Eff.trace result.2)
     \/
     configPath = join [STATIC_DIR; "hadolint"; "default.hadolint.yaml"] /\
     In (HlPathExists moduleConfigPath (inr false)) (Eff.trace result.2) /\
     In (HlPathExists projectConfigPath (inr false)) (Eff.trace result.2)).
Proof.
  cbv zeta. unfold configFilename, defaultConfigPath.
  hl_runs; intros H; hl_in.
  all: eexists; (split; [reflexivity|]).
  all: first
         [ left; split; [reflexivity|]; split; [hl_find|]; intros ? ? Hin; hl_in; reflexivity
         | right; left; split; [reflexivity|]; split; hl_find
         | right; right; split; [reflexivity|]; split; hl_find ].
Qed.

(** A test that returns has run [hadolint], and succeeds exactly when its
    output has no finding of level [error], unless the threshold is [none],
    and, if the threshold is [warning], none of level [warning] either. *)
Theorem testModule_success projectRoot threshold module name w res :
  let result := Eff.run (testModule' projectRoot threshold module name) w in
  result.1 = inr res ->
  exists args stdout parsed,
    In (HlExec args (inr stdout)) (Eff.trace result.2) /\
    parseFindings stdout = inr parsed /\
    (success res = true <->
     (threshold <> "none" -> List.Forall (fun p => f_level p <> "error") parsed) /\
     (threshold = "warning" -> List.Forall (fun p => f_level p <> "warning") parsed)).
Proof.
  cbv zeta. intros H.
  destruct (testModule_returns _ _ _ _ _ _ H)
    as (t0 & dockerfile & probes & configPath & stdout & parsed & t1 & Htrace & Hprobes & Hparse
        & _ & _ & _ & _ & _ & _ & Hsuccess & _).
  cbv zeta in *. eexists _, stdout, parsed. split.
  { rewrite Htrace. right. right. apply in_or_app. right. left. reflexivity. }
  split; [exact Hparse|]. rewrite Hsuccess, negb_true_iff, orb_false_iff, !andb_false_iff.
  rewrite !filter_none_iff, negb_false_iff, !String.eqb_eq, String.eqb_neq.
  assert (Hlevel : forall level,
             List.Forall (fun p => String.eqb (f_level p) level = false) parsed
             <-> List.Forall (fun p => f_level p <> level) parsed).
  { intros level. apply Forall_iff. intros p. apply String.eqb_neq. }
  rewrite !Hlevel. split.
  - intros [Hw He]. split.
    + intros Hn. destruct He as [He|He]; [exact He|contradiction].
    + intros Ht. destruct Hw as [Hw|Hw]; [exact Hw|contradiction].
  - intros [He Hw]. split.
    + destruct (String.eqb threshold "warning") eqn:E.
      * left. apply Hw. now apply String.eqb_eq.
      * right. now apply String.eqb_neq.
    + destruct (String.eqb threshold "none") eqn:E.
      * right. now apply String.eqb_eq.
      * left. apply He. now apply String.eqb_neq.
Qed.

(** The log of a test that returns is [OK] exactly when [hadolint] reported
    nothing, whatever the threshold is. *)
Theorem testModule_log_ok projectRoot threshold module name w res :
  let result := Eff.run (testModule' projectRoot threshold module name) w in
  result.1 = inr res ->
  exists args stdout parsed,
    In (HlExec args (inr stdout)) (Eff.trace result.2) /\
    parseFindings stdout = inr parsed /\
    (test_log res = "OK" <-> parsed = []).
Proof.
  cbv zeta. intros H.
  destruct (testModule_returns _ _ _ _ _ _ H)
    as (t0 & dockerfile & probes & configPath & stdout & parsed & t1 & Htrace & Hprobes & Hparse
        & _ & _ & _ & _ & _ & _ & _ & Hlog).
  cbv zeta in *. eexists _, stdout, parsed. split.
  { rewrite Htrace. right. right. apply in_or_app. right. left. reflexivity. }
  split; [exact Hparse|exact Hlog].
Qed.

(** A test that returns reports the command it has run, the time it read
    before anything else as its start, and the time it read after
    everything else as its end. *)
Theorem testModule_report projectRoot threshold module name w res :
  let result := Eff.run (testModule' projectRoot threshold module name) w in
  result.1 = inr res ->
  exists args stdout middle,
    Eff.trace result.2
    = HlNow (inr (startedAt res)) :: middle
      ++ [HlExec args (inr stdout); HlNow (inr (completedAt res))] /\
    command res = "hadolint" :: args /\
    (forall t, ~ In (HlNow t) middle) /\
    testName res = name /\ moduleName res = hm_name module /\
    test_version res = versionString (hm_version module).
Proof.
  cbv zeta. intros H.
  destruct (testModule_returns _ _ _ _ _ _ H)
    as (t0 & dockerfile & probes & configPath & stdout & parsed & t1 & Htrace & Hprobes & Hparse
        & Hcommand & <- & <- & Hname & Hmodule & Hversion & _ & _).
  cbv zeta in *. eexists _, stdout, (_ :: probes). split; [exact Htrace|].
  split; [exact Hcommand|]. split; [|auto].
  intros t [Hin|Hin]; [discriminate Hin|].
  apply Hprobes in Hin as (p & b & Hin). discriminate Hin.
Qed.

End HadolintProperties.

Lemma hadolint_augmentGraph_probes_witness :
  exists outcomes,
    Eff.trace (Eff.run (lint_augmentGraph true) lint_world).2
    = map (fun mr => HlHasDockerfile (fst mr) (snd mr)) (combine [image_module] outcomes) /\
    Eff.run (lint_augmentGraph false) lint_world = (inr None, Eff.mkState lint_world []).
Proof.
  destruct (hadolint_augmentGraph_probes lint_hasDockerfile
              (fun module => lint_join [gm_path module; "Dockerfile"])
              (fun _ to => to) true plugin_modules lint_world)
    as (outcomes & _ & Htrace & _).
  exists outcomes. split; [exact Htrace|].
  exact (hadolint_augmentGraph_probes lint_hasDockerfile
           (fun module => lint_join [gm_path module; "Dockerfile"])
           (fun _ to => to) false plugin_modules lint_world).
Defined.

Lemma testModule_missing_dockerfile_witness :
  (Eff.run (lint_testModule "error"
              (mkHadolintModule "hadolint-api" "/project/api" "Dockerfile"
                 (mkModuleVersion "v-api" [])))
           lint_world).1
  = inl (mkExn ConfigurationError "hadolint: Could not find Dockerfile at Dockerfile").
Proof.
  refine (proj1 (testModule_missing_dockerfile lint_join lint_readFile lint_pathExists
                   lint_exec lint_now lint_lines (fun s => s) (fun s => s) (fun s => s)
                   (default "undefined") "/static" lint_parseFindings
                   "/project" "error" _ "lint" lint_world "/project/api/Dockerfile"
                   (mkExn ForeignError
                      "ENOENT: no such file or directory, open '/project/api/Dockerfile'")
                   _)).
  vm_compute. right. left. reflexivity.
Defined.

Lemma testModule_config_preference_witness :
  exists configPath r,
    In (HlExec ["--config"; configPath; "--format"; "json"; "/project/image/Dockerfile"] r)
       (Eff.trace (Eff.run (lint_testModule "error" lint_module) lint_world).2) /\
    configPath = "/project/.hadolint.yaml".
Proof.
  assert (Hin : exists r,
             In (HlExec ["--config"; "/project/.hadolint.yaml"; "--format"; "json";
                         "/project/image/Dockerfile"] r)
                (Eff.trace (Eff.run (lint_testModule "error" lint_module) lint_world).2)).
  { eexists. vm_compute. do 4 right. left. reflexivity. }
  destruct Hin as [r Hin].
  destruct (testModule_config_preference lint_join lint_readFile lint_pathExists
              lint_exec lint_now lint_lines (fun s => s) (fun s => s) (fun s => s)
              (default "undefined") "/static" lint_parseFindings
              "/project" "error" lint_module "lint" lint_world _ _ Hin)
    as (configPath & Hargs & _).
  injection Hargs as <-. exists "/project/.hadolint.yaml", r. split; [exact Hin|reflexivity].
Defined.

Lemma testModule_success_witness :
  exists res,
    (Eff.run (lint_testModule "warning" lint_module) lint_world).1 = inr res /\
    success res = false /\
    exists args stdout parsed,
      In (HlExec args (inr stdout))
         (Eff.trace (Eff.run (lint_testModule "warning" lint_module) lint_world).2) /\
      lint_parseFindings stdout = inr parsed /\
      (success res = true <->
       ("warning" <> "none" -> List.Forall (fun p => f_level p <> "error") parsed) /\
       ("warning" = "warning" -> List.Forall (fun p => f_level p <> "warning") parsed)).
Proof.
  eexists. split; [vm_compute; reflexivity|]. split; [reflexivity|].
  refine (testModule_success lint_join lint_readFile lint_pathExists
            lint_exec lint_now lint_lines (fun s => s) (fun s => s) (fun s => s)
            (default "undefined") "/static" lint_parseFindings
            "/project" "warning" lint_module "lint" lint_world _ _).
  vm_compute. reflexivity.
Defined.

Lemma testModule_log_ok_witness :
  exists res,
    (Eff.run (lint_testModule "none" lint_module) lint_world).1 = inr res /\
    success res = true /\
    exists args stdout parsed,
      In (HlExec args (inr stdout))
         (Eff.trace (Eff.run (lint_testModule "none" lint_module) lint_world).2) /\
      lint_parseFindings stdout = inr parsed /\
      (test_log res = "OK" <-> parsed = []).
Proof.
  eexists. split; [vm_compute; reflexivity|]. split; [reflexivity|].
  refine (testModule_log_ok lint_join lint_readFile lint_pathExists
            lint_exec lint_now lint_lines (fun s => s) (fun s => s) (fun s => s)
            (default "undefined") "/static" lint_parseFindings
            "/project" "none" lint_module "lint" lint_world _ _).
  vm_compute. reflexivity.
Defined.

Lemma testModule_report_witness :
  exists res,
    (Eff.run (lint_testModule "error" lint_module) lint_world).1 = inr res /\
    startedAt res = 100 /\ completedAt res = 101 /\
    exists args stdout middle,
      Eff.trace (Eff.run (lint_testModule "error" lint_module) lint_world).2
      = HlNow (inr (startedAt res)) :: middle
        ++ [HlExec args (inr stdout); HlNow (inr (completedAt res))] /\
      command res = "hadolint" :: args.
Proof.
  eexists. split; [vm_compute; reflexivity|]. split; [reflexivity|]. split; [reflexivity|].
  destruct (testModule_report lint_join lint_readFile lint_pathExists
              lint_exec lint_now lint_lines (fun s => s) (fun s => s) (fun s => s)
              (default "undefined") "/static" lint_parseFindings
              "/project" "error" lint_module "lint" lint_world _ eq_refl)
    as (args & stdout & middle & Htrace & Hcommand & _).
  exists args, stdout, middle. split; [exact Htrace|exact Hcommand].
Defined.

Lemma process_log_outcome_witness :
  exists r,
    (Eff.run (process demo_getModuleKey (demo_task web_module false)) (mkDemoWorld [] [])).1
    = inr r.
Proof.
  apply (proj1 (process_log_outcome demo_getModuleKey (demo_task web_module false)
                  (mkDemoWorld [] []))).
  vm_compute. repeat (first [left; reflexivity | right]).
Defined.

Lemma validateAgainstBases_keeps_witness :
  validateAgainstBases unit unit (fun s _ => s) demo_validateWithPath demo_resolveGarden
    [mkModuleTypeDefinition unit "base" None None] (web_config "container")
  = inr (web_config "container").
Proof.
  apply (proj2 (validateAgainstBases_keeps unit unit (fun s _ => s) demo_validateWithPath
                  demo_resolveGarden [mkModuleTypeDefinition unit "base" None None]
                  (web_config "container"))).
  constructor; [split; reflexivity|constructor].
Defined.
